(** * cdkit.ui.automation: the helpers of [lib/run.js]

    A shallow embedding of the [Helper] class of [lib/run.js] and the
    properties of its suite resolver, build pipeline, capability matrix
    builder, emulator readiness watch and server teardown.

    Conventions.  Text that the code inspects character by character (log
    chunks, file contents) is a [list ascii]; a character is an 8-bit code
    unit.  Names used as keys (projects, capability keys, platforms) are
    [string]s.  JavaScript numbers that hold millisecond timestamps are [Z],
    with [None] for [NaN]. *)

From Stdlib Require Import Ascii ZArith.
From stdpp Require Import base gmap strings list pretty.

Local Open Scope list_scope.

(* stdpp's set_solver clears hypotheses that are already gone. *)
#[local] Set Warnings "-clear-no-such-hyp".

(** ** Text helpers *)

Abbreviation text := (list ascii).

(** A string literal as text. *)
Definition txt (s : string) : text := String.list_ascii_of_string s.

(** ** Regular expressions

    The fragment of JavaScript regular expressions that [run.js] uses: a
    sequence of literal characters and of greedy [c+] repetitions of a
    character class ([\d+], [.+]).  [match_here] is the backtracking matcher
    of the language: a repetition first takes as many characters as it can
    and gives them back one at a time while the rest of the pattern fails. *)

Module Regex.

Inductive item : Type :=
  | Chr (c : ascii)
  | Many1 (p : ascii -> bool).

Definition regex := list item.

(** After the first character of a [c+]: take more while possible, else
    continue with [k], the matcher of the rest of the pattern. *)
Fixpoint greedy (p : ascii -> bool) (k : text -> option text) (s : text)
  : option text :=
  match s with
  | x :: s' =>
      if p x then
        match greedy p k s' with
        | Some t => Some t
        | None => k s
        end
      else k s
  | [] => k s
  end.

(** [match_here r s] matches [r] at the start of [s] and returns what is left
    of [s] after the match. *)
Fixpoint match_here (r : regex) : text -> option text :=
  match r with
  | [] => fun s => Some s
  | Chr c :: r' => fun s =>
      match s with
      | x :: s' => if Ascii.eqb x c then match_here r' s' else None
      | [] => None
      end
  | Many1 p :: r' => fun s =>
      match s with
      | x :: s' => if p x then greedy p (match_here r') s' else None
      | [] => None
      end
  end.

(** [String.prototype.match] with a [/g] pattern: every match, left to right,
    the search resuming where the previous match ended (one character further
    after an empty match).  [skip] counts the characters of the current match
    that are still to be passed over. *)
Fixpoint scan (r : regex) (skip : nat) (s : text) {struct s} : list text :=
  match s with
  | [] =>
      match skip with
      | O => match match_here r [] with Some _ => [[]] | None => [] end
      | S _ => []
      end
  | x :: s' =>
      match skip with
      | S k => scan r k s'
      | O =>
          match match_here r (x :: s') with
          | Some t =>
              let n := length (x :: s') - length t in
              take n (x :: s') :: scan r (n - 1) s'
          | None => scan r 0 s'
          end
      end
  end.

Definition match_all (r : regex) (s : text) : list text := scan r 0 s.

(** The value of [s.match(/r/g)]: [null] ([None]) when nothing matches. *)
Definition match_g (r : regex) (s : text) : option (list text) :=
  match match_all r s with
  | [] => None
  | ms => Some ms
  end.

(** [/r/.test(s)] on a fresh pattern object: is there a match anywhere. *)
Fixpoint test (r : regex) (s : text) : bool :=
  match match_here r s with
  | Some _ => true
  | None =>
      match s with
      | [] => false
      | _ :: s' => test r s'
      end
  end.

(** Pattern builders. *)
Definition lit (s : string) : regex := map Chr (txt s).

Definition is_digit (c : ascii) : bool :=
  (48 <=? nat_of_ascii c) && (nat_of_ascii c <=? 57).

(** [.] matches every character but a line terminator. *)
Definition is_dot (c : ascii) : bool :=
  negb (Nat.eqb (nat_of_ascii c) 10 || Nat.eqb (nat_of_ascii c) 13).

Definition digits : regex := [Many1 is_digit].

End Regex.

(** ** [String.prototype.trim] *)

Definition is_space (c : ascii) : bool :=
  let n := nat_of_ascii c in
  ((9 <=? n) && (n <=? 13)) || Nat.eqb n 32 || Nat.eqb n 160.

Fixpoint trim_start (s : text) : text :=
  match s with
  | c :: s' => if is_space c then trim_start s' else s
  | [] => []
  end.

Definition trim_end (s : text) : text := rev (trim_start (rev s)).

Definition trim (s : text) : text := trim_end (trim_start s).

(** ** The matcher and the language of a pattern

    [Matches r m]: the whole of [m] is a word of [r].  The matcher is sound
    for it, and complete on patterns where a repetition is never followed by a
    character of its own class ([determ]), which is the case of every pattern
    that ends a decision of the readiness watch. *)

Module RegexLang.
Import Regex.

Inductive Matches : regex -> text -> Prop :=
  | M_nil : Matches [] []
  | M_chr c r m : Matches r m -> Matches (Chr c :: r) (c :: m)
  | M_many p r x d m :
      p x = true -> forallb p d = true -> Matches r m ->
      Matches (Many1 p :: r) (x :: d ++ m).

(** [c] can occur in a word of the pattern. *)
Definition accepts (c : ascii) (i : item) : bool :=
  match i with
  | Chr c' => Ascii.eqb c c'
  | Many1 p => p c
  end.

(** No backtracking is ever needed to match [r] in front of [t]. *)
Fixpoint determ (r : regex) (t : text) : bool :=
  match r with
  | [] => true
  | Chr _ :: r' => determ r' t
  | Many1 p :: r' =>
      match r' with
      | [] => match t with [] => true | x :: _ => negb (p x) end
      | Chr c :: _ => negb (p c) && determ r' t
      | Many1 _ :: _ => false
      end
  end.

Definition closed (r : regex) : Prop := forall t, determ r t = true.

(** [within r B]: in a text that ends with [B], no word of [r] reaches into
    [B]. *)
Definition within (r : regex) (B : text) : Prop :=
  forall u m t, Matches r m -> u ++ B = m ++ t -> exists w, u = m ++ w.

End RegexLang.


(** ** The runtime the helpers run on

    What [run.js] takes from Node: the platform ([os.platform() === 'win32']),
    [path.join], [__dirname].  [path.sep] follows the platform. *)

Record runtime : Type := {
  win32 : bool;
  path_join : list string -> string;
  dirname : string;
}.

Definition path_sep (rt : runtime) : string := if win32 rt then "\" else "/".

(** [const TEST_DIR = 'ui-tests'] *)
Definition TEST_DIR : string := "ui-tests".

(** [getAbsolutePath(app, file)] *)
Definition getAbsolutePath (rt : runtime) (app file : string) : string :=
  path_join rt [dirname rt; ".."; TEST_DIR; app; file].

(** [spawnConvert(cmd, flags)]: the program to spawn and the flags as the
    call leaves them ([flags.unshift('/c', cmd)] on Windows). *)
Definition spawnConvert (rt : runtime) (cmd : string) (flags : list string)
  : string * list string :=
  if win32 rt then ("cmd.exe", "/c" :: cmd :: flags) else (cmd, flags).

(** How a call of a helper can end.  The errors: a [TypeError] of the
    engine with its message, the [ENOENT] of [fs] for a path that does not
    exist, and the [TypeError] with code [ERR_INVALID_ARG_TYPE] of a Node
    function given an argument that is not a string. *)
Inductive error : Type :=
  | TypeError (what : string)
  | ENOENT (path : string)
  | InvalidArgType (argument : string).

Inductive outcome (A : Type) : Type :=
  | Return (a : A)
  | Exit (code : Z) (logged : string)
  | Throw (e : error).
Arguments Return {A} a.
Arguments Exit {A} code logged.
Arguments Throw {A} e.

Definition returns {A} (o : outcome A) : bool :=
  match o with
  | Return _ => true
  | _ => false
  end.

(** *** JavaScript strings *)

Definition strlen (s : string) : Z := Z.of_nat (String.length s).

(** [s.slice(a, b)] *)
Definition slice (s : string) (a b : Z) : string :=
  let len := strlen s in
  let from := if (a <? 0)%Z then Z.max (len + a) 0 else Z.min a len in
  let to := if (b <? 0)%Z then Z.max (len + b) 0 else Z.min b len in
  String.substring (Z.to_nat from) (Z.to_nat (Z.max (to - from) 0)) s.

(** [s.split(c)] for a one-character separator. *)
Fixpoint split (c : ascii) (s : string) : list string :=
  match s with
  | EmptyString => [EmptyString]
  | String x s' =>
      let r := split c s' in
      if Ascii.eqb x c then EmptyString :: r
      else match r with
           | h :: t => String x h :: t
           | [] => [String x EmptyString]
           end
  end.

(** A POSIX [path.join] for the examples: the segments joined by [/] and
    normalised ([.], empty segments and [..] resolved). *)
Module Posix.

Fixpoint normalize (segs : list string) (acc : list string) : list string :=
  match segs with
  | [] => rev acc
  | seg :: segs' =>
      if String.eqb seg "" || String.eqb seg "." then normalize segs' acc
      else if String.eqb seg ".." then
        match acc with
        | top :: acc' =>
            if String.eqb top ".." then normalize segs' (seg :: acc)
            else normalize segs' acc'
        | [] => normalize segs' [seg]
        end
      else normalize segs' (seg :: acc)
  end.

Definition join_with (sep : string) (l : list string) : string :=
  match l with
  | [] => ""
  | x :: l' => fold_left (fun acc y => acc +:+ sep +:+ y) l' x
  end.

Definition join (parts : list string) : string :=
  let joined := join_with "/" (filter (fun p => p <> ""%string) parts) in
  match joined with
  | EmptyString => "."
  | String c _ =>
      let body := join_with "/" (normalize (split "/" joined) []) in
      if Ascii.eqb c "/" then "/" +:+ body
      else if String.eqb body "" then "." else body
  end.

Definition rt : runtime :=
  {| win32 := false; path_join := join; dirname := "/repo/lib" |}.

End Posix.
(** ** The emulator readiness watch ([Helper.launchGeny], lines 490-522)

    [fs.watchFile] calls back on every change of [genymotion-player.log]; the
    callback opens the file and, on each [data] event, runs the decision
    below on the chunk [output].  [Date.parse] is the runtime's and
    [Date.now()] is the clock of the event. *)

Module Geny.
Import Regex RegexLang.

(** [/\d+-\d+-\d+T\d+:\d+:\d+\+\d+:\d+/g] *)
Definition tsRe : regex :=
  digits ++ lit "-" ++ digits ++ lit "-" ++ digits ++ lit "T" ++
  digits ++ lit ":" ++ digits ++ lit ":" ++ digits ++ lit "+" ++
  digits ++ lit ":" ++ digits.

(** [/\d+-\d+-\d+T\d+:\d+:\d+\+\d+:\d+ \[Genymotion Player:\d+\] \[debug\] Device booted in \d+ ms/g] *)
Definition bootRe : regex :=
  digits ++ lit "-" ++ digits ++ lit "-" ++ digits ++ lit "T" ++
  digits ++ lit ":" ++ digits ++ lit ":" ++ digits ++ lit "+" ++
  digits ++ lit ":" ++ digits ++
  lit " [Genymotion Player:" ++ digits ++
  lit "] [debug] Device booted in " ++ digits ++ lit " ms".

(** [/Device booted in .+/g] *)
Definition subRe : regex := lit "Device booted in " ++ [Many1 is_dot].

(** [Array.prototype.toString]: the elements joined by commas. *)
Fixpoint array_toString (a : list text) : text :=
  match a with
  | [] => []
  | [x] => x
  | x :: a' => x ++ txt "," ++ array_toString a'
  end.

(** The string that [Date.parse] receives for the value of a [match]. *)
Definition to_string (v : option (list text)) : text :=
  match v with
  | None => txt "null"
  | Some a => array_toString a
  end.

(** The watcher of the log file and the promise it settles. *)
Record watch : Type := { watching : bool; resolved : bool }.

Definition watch0 : watch := {| watching := true; resolved := false |}.

Section Watch.

Variable Date_parse : text -> option Z.

(** The [data] handler of lines 493-521.  [now] is [Date.now()]; resolving
    the promise also stops the watch ([fs.unwatchFile]). *)
Definition on_data (now : Z) (output : text) (w : watch) : watch :=
  match match_g bootRe (trim output) with
  | None => w
  | Some matches =>
      let lastLine := default [] (last matches) in
      let dateTime := match_g tsRe lastLine in
      let logTime := Date_parse (to_string dateTime) in
      let deltaTime := (fun t => now - t)%Z <$> logTime in
      if match deltaTime with Some d => (d <=? 10000)%Z | None => false end
         && test subRe lastLine
      then {| watching := false; resolved := true |}
      else w
  end.

End Watch.

(** *** Reading of the claims *)

(** The last text of the chunk that matches the boot-line pattern. *)
Definition last_boot_line (output : text) : option text :=
  match_g bootRe (trim output) ≫= last.

(** The timestamp of a log line [TIMESTAMP [Label:PID] [level] ...]: its
    first field, up to the first blank. *)
Fixpoint timestamp_field (line : text) : text :=
  match line with
  | [] => []
  | c :: line' => if Ascii.eqb c " " then [] else c :: timestamp_field line'
  end.


Definition newline : ascii := ascii_of_nat 10.

(** A [Date.parse] for the examples: the ECMAScript date-time format
    [YYYY-MM-DDTHH:mm:ss+HH:mm] (or with [-]), [NaN] on anything else. *)
Definition digit_val (c : ascii) : option Z :=
  if is_digit c then Some (Z.of_nat (nat_of_ascii c) - 48)%Z else None.

Fixpoint number (ds : text) (acc : Z) : option Z :=
  match ds with
  | [] => Some acc
  | c :: ds' => digit_val c ≫= fun v => number ds' (10 * acc + v)%Z
  end.

Definition leap (y : Z) : bool :=
  ((y mod 4 =? 0) && negb (y mod 100 =? 0) || (y mod 400 =? 0))%Z.

Definition days_in_month (y m : Z) : Z :=
  (if m =? 2 then (if leap y then 29 else 28)
   else if (m =? 4) || (m =? 6) || (m =? 9) || (m =? 11) then 30 else 31)%Z.

(** Days from 1970-01-01 to the civil date [y-m-d]. *)
Definition days_from_civil (y m d : Z) : Z :=
  (let y' := if m <=? 2 then y - 1 else y in
   let era := y' / 400 in
   let yoe := y' - era * 400 in
   let doy := (153 * (if 2 <? m then m - 3 else m + 9) + 2) / 5 + d - 1 in
   let doe := yoe * 365 + yoe / 4 - yoe / 100 + doy in
   era * 146097 + doe - 719468)%Z.

Definition iso_parse (s : text) : option Z :=
  match s with
  | [y1; y2; y3; y4; d1; m1; m2; d2; a1; a2; t; h1; h2; c1; n1; n2; c2;
     s1; s2; sg; o1; o2; c3; p1; p2] =>
      if Ascii.eqb d1 "-" && Ascii.eqb d2 "-" && Ascii.eqb t "T" &&
         Ascii.eqb c1 ":" && Ascii.eqb c2 ":" && Ascii.eqb c3 ":" &&
         (Ascii.eqb sg "+" || Ascii.eqb sg "-")
      then
        y ← number [y1; y2; y3; y4] 0;
        m ← number [m1; m2] 0;
        d ← number [a1; a2] 0;
        h ← number [h1; h2] 0;
        n ← number [n1; n2] 0;
        sec ← number [s1; s2] 0;
        oh ← number [o1; o2] 0;
        om ← number [p1; p2] 0;
        if ((1 <=? m) && (m <=? 12) && (1 <=? d) && (d <=? days_in_month y m)
            && (h <=? 23) && (n <=? 59) && (sec <=? 59)
            && (oh <=? 23) && (om <=? 59))%Z
        then
          let local := (days_from_civil y m d * 86400 + h * 3600 + n * 60 + sec)%Z in
          let off := (oh * 3600 + om * 60)%Z in
          Some (1000 * (if Ascii.eqb sg "+" then local - off else local + off))%Z
        else None
      else None
  | _ => None
  end.

Definition sample_line : text :=
  txt "2017-08-01T14:23:45+02:00 [Genymotion Player:4711] [debug] Device booted in 21345 ms".

End Geny.

(** *** The watch over the changes of the log file *)

Module GenySpec.
Import Geny.

(** The chunk seen at time [now] shows a fresh boot: its last boot line has
    a timestamp that [Date.parse] reads, at most 10000 ms before [now]. *)
Definition fresh_boot (Date_parse : text -> option Z) (ev : Z * text) : bool :=
  match last_boot_line ev.2 with
  | Some line =>
      match Date_parse (timestamp_field line) with
      | Some t => (ev.1 - t <=? 10000)%Z
      | None => false
      end
  | None => false
  end.

(** The [data] events of the watch, in order: the time and the chunk. *)
Definition run_watch (Date_parse : text -> option Z) (events : list (Z * text))
    (w : watch) : watch :=
  fold_left (fun w ev => on_data Date_parse ev.1 ev.2 w) events w.

End GenySpec.

(** *** The stream over the log file

    The listener of [fs.watchFile] (lines 490-522) opens a stream over the
    log with [fs.createReadStream(playerLog)]: the file arrives in chunks
    of [highWaterMark] bytes, 64 KiB by default, the last one shorter, and
    the [data] handler runs on each chunk. *)

Module GenyStream.
Import Geny GenySpec.

Definition highWaterMark : nat := 64 * 1024.

(** The chunks of [n] bytes of a content. *)
Fixpoint chunks (fuel n : nat) (content : text) : list text :=
  match fuel, content with
  | S fuel', _ :: _ => take n content :: chunks fuel' n (drop n content)
  | _, _ => []
  end.

(** The [data] events of a stream over [content]; none for an empty file. *)
Definition read_stream (content : text) : list text :=
  chunks (length content) highWaterMark content.

(** One change of the log.  [clock k] is [Date.now()] at the [data] event
    number [k]. *)
Definition on_change (Date_parse : text -> option Z) (clock : nat -> Z)
    (content : text) (w : watch) : watch :=
  run_watch Date_parse
    (imap (fun k chunk => (clock k, chunk)) (read_stream content)) w.

End GenyStream.

(** Logs of the player: [lines] lines of rendering, then a boot line. *)
Module SampleLog.
Import Geny.

Definition render_line : text :=
  txt "2017-08-01T14:23:40+02:00 [Genymotion Player:4711] [debug] Rendering"
  ++ [newline].

Definition stale_line : text :=
  txt "2017-08-01T14:20:00+02:00 [Genymotion Player:4711] [debug] Device booted in 999 ms".

(** The boot line of 14:23:45 starts at byte 65481 and ends at byte 65567. *)
Definition long_log : text :=
  concat (repeat render_line 949) ++ sample_line ++ [newline].

(** The boot line of the boot before, then the log of this one. *)
Definition short_log : text :=
  stale_line ++ [newline] ++ sample_line ++ [newline].

Definition two_boots_log : text :=
  stale_line ++ [newline] ++ concat (repeat render_line 948) ++
  sample_line ++ [newline].

(** 2017-08-01T14:23:48+02:00 *)
Definition now : Z := 1501590228000.

End SampleLog.

(** ** Configuration ([ui-tests/<app>/config])

    An object [platform -> key -> entry]; the entries of a platform are its
    suites and the reserved [desiredCapabilities] object.  Objects are kept as
    association lists in the order [Object.keys] enumerates them.  Capability
    objects live in a store, since [createTests] writes to them. *)

Abbreviation loc := nat.

Inductive value : Type :=
  | VUndefined
  | VStr (s : string)
  | VNum (n : Z)
  | VBool (b : bool)
  | VRef (l : loc).

#[global] Instance value_eq_dec : EqDecision value.
Proof. solve_decision. Defined.

Record device : Type := {
  deviceName : value;
  platformVersion : value;
}.

Record suite_def : Type := {
  proj : string;
  appPackage : value;
  appActivity : value;
  testDevices : list device;
}.

Inductive entry : Type :=
  | Caps (l : loc)
  | Suite (d : suite_def).

Definition platform_config := list (string * entry).
Definition config := list (string * platform_config).

(** [o[k]] on an association list. *)
Fixpoint get {A} (o : list (string * A)) (k : string) : option A :=
  match o with
  | [] => None
  | (k', v) :: o' => if String.eqb k' k then Some v else get o' k
  end.

(** A resolved target: the objects that [transform] returns. *)
Record target : Type := {
  abs : string;
  name : string;
  platform : string;
}.

(** ** The suite resolver ([Helper.transform], lines 58-113) *)

Module Resolver.

(** [!x] for an optional string argument. *)
Definition falsy (x : option string) : bool :=
  match x with
  | None => true
  | Some s => String.eqb s ""
  end.

Section Transform.

Variable rt : runtime.
(** [fs.statSync] succeeds on the path. *)
Variable exists_path : string -> bool.
Variable configTests : config.

(** The two nested [forEach] of lines 65-75, appending to [suiteFiles]. *)
Definition add_suites (platformArg : option string) (platform : string)
    (suites : platform_config) (suiteFiles : string) : string :=
  fold_left
    (fun acc '(suite, _) =>
       if negb (String.eqb suite "desiredCapabilities") then
         if falsy platformArg || bool_decide (platformArg = Some platform)
         then acc +:+ suite +:+ path_sep rt +:+ platform +:+ ".js,"
         else acc
       else acc)
    suites suiteFiles.

Definition add_platforms (platformArg : option string) (suiteFiles : string)
  : string :=
  fold_left (fun acc '(platform, suites) => add_suites platformArg platform suites acc)
    configTests suiteFiles.

(** The array [files] of line 80. *)
Definition suite_files (suiteArg platformArg : option string) : list string :=
  let suiteFiles := if falsy suiteArg then ""%string else default ""%string suiteArg in
  let suiteFiles := add_platforms platformArg suiteFiles in
  let suiteFiles := slice suiteFiles 0 (strlen suiteFiles - 1) in
  split "," suiteFiles.

Definition sep_char : ascii := if win32 rt then "\"%char else "/"%char.

(** The body of [files.forEach], lines 81-110. *)
Definition resolve_file (appArg file : string) : outcome target :=
  if negb (exists_path (path_join rt [TEST_DIR; appArg; file])) then
    Exit 1 ("'" +:+ file +:+ "' doesn't exist in '" +:+ TEST_DIR +:+ "' directory.")
  else
    let parts := split sep_char file in
    let suite := default ""%string (parts !! 0%nat) in
    match parts !! 1%nat with
    | None => Throw (TypeError "Cannot read property 'length' of undefined")
    | Some platformFile =>
        let extensionIndex := (strlen platformFile - strlen ".js")%Z in
        let platform := slice platformFile 0 extensionIndex in
        let notSupported :=
          negb (String.eqb platform "ios") && negb (String.eqb platform "android")
          && negb (String.eqb platform "windows") in
        if notSupported then
          Exit 1 (file +:+ ": '" +:+ platform +:+ "' is not a valid platform.")
        else
          Return {| abs := getAbsolutePath rt appArg file;
                    name := suite;
                    platform := platform |}
    end.

Fixpoint for_each (appArg : string) (files : list string) (suites : list target)
  : outcome (list target) :=
  match files with
  | [] => Return suites
  | file :: files' =>
      match resolve_file appArg file with
      | Return t => for_each appArg files' (suites ++ [t])
      | Exit c m => Exit c m
      | Throw e => Throw e
      end
  end.

Definition transform (appArg : string) (suiteArg platformArg : option string)
  : outcome (list target) :=
  for_each appArg (suite_files suiteArg platformArg) [].

(** *** Reading of the claims *)

(** The [(platform, suite)] pairs of the configuration that pass the platform
    filter, the reserved key left out. *)
Definition pairs (platformArg : option string) : list (string * string) :=
  flat_map
    (fun '(platform, suites) =>
       flat_map
         (fun '(suite, _) =>
            if negb (String.eqb suite "desiredCapabilities")
               && (falsy platformArg || bool_decide (platformArg = Some platform))
            then [(platform, suite)] else [])
         (suites : platform_config))
    configTests.

(** The suite file of a pair: [<suite><sep><platform>.js]. *)
Definition file_of (p : string * string) : string :=
  p.2 +:+ path_sep rt +:+ p.1 +:+ ".js".

(** The requested list, verbatim. *)
Definition requested (suiteArg : string) : list string := split "," suiteArg.

End Transform.

(** *** Notions for the proofs *)

Fixpoint comma_free (s : string) : bool :=
  match s with
  | EmptyString => true
  | String c s' => negb (Ascii.eqb c ",") && comma_free s'
  end.

(** The string without its last character. *)
Fixpoint remove_last (s : string) : string :=
  match s with
  | EmptyString => EmptyString
  | String c EmptyString => EmptyString
  | String c s' => String c (remove_last s')
  end.

(** The elements, each followed by a comma. *)
Fixpoint joined (l : list string) : string :=
  match l with
  | [] => EmptyString
  | f :: l' => f +:+ "," +:+ joined l'
  end.

End Resolver.

(** A configuration for the examples: one platform, its capability defaults
    and one suite with two devices. *)
Module Sample.

Definition login : suite_def :=
  {| proj := "LoginApp";
     appPackage := VStr "com.example.login";
     appActivity := VStr ".LoginActivity";
     testDevices :=
       [ {| deviceName := VStr "Nexus 5"; platformVersion := VStr "6.0" |};
         {| deviceName := VStr "Pixel"; platformVersion := VStr "7.1" |} ] |}.

Definition cfg : config :=
  [ ("android"%string,
     [ ("desiredCapabilities"%string, Caps 0); ("login"%string, Suite login) ]) ].

(** The test assets on disk: the directory of the app and the suite file. *)
Definition on_disk (p : string) : bool :=
  String.eqb p "ui-tests/app" || String.eqb p "ui-tests/app/login/android.js".

End Sample.

(** *** What a resolved suite file is *)

Module ResolverSpec.
Import Resolver.

(** The three platform names that line 98 lets through. *)
Definition supported (p : string) : bool :=
  String.eqb p "ios" || String.eqb p "android" || String.eqb p "windows".

(** [file] resolves to [t]: it is on disk under the test directory of the
    app, its first two segments are the suite and the platform file, and the
    platform, which is the platform file without its last three characters,
    is supported. *)
Definition resolves (rt : runtime) (exists_path : string -> bool)
    (app file : string) (t : target) : Prop :=
  exists_path (path_join rt [TEST_DIR; app; file]) = true /\
  (exists platformFile rest,
     split (sep_char rt) file = name t :: platformFile :: rest /\
     platform t = slice platformFile 0 (strlen platformFile - 3)) /\
  supported (platform t) = true /\
  abs t = getAbsolutePath rt app file.

(** The target of a pair of the configuration. *)
Definition target_of_pair (rt : runtime) (app : string) (p : string * string)
  : target :=
  {| abs := getAbsolutePath rt app (file_of rt p);
     name := p.2;
     platform := p.1 |}.

(** [s] holds no [c]. *)
Fixpoint lacks (c : ascii) (s : string) : bool :=
  match s with
  | EmptyString => true
  | String x s' => negb (Ascii.eqb x c) && lacks c s'
  end.

End ResolverSpec.

(** ** The build pipeline ([Helper.buildTestApps], lines 203-326)

    The promise chain runs its steps one after the other; a step that throws
    rejects the chain, which skips what is left (nothing catches inside the
    function, and [done] is then never called); a spawned process that never
    emits [exit] leaves the chain pending. *)

Module Pipeline.
Import Regex.

(** What the run does to the outside, in order. *)
Inductive event : Type :=
  | Spawned (cmd : string) (args : list string)
  | Exited (code : Z)
  | Patched (tiProj : string) (tiappXml : string)
  | Done.

(** The state of a run: the file system, the processes spawned so far, the
    own properties of the object [tiappMod] (line 261), the events. *)
Record world : Type := {
  files : gmap string text;
  spawned : nat;
  tiappMod : gset string;
  trace : list event;
}.

Inductive result (A : Type) : Type :=
  | Ok (a : A) (w : world)
  | Rejected (e : error) (w : world)
  | Pending (w : world).
Arguments Ok {A} a w.
Arguments Rejected {A} e w.
Arguments Pending {A} w.

Definition M (A : Type) : Type := world -> result A.

Definition ret {A} (a : A) : M A := fun w => Ok a w.

Definition bind {A B} (m : M A) (k : A -> M B) : M B := fun w =>
  match m w with
  | Ok a w' => k a w'
  | Rejected e w' => Rejected e w'
  | Pending w' => Pending w'
  end.

Notation "x <- m ;; k" := (bind m (fun x => k))
  (at level 100, m at next level, right associativity).
Notation "m ;;; k" := (bind m (fun _ => k))
  (at level 100, right associativity).

Definition throw {A} (e : error) : M A := fun w => Rejected e w.

Definition emit (e : event) : M unit := fun w =>
  Ok tt {| files := files w; spawned := spawned w; tiappMod := tiappMod w;
           trace := trace w ++ [e] |}.

(** The properties that every object inherits from [Object.prototype]; all of
    them hold functions or objects, so [!o[k]] is [false] on them. *)
Definition object_prototype_keys : list string :=
  [ "constructor"; "__defineGetter__"; "__defineSetter__"; "hasOwnProperty";
    "__lookupGetter__"; "__lookupSetter__"; "isPrototypeOf";
    "propertyIsEnumerable"; "toString"; "valueOf"; "__proto__";
    "toLocaleString" ]%string.

(** [o[k]] is truthy, for an object literal [o] whose own properties, all set
    to [true], are [own]. *)
Definition truthy_prop (own : gset string) (k : string) : bool :=
  bool_decide (k ∈ own) || bool_decide (k ∈ object_prototype_keys).

(** *** [String.prototype.replace] with a string pattern *)

Fixpoint starts_with (pat s : text) : bool :=
  match pat, s with
  | [], _ => true
  | p :: pat', c :: s' => Ascii.eqb p c && starts_with pat' s'
  | _ :: _, [] => false
  end.

(** The text before and after the first occurrence of [pat]. *)
Fixpoint find_first (pat s : text) : option (text * text) :=
  if starts_with pat s then Some ([], drop (length pat) s)
  else match s with
       | [] => None
       | c :: s' =>
           match find_first pat s' with
           | Some (before, after) => Some (c :: before, after)
           | None => None
           end
       end.

(** The replacement text: [$$], [$&], [$`] and [$'] are expanded, any other
    [$] stands for itself (a string pattern captures nothing). *)
Fixpoint substitution (repl matched before after : text) : text :=
  match repl with
  | [] => []
  | c :: r =>
      if Ascii.eqb c "$" then
        match r with
        | d :: r' =>
            if Ascii.eqb d "$" then "$"%char :: substitution r' matched before after
            else if Ascii.eqb d "&" then matched ++ substitution r' matched before after
            else if Ascii.eqb d "`" then before ++ substitution r' matched before after
            else if Ascii.eqb d "'" then after ++ substitution r' matched before after
            else c :: substitution r matched before after
        | [] => [c]
        end
      else c :: substitution r matched before after
  end.

Definition replace (s pat repl : text) : text :=
  match find_first pat s with
  | Some (before, after) => before ++ substitution repl pat before after ++ after
  | None => s
  end.

(** [/<sdk-version>.+<\/sdk-version>/g] *)
Definition sdkRe : regex :=
  lit "<sdk-version>" ++ [Many1 is_dot] ++ lit "</sdk-version>".

Section Build.

Variable rt : runtime.
(** The behaviour of the [k]-th process spawned: its exit code, or [None]
    when it never emits [exit]. *)
Variable procs : nat -> option Z.
Variable configTests : config.
Variable app : string.
(** The value of [--use-sdk]; [""] when the flag was not given. *)
Variable tiSdk : string.

(** [change(tiappXml)], lines 208-216.  The content is read, trimmed and
    written byte by byte, which is what the code does to a descriptor in
    ASCII ([PipelineSpec.plain]); reading fails on a path that does not
    exist, and the write is taken to succeed. *)
Definition change (tiProj tiappXml : string) : M unit := fun w =>
  match files w !! tiappXml with
  | None => Rejected (ENOENT tiappXml) w
  | Some content =>
      let xml := trim content in
      match match_g sdkRe xml with
      | None => Rejected (TypeError "Cannot read property '0' of null") w
      | Some ms =>
          let oldSdkXml := default [] (head ms) in
          let newSdkXml := txt "<sdk-version>" ++ txt tiSdk ++ txt "</sdk-version>" in
          let xml := replace xml oldSdkXml newSdkXml in
          Ok tt {| files := <[tiappXml := xml]> (files w);
                   spawned := spawned w;
                   tiappMod := tiappMod w;
                   trace := trace w ++ [Patched tiProj tiappXml] |}
      end
  end.

(** [appc(flags, next)], lines 225-252: the continuation runs on the [exit]
    event, whose code the listener does not look at.  The calls of the logger
    and the output of the process are left out, and so is what the process
    does to the disk; [spawn] is taken not to throw. *)
Definition appc (flags : list string) : M unit := fun w =>
  let appcExe := if win32 rt then "appc.cmd"%string else "appc"%string in
  let appcFlags := flags ++ ["--no-banner"; "--no-services"]%string in
  let '(cmd, appcFlags) := spawnConvert rt appcExe appcFlags in
  let w' := {| files := files w; spawned := S (spawned w);
               tiappMod := tiappMod w;
               trace := trace w ++ [Spawned cmd appcFlags] |} in
  match procs (spawned w) with
  | Some code =>
      Ok tt {| files := files w'; spawned := spawned w';
               tiappMod := tiappMod w';
               trace := trace w' ++ [Exited code] |}
  | None => Pending w'
  end.

(** [configTests[targetSuite.platform][targetSuite.name].proj] *)
Definition project_of (targetSuite : target) : option string :=
  pc ← get configTests (platform targetSuite);
  e ← get pc (name targetSuite);
  match e with
  | Suite d => Some (proj d)
  | Caps _ => None
  end.

(** What is thrown when there is no project: by the lookup, on a platform
    or a suite that the configuration does not have, or by
    [path.join(targetSuite.name, tiProj)], on an entry without [proj]. *)
Definition project_error (targetSuite : target) : error :=
  match get configTests (platform targetSuite) with
  | None =>
      TypeError ("Cannot read property '" +:+ name targetSuite
                 +:+ "' of undefined")
  | Some pc =>
      match get pc (name targetSuite) with
      | None => TypeError "Cannot read property 'proj' of undefined"
      | Some _ => InvalidArgType "path"
      end
  end.

Definition mark (tiProj : string) : M unit := fun w =>
  Ok tt {| files := files w; spawned := spawned w;
           tiappMod := {[tiProj]} ∪ tiappMod w; trace := trace w |}.

(** The first [then] of a target, lines 270-284. *)
Definition patch_step (targetSuite : target) : M string := fun w =>
  match project_of targetSuite with
  | None => Rejected (project_error targetSuite) w
  | Some tiProj =>
      let tiProjDir :=
        getAbsolutePath rt app (path_join rt [name targetSuite; tiProj]) in
      (if negb (truthy_prop (tiappMod w) tiProj) then
         mark tiProj ;;;
         let tiappXmlFile := path_join rt [tiProjDir; "tiapp.xml"%string] in
         change tiProj tiappXmlFile ;;;
         ret tiProjDir
       else ret tiProjDir) w
  end.

(** The second and third [then], lines 285-319. *)
Definition clean_step (targetSuite : target) (tiProjDir : string) : M string :=
  appc ["ti"; "clean"; "--platforms"; platform targetSuite;
        "--project-dir"; tiProjDir]%string ;;;
  ret tiProjDir.

Definition build_step (targetSuite : target) (tiProjDir : string) : M unit :=
  appc ["run"; "--platform"; platform targetSuite;
        "--project-dir"; tiProjDir; "--build-only"]%string.

Definition target_steps (targetSuite : target) : M unit :=
  tiProjDir <- patch_step targetSuite ;;
  tiProjDir <- clean_step targetSuite tiProjDir ;;
  build_step targetSuite tiProjDir.

(** [suites.forEach] extends the chain by the three steps of each target. *)
Fixpoint chain (suites : list target) : M unit :=
  match suites with
  | [] => ret tt
  | targetSuite :: suites' => target_steps targetSuite ;;; chain suites'
  end.

Definition buildTestApps (suites : list target) : M unit :=
  if String.eqb tiSdk "" then emit Done
  else
    appc ["ti"; "sdk"; "select"; tiSdk]%string ;;;
    chain suites ;;;
    emit Done.

End Build.

(** The state in which a run starts. *)
Definition start (fs : gmap string text) : world :=
  {| files := fs; spawned := 0; tiappMod := ∅; trace := [] |}.

Definition final {A} (r : result A) : world :=
  match r with
  | Ok _ w | Rejected _ w | Pending w => w
  end.

Definition completed {A} (r : result A) : bool :=
  match r with
  | Ok _ _ => true
  | _ => false
  end.

(** *** Reading of the claims *)

(** The descriptor patches of a run, in order: project and file. *)
Definition patches (tr : list event) : list (string * string) :=
  flat_map (fun e => match e with Patched p f => [(p, f)] | _ => [] end) tr.

(** The external steps of a run, in order: program and arguments. *)
Definition steps (tr : list event) : list (string * list string) :=
  flat_map (fun e => match e with Spawned c a => [(c, a)] | _ => [] end) tr.

(** Strict sequencing: while a process runs ([busy]), the only event is its
    exit.  [None] when the trace breaks this; else whether a process is still
    running at the end. *)
Fixpoint seq_state (busy : bool) (tr : list event) : option bool :=
  match tr with
  | [] => Some busy
  | Spawned _ _ :: tr' => if busy then None else seq_state true tr'
  | Exited _ :: tr' => if busy then seq_state false tr' else None
  | _ :: tr' => if busy then None else seq_state false tr'
  end.

(** The steps of the pipeline, as the specification names them. *)
Inductive step : Type :=
  | Select (version : string)
  | Clean (platform projectDir : string)
  | Build (platform projectDir : string).

(** The command line of a step. *)
Definition command (rt : runtime) (s : step) : string * list string :=
  let argv :=
    match s with
    | Select v => ["ti"; "sdk"; "select"; v]
    | Clean p d => ["ti"; "clean"; "--platforms"; p; "--project-dir"; d]
    | Build p d => ["run"; "--platform"; p; "--project-dir"; d; "--build-only"]
    end%string ++ ["--no-banner"; "--no-services"]%string in
  if win32 rt then ("cmd.exe"%string, "/c"%string :: "appc.cmd"%string :: argv)
  else ("appc"%string, argv).

Definition project_dir (rt : runtime) (app : string) (t : target)
    (tiProj : string) : string :=
  getAbsolutePath rt app (path_join rt [name t; tiProj]).

Definition descriptor (rt : runtime) (app : string) (t : target)
    (tiProj : string) : string :=
  path_join rt [project_dir rt app t tiProj; "tiapp.xml"%string].

(** The steps of one target. *)
Definition target_plan (rt : runtime) (configTests : config) (app : string)
    (t : target) : list step :=
  match project_of configTests t with
  | Some tiProj =>
      [ Clean (platform t) (project_dir rt app t tiProj);
        Build (platform t) (project_dir rt app t tiProj) ]
  | None => []
  end.

(** The steps of a run that nothing interrupts: the selection, then clean and
    build of each target, in the order of the targets. *)
Definition plan (rt : runtime) (configTests : config) (app tiSdk : string)
    (suites : list target) : list step :=
  Select tiSdk :: flat_map (target_plan rt configTests app) suites.

(** A run that nothing interrupts: every process exits, every target has a
    project whose descriptor is on disk with an [<sdk-version>] element, and
    projects of different names have different descriptors. *)
Definition healthy (rt : runtime) (procs : nat -> option Z)
    (configTests : config) (app : string) (fs : gmap string text)
    (suites : list target) : Prop :=
  (forall k, is_Some (procs k)) /\
  (forall t, t ∈ suites ->
     exists tiProj content,
       project_of configTests t = Some tiProj /\
       fs !! descriptor rt app t tiProj = Some content /\
       is_Some (match_g sdkRe (trim content))) /\
  (forall t1 t2 p1 p2, t1 ∈ suites -> t2 ∈ suites ->
     project_of configTests t1 = Some p1 ->
     project_of configTests t2 = Some p2 ->
     descriptor rt app t1 p1 = descriptor rt app t2 p2 -> p1 = p2).

(** The exit codes forgotten. *)
Definition erase_event (e : event) : event :=
  match e with
  | Exited _ => Exited 0
  | _ => e
  end.

Definition erase (w : world) : world :=
  {| files := files w; spawned := spawned w; tiappMod := tiappMod w;
     trace := map erase_event (trace w) |}.

Definition erase_result {A} (r : result A) : result A :=
  match r with
  | Ok a w => Ok a (erase w)
  | Rejected e w => Rejected e (erase w)
  | Pending w => Pending (erase w)
  end.

(** *** Notions for the proofs *)

(** [m] runs the steps of [plan], or a first part of them when it is
    rejected or left pending, one process at a time; [Q] holds of what it
    returns. *)
Definition obeys {A} (m : M A) (plan : list (string * list string))
    (Q : A -> Prop) : Prop :=
  forall w, seq_state false (trace w) = Some false ->
    match m w with
    | Ok a w' =>
        Q a /\ seq_state false (trace w') = Some false /\
        steps (trace w') = steps (trace w) ++ plan
    | Rejected _ w' =>
        seq_state false (trace w') = Some false /\
        exists d, d `prefix_of` plan /\ steps (trace w') = steps (trace w) ++ d
    | Pending w' =>
        seq_state false (trace w') = Some true /\
        exists d, d `prefix_of` plan /\ steps (trace w') = steps (trace w) ++ d
    end.

(** The patched project names, and what the memo knows of them. *)
Definition patched_names (w : world) : list string :=
  (patches (trace w)).*1.

Definition memo_inv (w : world) : Prop :=
  NoDup (patched_names w) /\
  forall p, p ∈ patched_names w -> truthy_prop (tiappMod w) p = true.

(** [m] keeps [memo_inv]. *)
Definition preserves {A} (m : M A) : Prop :=
  forall w, memo_inv w -> memo_inv (final (m w)).

(** Two computations that differ by exit codes only. *)
Definition agree {A} (m1 m2 : M A) : Prop :=
  forall w1 w2, erase w1 = erase w2 ->
    erase_result (m1 w1) = erase_result (m2 w2).

End Pipeline.

(** Projects on disk for the examples. *)
Module SampleBuild.
Import Pipeline.

Definition tiapp_xml : text :=
  txt "<ti:app>
  <sdk-version>6.0.0.GA</sdk-version>
</ti:app>
".

Definition tgt (n p : string) : target :=
  {| abs := getAbsolutePath Posix.rt "app" (n +:+ "/" +:+ p +:+ ".js");
     name := n; platform := p |}.

Definition suite_of (p : string) : suite_def :=
  {| proj := p; appPackage := VUndefined; appActivity := VUndefined;
     testDevices := [] |}.

(** The suite [login] on two platforms and the suite [settings], every one
    with a project named [LoginApp] in its own directory. *)
Definition cfg : config :=
  [ ("android"%string,
     [ ("desiredCapabilities"%string, Caps 0);
       ("login"%string, Suite (suite_of "LoginApp"));
       ("settings"%string, Suite (suite_of "LoginApp")) ]);
    ("ios"%string,
     [ ("desiredCapabilities"%string, Caps 1);
       ("login"%string, Suite (suite_of "LoginApp")) ]) ].

Definition suites : list target :=
  [tgt "login" "android"; tgt "login" "ios"; tgt "settings" "android"].

Definition disk : gmap string text :=
  <["/repo/ui-tests/app/login/LoginApp/tiapp.xml"%string := tiapp_xml]>
  (<["/repo/ui-tests/app/settings/LoginApp/tiapp.xml"%string := tiapp_xml]> ∅).

(** The same, with a project named [constructor] for [login] and a project
    [SettingsApp] for [settings]. *)
Definition cfg' : config :=
  [ ("android"%string,
     [ ("desiredCapabilities"%string, Caps 0);
       ("login"%string, Suite (suite_of "constructor"));
       ("settings"%string, Suite (suite_of "SettingsApp")) ]);
    ("ios"%string,
     [ ("desiredCapabilities"%string, Caps 1);
       ("login"%string, Suite (suite_of "constructor")) ]) ].

Definition disk' : gmap string text :=
  <["/repo/ui-tests/app/login/constructor/tiapp.xml"%string := tiapp_xml]>
  (<["/repo/ui-tests/app/settings/SettingsApp/tiapp.xml"%string := tiapp_xml]> ∅).

(** Every process exits, here with code 0. *)
Definition exit0 : nat -> option Z := fun _ => Some 0%Z.

Definition patched_xml : text :=
  txt "<ti:app>
  <sdk-version>7.0.0.GA</sdk-version>
</ti:app>".

End SampleBuild.

(** *** How a run of the pipeline can fail, and what it keeps *)

Module PipelineSpec.
Import Regex Pipeline.

(** A text in ASCII: the bytes of the file are the characters that
    [fs.readFileSync] with [utf8] decodes, and the white space that [trim]
    removes is the one of [is_space]. *)
Definition is_ascii (c : ascii) : bool := nat_of_ascii c <? 128.

Definition plain (content : text) : Prop := forallb is_ascii content = true.

Definition plain_disk (fs : gmap string text) : Prop :=
  map_Forall (fun _ content => plain content) fs.

(** The platform and the name of the target are no properties that an
    object inherits. *)
Definition own_keys (t : target) : Prop :=
  (platform t ∉ object_prototype_keys) /\ (name t ∉ object_prototype_keys).

(** Why the chain is rejected at target [t], in the state [w] of the
    rejection, and with what: the configuration has no such platform, or no
    such suite for the platform, or the entry has no project; or the
    descriptor of the project is not on disk, or it has no [<sdk-version>]
    element. *)
Inductive cause (rt : runtime) (configTests : config) (app : string)
    (t : target) (w : world) : error -> Prop :=
  | no_platform :
      get configTests (platform t) = None ->
      cause rt configTests app t w
        (TypeError ("Cannot read property '" +:+ name t +:+ "' of undefined"))
  | no_suite pc :
      get configTests (platform t) = Some pc ->
      get pc (name t) = None ->
      cause rt configTests app t w
        (TypeError "Cannot read property 'proj' of undefined")
  | no_project pc l :
      get configTests (platform t) = Some pc ->
      get pc (name t) = Some (Caps l) ->
      cause rt configTests app t w (InvalidArgType "path")
  | no_descriptor tiProj :
      project_of configTests t = Some tiProj ->
      files w !! descriptor rt app t tiProj = None ->
      cause rt configTests app t w (ENOENT (descriptor rt app t tiProj))
  | no_sdk_element tiProj content :
      project_of configTests t = Some tiProj ->
      files w !! descriptor rt app t tiProj = Some content ->
      match_g sdkRe (trim content) = None ->
      cause rt configTests app t w
        (TypeError "Cannot read property '0' of null").

(** [m] keeps the property [J] of the state, however it ends. *)
Definition keeps {A} (J : world -> Prop) (m : M A) : Prop :=
  forall w, J w -> J (final (m w)).

(** The files that differ from [fs] are descriptors that the run patched,
    and every patch is on the descriptor of a target of [suites]. *)
Definition writes_inv (rt : runtime) (configTests : config) (app : string)
    (fs : gmap string text) (suites : list target) (w : world) : Prop :=
  (forall path, files w !! path <> fs !! path ->
     exists tiProj, (tiProj, path) ∈ patches (trace w)) /\
  (forall tiProj path, (tiProj, path) ∈ patches (trace w) ->
     exists t, t ∈ suites /\ project_of configTests t = Some tiProj /\
               path = descriptor rt app t tiProj).

(** [done] has not been called. *)
Definition no_done (w : world) : Prop := Done ∉ trace w.

(** The [<sdk-version>] element with the given content. *)
Definition sdk_element (inner : text) : text :=
  txt "<sdk-version>" ++ inner ++ txt "</sdk-version>".

End PipelineSpec.

(** ** The capability matrix builder ([Helper.createTests], lines 339-400)

    Capability objects are mutable and shared, so they live in a store:
    [Caps l] in the configuration is a reference to the object at [l], and
    [Object.assign({}, desiredCap)] allocates a new object. *)

Module Matrix.

Abbreviation obj := (gmap string value).
Abbreviation store := (gmap loc obj).

(** An element of [listOfTests]. *)
Record test : Type := {
  suite : string;
  cap : loc;
}.

Section CreateTests.

Variable rt : runtime.
Variable configTests : config.
Variable app : string.

(** [o.k = v] *)
Definition set_prop (l : loc) (k : string) (v : value) (σ : store) : store :=
  <[l := <[k := v]> (default ∅ (σ !! l))]> σ.

(** [configTests[platform].desiredCapabilities]: the object it refers to,
    [None] for [undefined]. *)
Definition desired_of (tests : platform_config) (σ : store) : option loc :=
  match get tests "desiredCapabilities" with
  | Some (Caps l) => if bool_decide (l ∈ dom σ) then Some l else None
  | _ => None
  end.

(** [tests[targetSuite.name]], when it is a suite. *)
Definition suite_of (tests : platform_config) (n : string) : option suite_def :=
  match get tests n with
  | Some (Suite d) => Some d
  | _ => None
  end.

(** Lines 352-383: the keys set on [desiredCap] for the platform. *)
Definition enrich (targetSuite : target) (configSuite : suite_def)
    (desiredCap : loc) (σ : store) : store :=
  let tiBuildDir :=
    path_join rt [name targetSuite; proj configSuite; "build"%string] in
  if String.eqb (platform targetSuite) "ios" then
    let σ := set_prop desiredCap "platformName" (VStr "iOS") σ in
    let iosApp :=
      path_join rt [tiBuildDir; "iphone"; "build"; "Products";
                    "Debug-iphonesimulator";
                    proj configSuite +:+ ".app"]%string in
    set_prop desiredCap "app" (VStr (getAbsolutePath rt app iosApp)) σ
  else if String.eqb (platform targetSuite) "android" then
    let σ := set_prop desiredCap "platformName" (VStr "Android") σ in
    let σ := set_prop desiredCap "appPackage" (appPackage configSuite) σ in
    let σ := set_prop desiredCap "appActivity" (appActivity configSuite) σ in
    let androidApk :=
      path_join rt [tiBuildDir; "android"; "bin";
                    proj configSuite +:+ ".apk"]%string in
    set_prop desiredCap "app" (VStr (getAbsolutePath rt app androidApk)) σ
  else if String.eqb (platform targetSuite) "windows" then
    set_prop desiredCap "platformName" (VStr "Windows") σ
  else σ.

(** One turn of [configSuite.testDevices.forEach], lines 386-396. *)
Definition add_device (targetSuite : target) (desiredCap : option loc)
    (d : device) (st : list test * store) : list test * store :=
  let '(listOfTests, σ) := st in
  let newDesires := fresh (dom σ) in
  let copy : obj := default ∅ (desiredCap ≫= fun l => σ !! l) in
  let σ := <[newDesires := copy]> σ in
  let σ := set_prop newDesires "deviceName" (deviceName d) σ in
  let σ := set_prop newDesires "platformVersion" (platformVersion d) σ in
  (listOfTests ++ [ {| suite := abs targetSuite; cap := newDesires |} ], σ).

Definition is_known_platform (p : string) : bool :=
  String.eqb p "ios" || String.eqb p "android" || String.eqb p "windows".

(** One turn of [suites.forEach], lines 345-397. *)
Definition add_target (targetSuite : target) (st : list test * store)
  : outcome (list test * store) :=
  let '(listOfTests, σ) := st in
  match get configTests (platform targetSuite) with
  | None =>
      Throw (TypeError "Cannot read property 'desiredCapabilities' of undefined")
  | Some tests =>
      let desiredCap := desired_of tests σ in
      match suite_of tests (name targetSuite) with
      | None => Throw (TypeError "Cannot read property 'proj' of undefined")
      | Some configSuite =>
          match desiredCap with
          | None =>
              if is_known_platform (platform targetSuite) then
                Throw (TypeError "Cannot set property 'platformName' of undefined")
              else
                Return (fold_left (fun st d => add_device targetSuite None d st)
                          (testDevices configSuite) (listOfTests, σ))
          | Some l =>
              let σ := enrich targetSuite configSuite l σ in
              Return (fold_left (fun st d => add_device targetSuite (Some l) d st)
                        (testDevices configSuite) (listOfTests, σ))
          end
      end
  end.

Fixpoint for_each (suites : list target) (st : list test * store)
  : outcome (list test * store) :=
  match suites with
  | [] => Return st
  | targetSuite :: suites' =>
      match add_target targetSuite st with
      | Return st' => for_each suites' st'
      | Exit c m => Exit c m
      | Throw e => Throw e
      end
  end.

(** The list returned and the store after the call. *)
Definition createTests (suites : list target) (σ : store)
  : outcome (list test * store) :=
  for_each suites ([], σ).

End CreateTests.

(** *** Reading of the claims *)

(** The keys that [createTests] sets on a base object. *)
Definition platform_keys : list string :=
  ["platformName"; "app"; "appPackage"; "appActivity"]%string.

(** The base capability objects of the configuration exist. *)
Definition bases_allocated (configTests : config) (σ : store) : Prop :=
  forall p tests k l,
    get configTests p = Some tests -> get tests k = Some (Caps l) ->
    l ∈ dom σ.

(** [l] is a base capability object of the configuration. *)
Definition is_base (configTests : config) (l : loc) : Prop :=
  exists p tests k,
    get configTests p = Some tests /\ get tests k = Some (Caps l).

(** [o[k]] for the object at [l]. *)
Definition prop (σ : store) (l : loc) (k : string) : option value :=
  σ !! l ≫= fun o => o !! k.

(** The configuration has the platform of the target, with its base object,
    and the suite of the target. *)
Definition resolvable (configTests : config) (σ : store) (t : target) : Prop :=
  exists tests l d,
    get configTests (platform t) = Some tests /\
    get tests "desiredCapabilities" = Some (Caps l) /\ l ∈ dom σ /\
    suite_of tests (name t) = Some d.

(** The suite of a target and its devices, when the configuration has it. *)
Definition devices_of (configTests : config) (t : target) : option (list device) :=
  tests ← get configTests (platform t);
  testDevices <$> suite_of tests (name t).

(** The pair [p] is the one of device [d] of target [t] in store [σ]. *)
Definition pair_of (σ : store) (t : target) (d : device) (p : test) : Prop :=
  suite p = abs t /\
  exists o, σ !! cap p = Some o /\
            o !! "deviceName"%string = Some (deviceName d) /\
            o !! "platformVersion"%string = Some (platformVersion d).

End Matrix.

Module SampleMatrix.
Import Matrix.

(** The base object of Android in the sample configuration. *)
Definition base : obj := {[ "automationName"%string := VStr "Appium" ]}.

Definition σ0 : store := {[ 0 := base ]}.

Definition targets : list target :=
  [ {| abs := "/repo/ui-tests/app/login/android.js";
       name := "login"; platform := "android" |} ].

End SampleMatrix.

(** *** What a pair of the matrix holds *)

Module MatrixSpec.
Import Matrix.

(** The keys that a device sets on its copy. *)
Definition device_keys : list string := ["deviceName"; "platformVersion"]%string.

(** The capabilities of the platform of a target: the platform name, and
    for iOS and Android the built app under the [build] directory of the
    project, for Android also the package and the activity of the suite. *)
Definition platform_caps (rt : runtime) (app : string) (t : target)
    (d : suite_def) : list (string * value) :=
  let build := path_join rt [name t; proj d; "build"%string] in
  if String.eqb (platform t) "ios" then
    [ ("platformName", VStr "iOS");
      ("app", VStr (getAbsolutePath rt app
                      (path_join rt [build; "iphone"; "build"; "Products";
                                     "Debug-iphonesimulator";
                                     proj d +:+ ".app"]))) ]%string
  else if String.eqb (platform t) "android" then
    [ ("platformName", VStr "Android");
      ("appPackage", appPackage d);
      ("appActivity", appActivity d);
      ("app", VStr (getAbsolutePath rt app
                      (path_join rt [build; "android"; "bin";
                                     proj d +:+ ".apk"]))) ]%string
  else if String.eqb (platform t) "windows" then
    [ ("platformName"%string, VStr "Windows") ]
  else [].

(** The base object and the suite of a target. *)
Definition base_of (configTests : config) (t : target)
  : option (loc * suite_def) :=
  tests ← get configTests (platform t);
  match get tests "desiredCapabilities", suite_of tests (name t) with
  | Some (Caps l), Some d => Some (l, d)
  | _, _ => None
  end.

(** The entry under [k] of the base object [l] once target [t] has been
    handled, [v] being the entry before: the capability of the platform of
    [t], when [l] is the base object of [t] and the platform sets [k]. *)
Definition written (rt : runtime) (configTests : config) (app : string)
    (t : target) (l : loc) (k : string) (v : option value) : option value :=
  match base_of configTests t with
  | Some (l', d) =>
      if bool_decide (l' = l) then
        match get (platform_caps rt app t d) k with
        | Some x => Some x
        | None => v
        end
      else v
  | None => v
  end.

(** The same after the targets [ts], in order. *)
Definition base_value (rt : runtime) (configTests : config) (app : string)
    (ts : list target) (l : loc) (k : string) (v : option value)
  : option value :=
  fold_left (fun v t => written rt configTests app t l k v) ts v.

(** The entry under [k] of the object of a pair: of the device under its
    two keys, of the base object under the others. *)
Definition pair_value (dev : device) (k : string) (base : option value)
  : option value :=
  if String.eqb k "deviceName" then Some (deviceName dev)
  else if String.eqb k "platformVersion" then Some (platformVersion dev)
  else base.

End MatrixSpec.

(** Android and iOS with one base object for both. *)
Module SampleShared.

Definition ios_login : suite_def :=
  {| proj := "LoginApp";
     appPackage := VUndefined;
     appActivity := VUndefined;
     testDevices :=
       [ {| deviceName := VStr "iPhone 7"; platformVersion := VStr "10.3" |} ] |}.

Definition cfg : config :=
  [ ("android"%string,
     [ ("desiredCapabilities"%string, Caps 0);
       ("login"%string, Suite Sample.login) ]);
    ("ios"%string,
     [ ("desiredCapabilities"%string, Caps 0);
       ("login"%string, Suite ios_login) ]) ].

Definition targets : list target :=
  [ {| abs := "/repo/ui-tests/app/login/android.js";
       name := "login"; platform := "android" |};
    {| abs := "/repo/ui-tests/app/login/ios.js";
       name := "login"; platform := "ios" |} ].

End SampleShared.

(** ** The server handle ([appiumProc], [Helper.runAppium], [Helper.killAppium])

    The module keeps two variables across calls: [playerPid] (line 11) and
    [appiumProc] (line 12), [null] until [runAppium] stores the process it
    spawns. *)

Module Appium.

(** A [ChildProcess]. *)
Record child : Type := { pid : Z }.

Record module_state : Type := {
  playerPid : Z;
  appiumProc : option child;
}.

(** [let playerPid = -1; let appiumProc = null;] *)
Definition init : module_state :=
  {| playerPid := (-1)%Z; appiumProc := None |}.

Inductive effect : Type :=
  | Log (msg : string)
  | SpawnAppium (cmd : string) (flags : list string)
  | Taskkill (pid : Z)
  | Kill (pid : Z).

(** [runAppium(server, done)], lines 121-139: the process is spawned and
    stored; [spawned] is the object that [spawn] returns. *)
Definition runAppium (rt : runtime) (spawned : child) (m : module_state)
  : module_state * list effect :=
  let appiumExe :=
    path_join rt [dirname rt; ".."; "node_modules"; ".bin"; "appium"]%string in
  let appiumExe := if win32 rt then appiumExe +:+ ".cmd" else appiumExe in
  let '(cmd, flags) := spawnConvert rt appiumExe [] in
  ({| playerPid := playerPid m; appiumProc := Some spawned |},
   [SpawnAppium cmd flags]).

(** [killAppium()], lines 179-186: what it does before it returns or
    throws. *)
Definition killAppium (rt : runtime) (m : module_state)
  : list effect * outcome unit :=
  if win32 rt then
    match appiumProc m with
    | None =>
        ([Log "Appium server shutting down ..."],
         Throw (TypeError "Cannot read property 'pid' of null"))
    | Some p =>
        ([Log "Appium server shutting down ..."; Taskkill (pid p)], Return tt)
    end
  else
    match appiumProc m with
    | None => ([], Throw (TypeError "Cannot read property 'kill' of null"))
    | Some p => ([Kill (pid p)], Return tt)
    end.

(** The calls of the module that touch its variables: [runAppium] writes
    [appiumProc], [launchGeny] writes [playerPid], the rest write nothing. *)
Inductive call : Type :=
  | RunAppium (spawned : child)
  | KillAppium
  | LaunchGeny (player : Z)
  | OtherCall.

Definition after_call (rt : runtime) (m : module_state) (c : call)
  : module_state :=
  match c with
  | RunAppium p => (runAppium rt p m).1
  | LaunchGeny p => {| playerPid := p; appiumProc := appiumProc m |}
  | KillAppium | OtherCall => m
  end.

Definition after_calls (rt : runtime) (cs : list call) : module_state :=
  fold_left (after_call rt) cs init.

Definition is_run (c : call) : bool :=
  match c with
  | RunAppium _ => true
  | _ => false
  end.

Definition throws {A} (o : outcome A) : bool :=
  match o with
  | Throw (TypeError _) => true
  | _ => false
  end.

End Appium.

(** ** Readiness of the server and presence of the emulator

    [runAppium] (lines 141-158) and [launchGeny] (lines 425-462) build a
    regular expression around a string of the caller, which is spliced into
    the source of the expression as it is.  [Pattern] is the fragment of
    sources that hold no syntax character but the dot: every character
    stands for itself and a dot for any character but a line terminator. *)

Module Pattern.
Import Regex.

Inductive pitem : Type :=
  | PChr (c : ascii)
  | PAny.

(** The syntax characters of a pattern. *)
Definition syntax_chars : text := txt "^$\.*+?()[]{}|".

(** The items that a spliced string stands for; [None] outside the
    fragment. *)
Fixpoint of_source (s : text) : option (list pitem) :=
  match s with
  | [] => Some []
  | c :: s' =>
      if Ascii.eqb c "." then (fun p => PAny :: p) <$> of_source s'
      else if bool_decide (c ∈ syntax_chars) then None
      else (fun p => PChr c :: p) <$> of_source s'
  end.

Definition accepts (i : pitem) (c : ascii) : bool :=
  match i with
  | PChr x => Ascii.eqb c x
  | PAny => is_dot c
  end.

(** The items at the start of [s]; what is left of [s]. *)
Fixpoint match_items (p : list pitem) (s : text) : option text :=
  match p, s with
  | [], _ => Some s
  | i :: p', c :: s' => if accepts i c then match_items p' s' else None
  | _ :: _, [] => None
  end.

(** A literal text. *)
Definition chars (s : text) : list pitem := map PChr s.

(** [test] without [^]: [f] holds from some position on. *)
Fixpoint anywhere (f : text -> bool) (s : text) : bool :=
  f s ||
  match s with
  | [] => false
  | _ :: s' => anywhere f s'
  end.

Definition is_line_terminator (c : ascii) : bool :=
  Nat.eqb (nat_of_ascii c) 10 || Nat.eqb (nat_of_ascii c) 13.

(** [test] with [^] and the flag [m]: [f] holds from the start of the text
    or from the start of a line.  [start] tells whether [s] is at one. *)
Fixpoint at_line_start (f : text -> bool) (start : bool) (s : text) : bool :=
  (start && f s) ||
  match s with
  | [] => false
  | c :: s' => at_line_start f (is_line_terminator c) s'
  end.

(** The start of the text or of a line. *)
Definition line_start (pre : text) : Prop :=
  pre = [] \/ exists pre' c, pre = pre' ++ [c] /\ is_line_terminator c = true.

(** [m] is a word of the items. *)
Definition word (p : list pitem) (m : text) : Prop :=
  Forall2 (fun i c => accepts i c = true) p m.

End Pattern.

Module Service.
Import Pattern.

(** The [server] property of the test configuration. *)
Record server : Type := {
  host : string;
  port : N;
}.

(** [String(server.port)]: the decimal numeral (of a port, which is below
    the 10^21 from which JavaScript prints an exponent). *)
Definition port_text (s : server) : text := txt (pretty (port s)).

(** [new RegExp(`started on (0\\.0\\.0\\.0|${server.host})\\:${server.port}$`, 'g').test(line)] *)
Definition isRunning (s : server) (line : text) : option bool :=
  hostp ← of_source (txt (host s));
  let tail := chars (txt ":") ++ chars (port_text s) in
  let ends p u := bool_decide (match_items p u = Some []) in
  Some (anywhere
          (fun u =>
             match match_items (chars (txt "started on ")) u with
             | Some u' =>
                 ends (chars (txt "0.0.0.0") ++ tail) u' || ends (hostp ++ tail) u'
             | None => false
             end)
          line).

Inductive reaction : Type :=
  | LogInfo (msg : string)
  | CallDone.

(** The listener of [appiumProc.stdout], lines 141-158. *)
Definition on_stdout (s : server) (output : text) : option (list reaction) :=
  let line := trim output in
  running ← isRunning s line;
  let isShutDown :=
    bool_decide (line = txt "[Appium] Received SIGTERM - shutting down") in
  Some ((if running : bool
         then [LogInfo ("Local Appium server started on " +:+ host s +:+ ":"
                        +:+ pretty (port s)); CallDone]
         else []) ++
        (if isShutDown then [LogInfo "Appium server shutting down ..."] else [])).

(** The double quote. *)
Definition quote : ascii := ascii_of_nat 34.

(** [new RegExp(`^"${genyDevice}"`, 'm').test(output.trim())], lines
    437-438; [output] is what [VBoxManage list vms] printed. *)
Definition deviceExist (genyDevice : string) (output : text) : option bool :=
  devp ← of_source (txt genyDevice);
  Some (at_line_start
          (fun u => bool_decide
                      (is_Some (match_items (PChr quote :: devp ++ [PChr quote]) u)))
          true (trim output)).

Inductive launch : Type :=
  | PlayerSpawned (player : string) (flags : list string)
  | Stopped (message : string).

(** The [exit] listener of [VBoxManage] and the [then] after it, lines
    436-462: the promise is rejected, and [stop] called with the error, when
    the device is not listed; else the player is spawned and its pid kept in
    [playerPid].  [pid] is the pid of the player process. *)
Definition launchGeny_player (rt : runtime) (genyDevice : string)
    (output : text) (pid : Z) (m : Appium.module_state)
  : option (Appium.module_state * launch) :=
  found ← deviceExist genyDevice output;
  if found : bool then
    let player :=
      if win32 rt
      then "C:\Program Files\Genymobile\Genymotion\player.exe"%string
      else "/Applications/Genymotion.app/Contents/MacOS/player.app/Contents/MacOS/player"%string in
    Some ({| Appium.playerPid := pid;
             Appium.appiumProc := Appium.appiumProc m |},
          PlayerSpawned player ["--vm-name"%string; genyDevice])
  else
    Some (m, Stopped (String quote (genyDevice +:+ String quote
                        " doesn't exist; make sure to add it in genymotion.")))
.

End Service.

(** ** [Helper.quitGeny] (lines 547-567) *)

Module Quit.
Import Appium.

Inductive effect : Type :=
  | WriteFile (path : string) (content : string)
  | Spawn (cmd : string) (flags : list string).

Definition q : string := String Service.quote EmptyString.
Definition nl : string := String Geny.newline EmptyString.

(** The template of lines 552-555, [${playerPid}] filled in. *)
Definition vbScript (playerPid : Z) : string :=
  nl +:+ "Set WshShell = WScript.CreateObject(" +:+ q +:+ "WScript.Shell" +:+ q
     +:+ ")" +:+
  nl +:+ "WshShell.AppActivate " +:+ pretty playerPid +:+
  nl +:+ "WshShell.SendKeys " +:+ q +:+ "%{F4}" +:+ q.

(** What [quitGeny] writes and spawns; [done] is called when the spawned
    process exits. *)
Definition quitGeny (rt : runtime) (m : module_state) : list effect :=
  if win32 rt then
    let vbFile := path_join rt [dirname rt; "kill_geny.vbs"%string] in
    let '(cmd, flags) := spawnConvert rt vbFile [] in
    [WriteFile vbFile (vbScript (playerPid m)); Spawn cmd flags]
  else
    [Spawn "osascript" ["-e"%string; "quit app " +:+ q +:+ "player" +:+ q]].

Definition is_launch (c : call) : bool :=
  match c with
  | LaunchGeny _ => true
  | _ => false
  end.

End Quit.
(** * Properties

    ** The matcher against the language of a pattern *)

Module RegexFacts.
Import Regex RegexLang.

Lemma greedy_sound p k s t (P : text -> Prop) :
  (forall s t, k s = Some t -> exists m, s = m ++ t /\ P m) ->
  greedy p k s = Some t ->
  exists d m, s = d ++ m ++ t /\ forallb p d = true /\ P m.
Proof.
  intros Hk. induction s as [|x s IH]; simpl; intros H.
  - destruct (Hk _ _ H) as (m & -> & Hm). exists [], m. auto.
  - destruct (p x) eqn:Hp.
    + destruct (greedy p k s) as [t'|] eqn:Hg.
      * injection H as ->. destruct (IH eq_refl) as (d & m & -> & Hd & Hm).
        exists (x :: d), m. simpl. rewrite Hp, Hd. auto.
      * destruct (Hk _ _ H) as (m & E & Hm). exists [], m. auto.
    + destruct (Hk _ _ H) as (m & E & Hm). exists [], m. auto.
Qed.

Lemma match_here_sound r : forall s t,
  match_here r s = Some t -> exists m, s = m ++ t /\ Matches r m.
Proof.
  induction r as [|[c|p] r IH]; simpl; intros s t H.
  - injection H as ->. exists []. split; [done | constructor].
  - destruct s as [|x s]; [done|].
    destruct (Ascii.eqb x c) eqn:E; [|done].
    apply Ascii.eqb_eq in E as ->.
    destruct (IH _ _ H) as (m & -> & Hm).
    exists (c :: m). split; [done | by constructor].
  - destruct s as [|x s]; [done|].
    destruct (p x) eqn:Hp; [|done].
    destruct (greedy_sound p _ s t (Matches r) IH H) as (d & m & -> & Hd & Hm).
    exists (x :: d ++ m). split; [simpl; by rewrite app_assoc | by constructor].
Qed.

Lemma match_here_complete r m :
  Matches r m -> forall t, determ r t = true -> match_here r (m ++ t) = Some t.
Proof.
  induction 1 as [|c r m _ IH|p r x d m Hx Hd Hm IH]; intros t Hdet.
  - done.
  - simpl. rewrite Ascii.eqb_refl. by apply IH.
  - simpl. rewrite Hx. rewrite <- app_assoc.
    induction d as [|y d IHd]; simpl in *.
    + destruct r as [|[c|q] r]; [| |done].
      * inversion Hm; subst. simpl.
        destruct t as [|z t]; [done|]. simpl.
        apply negb_true_iff in Hdet. by rewrite Hdet.
      * apply andb_true_iff in Hdet as [Hc Hdet]. apply negb_true_iff in Hc.
        inversion Hm; subst. cbn [app greedy]. rewrite Hc.
        apply (IH t). exact Hdet.
    + apply andb_true_iff in Hd as [Hy Hd]. rewrite Hy, (IHd Hd). done.
Qed.

Lemma Matches_app r1 r2 m :
  Matches (r1 ++ r2) m <->
  exists m1 m2, m = m1 ++ m2 /\ Matches r1 m1 /\ Matches r2 m2.
Proof.
  split.
  - revert m. induction r1 as [|i r1 IH]; simpl; intros m H.
    + exists [], m. repeat split; [constructor | done].
    + inversion H as [|c r m' Hm|p r x d m' Hx Hd Hm]; subst;
        destruct (IH _ Hm) as (m1 & m2 & -> & H1 & H2).
      * exists (c :: m1), m2. repeat split; [by constructor | done].
      * exists (x :: d ++ m1), m2. simpl. rewrite <- app_assoc.
        repeat split; [by constructor | done].
  - intros (m1 & m2 & -> & H1 & H2).
    induction H1; simpl; [done | by constructor |].
    rewrite <- app_assoc. by constructor.
Qed.

Lemma Matches_lit w m : Matches (lit w) m <-> m = txt w.
Proof.
  unfold lit. generalize (txt w) as l. intros l. revert m.
  induction l as [|c l IH]; simpl; intros m; split; intros H.
  - by inversion H.
  - subst. constructor.
  - inversion H; subst. f_equal. by apply IH.
  - subst. constructor. by apply IH.
Qed.

Lemma Matches_many1 p m :
  Matches [Many1 p] m <-> m <> [] /\ forallb p m = true.
Proof.
  split.
  - intros H. inversion H as [| |? ? x d m' Hx Hd Hm]; subst.
    inversion Hm; subst. rewrite app_nil_r. simpl. by rewrite Hx, Hd.
  - intros [Hne Hall]. destruct m as [|x d]; [done|].
    simpl in Hall. apply andb_true_iff in Hall as [Hx Hd].
    rewrite <- (app_nil_r d). constructor; [done | done | constructor].
Qed.

(** Every character of a word is accepted by some item of the pattern. *)
Lemma Matches_chars r m :
  Matches r m -> forall c, c ∈ m -> existsb (accepts c) r = true.
Proof.
  induction 1 as [|c' r m _ IH|p r x d m Hx Hd _ IH]; intros c Hc.
  - by apply elem_of_nil in Hc.
  - simpl. apply elem_of_cons in Hc as [->|Hc].
    + by rewrite Ascii.eqb_refl.
    + rewrite (IH _ Hc). apply orb_true_r.
  - simpl. apply elem_of_cons in Hc as [->|Hc]; [by rewrite Hx|].
    apply elem_of_app in Hc as [Hc|Hc].
    + rewrite forallb_forall in Hd.
      rewrite (Hd c); [done | by apply list_elem_of_In].
    + rewrite (IH _ Hc). apply orb_true_r.
Qed.

Lemma Matches_nonempty i r m : Matches (i :: r) m -> m <> [].
Proof. by inversion 1. Qed.

Lemma match_here_nil i r : match_here (i :: r) [] = None.
Proof. by destruct i. Qed.

(** A word of a closed pattern is matched exactly, whatever follows it. *)
Lemma match_here_word r m t :
  closed r -> Matches r m -> match_here r (m ++ t) = Some t.
Proof. intros Hc Hm. by apply match_here_complete. Qed.


(** *** Facts on the global search *)

Lemma scan_sound r : forall s k l, l ∈ scan r k s -> Matches r l.
Proof.
  induction s as [|x s IH]; intros k l; simpl.
  - destruct k; [|by intros ?%elem_of_nil].
    destruct (match_here r []) as [t|] eqn:E; [|by intros ?%elem_of_nil].
    intros ->%list_elem_of_singleton.
    apply match_here_sound in E as (m & E & Hm).
    symmetry in E. apply app_eq_nil in E as [-> _]. done.
  - destruct k as [|k]; [|by apply IH].
    destruct (match_here r (x :: s)) as [t|] eqn:E; [|by apply IH].
    intros [->|H]%elem_of_cons; [|by apply IH in H].
    apply match_here_sound in E as (m & E & Hm).
    assert (length (x :: s) = length m + length t) as Hl
      by (rewrite E; apply length_app).
    simpl in Hl. rewrite E.
    replace (S (length s) - length t) with (length m) by lia.
    by rewrite take_app_length.
Qed.

Lemma scan_skip r a b : scan r (length a) (a ++ b) = scan r 0 b.
Proof. induction a as [|x a IH]; simpl; [by destruct b | done]. Qed.

(** Nothing is found in a text that lacks a character every word has. *)
Lemma scan_lacking r c :
  (forall m, Matches r m -> c ∈ m) ->
  forall s k, c ∉ s -> scan r k s = [].
Proof.
  intros Hc. induction s as [|x s IH]; intros k Hs; simpl.
  - destruct k; [|done].
    destruct (match_here r []) as [t|] eqn:E; [|done].
    apply match_here_sound in E as (m & E & Hm).
    symmetry in E. apply app_eq_nil in E as [-> _].
    by apply Hc, elem_of_nil in Hm.
  - apply not_elem_of_cons in Hs as [Hx Hs].
    destruct k as [|k]; [|by apply IH].
    destruct (match_here r (x :: s)) as [t|] eqn:E; [|by apply IH].
    apply match_here_sound in E as (m & E & Hm).
    apply Hc in Hm. exfalso.
    assert (c ∈ x :: s) as [->|?]%elem_of_cons by (rewrite E; set_solver);
      done.
Qed.

(** A word of the pattern at the start of the text is the first match,
    and the search resumes right after it. *)
Lemma scan_word r l t :
  determ r t = true -> Matches r l -> l <> [] ->
  scan r 0 (l ++ t) = l :: scan r 0 t.
Proof.
  intros Hc Hm Hne. destruct l as [|x l]; [done|].
  change ((x :: l) ++ t) with (x :: (l ++ t)).
  cbn [scan]. change (x :: (l ++ t)) with ((x :: l) ++ t).
  rewrite (match_here_complete _ _ Hm t Hc).
  rewrite length_app, Nat.add_sub, take_app_length.
  f_equal. simpl. rewrite Nat.sub_0_r. apply scan_skip.
Qed.

Lemma match_here_within r B u :
  closed r -> within r B ->
  match_here r (u ++ B) = (fun t => t ++ B) <$> match_here r u.
Proof.
  intros Hc Hw. destruct (match_here r u) as [t|] eqn:E; simpl.
  - apply match_here_sound in E as (m & -> & Hm).
    rewrite <- app_assoc. by apply match_here_word.
  - destruct (match_here r (u ++ B)) as [t'|] eqn:E'; [|done].
    apply match_here_sound in E' as (m & E' & Hm).
    destruct (Hw _ _ _ Hm E') as (w & ->).
    by rewrite (match_here_word _ _ w Hc Hm) in E.
Qed.

Lemma scan_app r B :
  closed r -> r <> [] -> within r B ->
  forall a k, k <= length a -> scan r k (a ++ B) = scan r k a ++ scan r 0 B.
Proof.
  intros Hc Hne Hw. induction a as [|x a IH]; intros k Hk.
  - assert (k = 0) as -> by (simpl in Hk; lia).
    simpl. destruct r; [done|]. by rewrite match_here_nil.
  - destruct k as [|k]; [|simpl in *; apply IH; lia].
    change ((x :: a) ++ B) with (x :: (a ++ B)). cbn [scan].
    change (x :: (a ++ B)) with ((x :: a) ++ B).
    rewrite (match_here_within _ _ _ Hc Hw).
    destruct (match_here r (x :: a)) as [t|] eqn:E; simpl.
    + apply match_here_sound in E as (m & E & Hm).
      assert (length (x :: a) = length m + length t) as Hl
        by (rewrite E; apply length_app).
      simpl in Hl. rewrite !length_app.
      replace (S (length a + length B) - (length t + length B))
        with (length m) by lia.
      replace (S (length a) - length t) with (length m) by lia.
      rewrite IH by lia. f_equal.
      change (x :: a ++ B) with ((x :: a) ++ B). rewrite E, <- app_assoc.
      by rewrite !take_app_length.
    + apply IH. lia.
Qed.

(** A character that starts no word is passed over. *)
Lemma scan_pass r x s :
  match_here r (x :: s) = None -> scan r 0 (x :: s) = scan r 0 s.
Proof. intros H. simpl. by rewrite H. Qed.

Lemma test_intro r a b t : match_here r b = Some t -> test r (a ++ b) = true.
Proof.
  intros H. induction a as [|x a IH]; simpl.
  - destruct b; simpl; by rewrite H.
  - by destruct (match_here r (x :: a ++ b)).
Qed.

End RegexFacts.


(** ** The readiness watch *)

Module GenyFacts.
Import Regex RegexLang RegexFacts Geny.

Lemma digit_char c :
  is_digit c = true ->
  is_dot c = true /\ is_space c = false /\ c <> "-"%char /\ c <> " "%char.
Proof.
  destruct c as [[] [] [] [] [] [] [] []]; vm_compute; intros H;
    try discriminate H; repeat split; discriminate.
Qed.

Lemma space_char c : is_space c = true -> is_digit c = false.
Proof.
  destruct c as [[] [] [] [] [] [] [] []]; vm_compute; intros H;
    try discriminate H; reflexivity.
Qed.

Lemma digits_lack (c : ascii) d :
  is_digit c = false -> forallb is_digit d = true -> c ∉ d.
Proof.
  intros Hc Hd Hin. rewrite forallb_forall in Hd.
  apply list_elem_of_In, Hd in Hin. congruence.
Qed.

Lemma bootRe_closed : closed bootRe.
Proof. intros t. reflexivity. Qed.

Lemma bootRe_parts :
  bootRe =
  tsRe ++ lit " [Genymotion Player:" ++ digits ++ lit "] [debug] " ++
  lit "Device booted in " ++ digits ++ lit " ms".
Proof. reflexivity. Qed.

(** The shape of a boot line. *)
Lemma boot_line_shape l :
  Matches bootRe l ->
  exists ts pid ms,
    l = ts ++ txt " [Genymotion Player:" ++ pid ++ txt "] [debug] " ++
        txt "Device booted in " ++ ms ++ txt " ms" /\
    Matches tsRe ts /\
    pid <> [] /\ forallb is_digit pid = true /\
    ms <> [] /\ forallb is_digit ms = true.
Proof.
  rewrite bootRe_parts. intros H.
  apply Matches_app in H as (ts & m1 & -> & Hts & H1).
  apply Matches_app in H1 as (? & m2 & -> & ->%Matches_lit & H2).
  apply Matches_app in H2 as (pid & m3 & -> & [? ?]%Matches_many1 & H3).
  apply Matches_app in H3 as (? & m4 & -> & ->%Matches_lit & H4).
  apply Matches_app in H4 as (? & m5 & -> & ->%Matches_lit & H5).
  apply Matches_app in H5 as (ms & ? & -> & [? ?]%Matches_many1 & ->%Matches_lit).
  exists ts, pid, ms. done.
Qed.



Lemma boot_line_last l :
  Matches bootRe l -> exists l', l = l' ++ ["s"%char].
Proof.
  intros (ts & pid & ms & -> & _)%boot_line_shape.
  exists (ts ++ txt " [Genymotion Player:" ++ pid ++ txt "] [debug] " ++
          txt "Device booted in " ++ ms ++ txt " m").
  change (txt " ms") with (txt " m" ++ ["s"%char]).
  by rewrite <- !app_assoc.
Qed.


Lemma timestamp_no_blank ts c :
  Matches tsRe ts -> c ∈ ts -> c <> " "%char.
Proof.
  intros H Hin ->. by apply (Matches_chars _ _ H) in Hin.
Qed.

Lemma timestamp_has_dash ts : Matches tsRe ts -> "-"%char ∈ ts.
Proof.
  intros H. inversion H as [| |? ? x d m Hx Hd Hm]; subst.
  inversion Hm; subst. set_solver.
Qed.

Lemma timestamp_field_app ts rest :
  (forall c, c ∈ ts -> c <> " "%char) ->
  timestamp_field (ts ++ " "%char :: rest) = ts.
Proof.
  induction ts as [|c ts IH]; intros H; simpl; [done|].
  destruct (Ascii.eqb c " ") eqn:E.
  - apply Ascii.eqb_eq in E. exfalso. apply (H c); [set_solver | done].
  - f_equal. apply IH. intros c' Hc'. apply H. set_solver.
Qed.

(** On a boot line the timestamp pattern finds the first field and nothing
    else, so [Date.parse] is given exactly that field. *)
Lemma boot_line_timestamp l :
  Matches bootRe l -> match_g tsRe l = Some [timestamp_field l].
Proof.
  intros (ts & pid & ms & -> & Hts & _ & Hpid & _ & Hms)%boot_line_shape.
  change (txt " [Genymotion Player:" ++ ?x)
    with (" "%char :: (txt "[Genymotion Player:" ++ x)).
  rewrite timestamp_field_app by (intros c; by apply timestamp_no_blank).
  unfold match_g, match_all.
  rewrite scan_word; [| done | done | by inversion Hts].
  rewrite (scan_lacking tsRe "-"%char timestamp_has_dash); [done|].
  rewrite !elem_of_cons, !elem_of_app.
  pose proof (digits_lack "-"%char pid eq_refl Hpid).
  pose proof (digits_lack "-"%char ms eq_refl Hms).
  intros [?|[?|[?|[?|[?|[?|?]]]]]]; try done.
  all: match goal with
       | H : _ ∈ txt _ |- _ =>
           apply list_elem_of_In in H; vm_compute in H; intuition discriminate
       end.
Qed.

(** The sub-pattern holds on every boot line. *)
Lemma boot_line_sub l : Matches bootRe l -> test subRe l = true.
Proof.
  intros (ts & pid & ms & -> & _ & _ & _ & Hne & Hms)%boot_line_shape.
  rewrite !(app_assoc _ _ (txt "Device booted in " ++ _)).
  apply test_intro with (t := []).
  rewrite <- (app_nil_r (_ ++ _ ++ _)).
  apply match_here_complete; [|done].
  apply Matches_app. exists (txt "Device booted in "), (ms ++ txt " ms").
  split; [done|]. split; [by apply Matches_lit|].
  apply Matches_many1. split; [by destruct ms|].
  rewrite forallb_app. apply andb_true_iff. split; [|done].
  rewrite forallb_forall in *. intros c Hc. by apply digit_char, Hms.
Qed.

Lemma match_g_Some r s ms :
  match_g r s = Some ms -> ms = match_all r s /\ ms <> [].
Proof.
  unfold match_g. destruct (match_all r s); [done|]. by intros [= <-].
Qed.

Lemma last_boot_line_word output line :
  last_boot_line output = Some line -> Matches bootRe line.
Proof.
  unfold last_boot_line.
  destruct (match_g bootRe (trim output)) as [ms|] eqn:E; [|done]. simpl.
  apply match_g_Some in E as [-> _]. intros H.
  apply (scan_sound bootRe (trim output) 0).
  apply last_Some in H as (l' & E). change (line ∈ match_all bootRe (trim output)).
  rewrite E. set_solver.
Qed.

(** The handler, in terms of the last boot line and its first field. *)
Lemma on_data_last Date_parse now output w :
  on_data Date_parse now output w =
  match last_boot_line output with
  | None => w
  | Some line =>
      match Date_parse (timestamp_field line) with
      | Some t =>
          if (now - t <=? 10000)%Z
          then {| watching := false; resolved := true |} else w
      | None => w
      end
  end.
Proof.
  unfold on_data. pose proof (last_boot_line_word output) as Hw.
  unfold last_boot_line in *.
  destruct (match_g bootRe (trim output)) as [ms|] eqn:E; [|done].
  simpl in *. apply match_g_Some in E as [_ Hne].
  destruct (last ms) as [line|] eqn:El.
  2:{ apply last_None in El. done. }
  specialize (Hw line eq_refl). simpl.
  rewrite (boot_line_timestamp _ Hw), (boot_line_sub _ Hw). simpl.
  destruct (Date_parse (timestamp_field line)) as [t|]; simpl; [|done].
  by rewrite andb_true_r.
Qed.

(** *** Which line decides *)

Lemma match_here_first p r c s :
  p c = false -> match_here (Many1 p :: r) (c :: s) = None.
Proof. intros H. simpl. by rewrite H. Qed.

Lemma bootRe_first : bootRe = Many1 is_digit :: tail bootRe.
Proof. reflexivity. Qed.

Lemma boot_not_at c s : is_digit c = false -> match_here bootRe (c :: s) = None.
Proof. rewrite bootRe_first. apply match_here_first. Qed.

Lemma trim_start_split s :
  exists ws, s = ws ++ trim_start s /\ forallb is_space ws = true.
Proof.
  induction s as [|c s (ws & E & Hws)]; simpl; [by exists []|].
  destruct (is_space c) eqn:Hc.
  - exists (c :: ws). simpl. rewrite Hc, Hws. split; [by f_equal | done].
  - by exists [].
Qed.

Lemma trim_end_split s :
  exists ws, s = trim_end s ++ ws /\ forallb is_space ws = true.
Proof.
  destruct (trim_start_split (rev s)) as (ws & E & Hws).
  exists (rev ws). split.
  - unfold trim_end. rewrite <- rev_app_distr, <- E. by rewrite rev_involutive.
  - rewrite forallb_forall in *. intros c Hc. apply Hws. by apply in_rev.
Qed.

Lemma scan_trim_start s : scan bootRe 0 (trim_start s) = scan bootRe 0 s.
Proof.
  induction s as [|c s IH]; [done|].
  cbn [trim_start]. destruct (is_space c) eqn:Hc; [|done].
  rewrite scan_pass; [done|]. by apply boot_not_at, space_char.
Qed.

Lemma scan_blanks ws : forallb is_space ws = true -> scan bootRe 0 ws = [].
Proof.
  intros H. apply (scan_lacking bootRe "s"%char).
  - intros m (l' & ->)%boot_line_last. set_solver.
  - intros Hin. rewrite forallb_forall in H.
    by apply list_elem_of_In, H in Hin.
Qed.

Lemma bootRe_nonempty : bootRe <> [].
Proof. done. Qed.

Lemma snoc_in_suffix {A} (u l l' : list A) c :
  u ++ l = l' ++ [c] -> l <> [] -> c ∈ l.
Proof.
  intros E Hne. assert (last (u ++ l) = Some c) as H by (rewrite E; apply last_snoc).
  destruct l as [|x l] using rev_ind; [done|].
  rewrite app_assoc, last_snoc in H. injection H as ->. set_solver.
Qed.

Lemma within_blanks ws : forallb is_space ws = true -> within bootRe ws.
Proof.
  intros Hws u m t Hm E.
  apply List.app_eq_app in E as (l & [[-> _]|[-> E]]); [by exists l|].
  destruct l as [|x l]; [exists []; by rewrite !app_nil_r|].
  exfalso. destruct (boot_line_last _ Hm) as (l' & El').
  pose proof (snoc_in_suffix _ _ _ _ El' ltac:(done)) as Hs.
  assert ("s"%char ∈ ws) as Hin by (rewrite E; apply elem_of_app; by left).
  rewrite forallb_forall in Hws. by apply list_elem_of_In, Hws in Hin.
Qed.


(** Trimming the chunk removes no boot line. *)
Lemma match_all_trim s : match_all bootRe (trim s) = match_all bootRe s.
Proof.
  unfold match_all, trim. rewrite <- (scan_trim_start s).
  destruct (trim_end_split (trim_start s)) as (ws & E & Hws).
  rewrite E at 2.
  rewrite (scan_app bootRe ws bootRe_closed bootRe_nonempty
             (within_blanks _ Hws)) by lia.
  by rewrite (scan_blanks _ Hws), app_nil_r.
Qed.



End GenyFacts.

(** *** The watch over several changes of the log *)

Module GenyExtra.
Import Geny GenySpec.

(** Once resolved, the watch stays so. *)
Lemma run_watch_resolved Date_parse events :
  run_watch Date_parse events {| watching := false; resolved := true |} =
  {| watching := false; resolved := true |}.
Proof.
  unfold run_watch. induction events as [|[now output] events IH]; [done|].
  cbn [fold_left]. rewrite GenyFacts.on_data_last. cbn [fst snd].
  destruct (last_boot_line output) as [line|]; [|done].
  destruct (Date_parse (timestamp_field line)) as [t|]; [|done].
  by destruct (now - t <=? 10000)%Z.
Qed.

Lemma run_watch_from Date_parse events : forall w,
  run_watch Date_parse events w =
  if existsb (fresh_boot Date_parse) events
  then {| watching := false; resolved := true |} else w.
Proof.
  induction events as [|[now output] events IH]; intros w; [done|].
  change (run_watch Date_parse ((now, output) :: events) w)
    with (run_watch Date_parse events (on_data Date_parse now output w)).
  cbn [existsb]. unfold fresh_boot at 1. cbn [fst snd].
  rewrite GenyFacts.on_data_last.
  destruct (last_boot_line output) as [line|]; [|by rewrite IH].
  destruct (Date_parse (timestamp_field line)) as [t|]; [|by rewrite IH].
  destruct (now - t <=? 10000)%Z; [|by rewrite IH].
  apply run_watch_resolved.
Qed.

(** X11.  Over any sequence of [data] events the watch of [launchGeny]
    ends resolved, and no longer watching, exactly when some chunk shows a
    fresh boot: its last boot line carries a timestamp that [Date.parse]
    reads, at most 10000 ms before the time at which the chunk is seen.
    Chunks that come earlier or later change nothing: each chunk is judged
    on its own, and once resolved the watch stays resolved. *)
Theorem launchGeny_watch (Date_parse : text -> option Z)
    (events : list (Z * text)) :
  run_watch Date_parse events watch0 =
  if existsb (fresh_boot Date_parse) events
  then {| watching := false; resolved := true |} else watch0.
Proof. apply run_watch_from. Qed.

End GenyExtra.

(** *** The watch over the chunks of the log *)

Module GenyStreamFacts.
Import Regex Geny GenySpec GenyStream.

Lemma chunks_nil fuel n : chunks fuel n [] = [].
Proof. by destruct fuel. Qed.

Lemma chunks_cons fuel n c s :
  chunks (S fuel) n (c :: s) =
  take n (c :: s) :: chunks fuel n (drop n (c :: s)).
Proof. reflexivity. Qed.

(** A content of at most [n] bytes is one chunk. *)
Lemma chunks_short fuel n content :
  0 < length content <= n -> 0 < fuel -> chunks fuel n content = [content].
Proof.
  intros [H1 H2] Hf. destruct fuel as [|fuel]; [lia|].
  destruct content as [|c s]; [simpl in H1; lia|].
  rewrite chunks_cons, take_ge, drop_ge by done. by rewrite chunks_nil.
Qed.


Lemma highWaterMark_pos : 0 < highWaterMark.
Proof. apply Nat.ltb_lt. by vm_compute. Qed.


Lemma read_stream_two content :
  highWaterMark < length content <= 2 * highWaterMark ->
  read_stream content =
  [take highWaterMark content; drop highWaterMark content].
Proof.
  intros [H1 H2]. pose proof highWaterMark_pos as Hpos. unfold read_stream.
  destruct content as [|c s]; [simpl in H1; lia|].
  cbn [length]. rewrite chunks_cons. f_equal.
  apply chunks_short.
  - rewrite length_drop. lia.
  - simpl in H1. lia.
Qed.

(** The last boot line, without the trimming. *)
Lemma last_boot_line_raw output :
  last_boot_line output = last (match_all bootRe output).
Proof.
  unfold last_boot_line, match_g. rewrite GenyFacts.match_all_trim.
  by destruct (match_all bootRe output).
Qed.

Lemma fresh_boot_raw Date_parse now output :
  fresh_boot Date_parse (now, output) =
  match last (match_all bootRe output) with
  | Some line =>
      match Date_parse (timestamp_field line) with
      | Some t => (now - t <=? 10000)%Z
      | None => false
      end
  | None => false
  end.
Proof. unfold fresh_boot. cbn [fst snd]. by rewrite last_boot_line_raw. Qed.


Lemma on_change_two Date_parse clock content a b :
  read_stream content = [a; b] ->
  on_change Date_parse clock content watch0 =
  on_data Date_parse (clock 1) b (on_data Date_parse (clock 0) a watch0).
Proof. intros E. unfold on_change. rewrite E. reflexivity. Qed.

(** A chunk without a boot line leaves the watch as it is. *)
Lemma on_data_no_line Date_parse now output w :
  last (match_all bootRe output) = None ->
  on_data Date_parse now output w = w.
Proof.
  intros H. by rewrite GenyFacts.on_data_last, last_boot_line_raw, H.
Qed.



Import SampleLog.




(** C1.  A log of 65566 bytes whose last boot line, 3 s old, starts at byte
    65481: the stream delivers the first 65536 bytes and then the last 30,
    neither chunk holds a boot line, and the watch stays unresolved, though
    the last line of the file that matches the boot-line pattern is 3 s old
    and matches the [Device booted in] sub-pattern. *)
Theorem launchGeny_misses_split_line :
  let first := take highWaterMark long_log in
  let second := drop highWaterMark long_log in
  read_stream long_log = [first; second] /\
  last_boot_line long_log = Some sample_line /\
  iso_parse (timestamp_field sample_line) = Some (now - 3000)%Z /\
  test subRe sample_line = true /\
  last_boot_line first = None /\
  last_boot_line second = None /\
  on_change iso_parse (fun _ => now) long_log watch0 = watch0.
Proof.
  intros first second.
  assert (read_stream long_log = [first; second]) as Hs.
  { apply read_stream_two.
    split; [apply Nat.ltb_lt|apply Nat.leb_le]; vm_compute; reflexivity. }
  assert (last (match_all bootRe first) = None) as H1
    by (vm_compute; reflexivity).
  assert (last (match_all bootRe second) = None) as H2
    by (vm_compute; reflexivity).
  split; [exact Hs|].
  split; [rewrite last_boot_line_raw; vm_compute; reflexivity|].
  split; [vm_compute; reflexivity|]. split; [vm_compute; reflexivity|].
  rewrite !last_boot_line_raw. split; [exact H1|]. split; [exact H2|].
  rewrite (on_change_two _ _ _ _ _ Hs).
  rewrite !on_data_no_line by assumption. reflexivity.
Qed.

(** C5.  Two logs with the same last boot line, 3 s old, after the boot
    line of an earlier boot: the short log resolves the watch; in the long
    one the last line starts at byte 65495, the first chunk ends inside it,
    and the watch decides on the earlier line, the last one of that chunk,
    and stays unresolved. *)
Theorem launchGeny_earlier_line_decides :
  let first := take highWaterMark two_boots_log in
  let second := drop highWaterMark two_boots_log in
  last_boot_line short_log = Some sample_line /\
  last_boot_line two_boots_log = Some sample_line /\
  on_change iso_parse (fun _ => now) short_log watch0 =
    {| watching := false; resolved := true |} /\
  read_stream two_boots_log = [first; second] /\
  last_boot_line first = Some stale_line /\
  iso_parse (timestamp_field stale_line) = Some (now - 228000)%Z /\
  last_boot_line second = None /\
  on_change iso_parse (fun _ => now) two_boots_log watch0 = watch0.
Proof.
  intros first second.
  assert (read_stream two_boots_log = [first; second]) as Hs.
  { apply read_stream_two.
    split; [apply Nat.ltb_lt|apply Nat.leb_le]; vm_compute; reflexivity. }
  assert (last (match_all bootRe first) = Some stale_line) as H1
    by (vm_compute; reflexivity).
  assert (last (match_all bootRe second) = None) as H2
    by (vm_compute; reflexivity).
  split; [vm_compute; reflexivity|].
  split; [rewrite last_boot_line_raw; vm_compute; reflexivity|].
  split; [vm_compute; reflexivity|]. split; [exact Hs|].
  rewrite !last_boot_line_raw. split; [exact H1|].
  split; [vm_compute; reflexivity|]. split; [exact H2|].
  rewrite (on_change_two _ _ _ _ _ Hs).
  rewrite (on_data_no_line _ _ second) by assumption.
  rewrite GenyFacts.on_data_last, last_boot_line_raw, H1.
  vm_compute. reflexivity.
Qed.

End GenyStreamFacts.

(** ** The suite resolver *)

Module ResolverFacts.
Import Resolver.

(** *** Strings *)

Lemma append_cons x (a b : string) : String x a +:+ b = String x (a +:+ b).
Proof. reflexivity. Qed.

Lemma append_assoc (a b c : string) : (a +:+ b) +:+ c = a +:+ b +:+ c.
Proof. induction a as [|x a IH]; [done|]. by rewrite !append_cons, IH. Qed.

Lemma append_empty_r (a : string) : a +:+ "" = a.
Proof. induction a as [|x a IH]; [done|]. by rewrite append_cons, IH. Qed.

Lemma slice_remove_last s : slice s 0 (strlen s - 1) = remove_last s.
Proof.
  unfold slice, strlen.
  replace (0 <? 0)%Z with false by done.
  rewrite Z.min_l by lia. change (Z.to_nat 0) with 0.
  destruct s as [|c s]; [done|].
  replace (Z.of_nat (String.length (String c s)) - 1)%Z
    with (Z.of_nat (String.length s)) by (cbn [String.length]; lia).
  replace (Z.of_nat (String.length s) <? 0)%Z with false
    by (symmetry; apply Z.ltb_ge; lia).
  rewrite Z.min_l by (cbn [String.length]; lia).
  rewrite Z.sub_0_r, Z.max_l, Nat2Z.id by lia.
  revert c. induction s as [|c' s IH]; intros c; [done|].
  cbn [String.length String.substring remove_last]. f_equal. apply IH.
Qed.

Lemma remove_last_cons c (s : string) :
  s <> ""%string -> remove_last (String c s) = String c (remove_last s).
Proof. by destruct s. Qed.

Lemma remove_last_snoc (a : string) c : remove_last (a +:+ String c "") = a.
Proof.
  induction a as [|x a IH]; [done|]. rewrite append_cons.
  cbn [remove_last]. rewrite IH.
  by destruct a.
Qed.

Lemma remove_last_app (a b : string) :
  b <> ""%string -> remove_last (a +:+ b) = a +:+ remove_last b.
Proof.
  intros Hb. induction a as [|x a IH]; [done|]. rewrite !append_cons.
  cbn [remove_last]. rewrite IH.
  destruct (a +:+ b) eqn:E; [|done]. by destruct a, b.
Qed.

Lemma split_comma_free f : comma_free f = true -> split "," f = [f].
Proof.
  induction f as [|x f IH]; [done|]. cbn [comma_free split].
  intros [Hx Hf]%andb_true_iff. apply negb_true_iff in Hx.
  by rewrite Hx, IH.
Qed.

Lemma split_app_comma f (r : string) :
  comma_free f = true -> split "," (f +:+ "," +:+ r) = f :: split "," r.
Proof.
  induction f as [|x f IH]; [done|]. cbn [comma_free].
  intros [Hx Hf]%andb_true_iff. apply negb_true_iff in Hx.
  rewrite append_cons. cbn [split]. by rewrite Hx, IH.
Qed.

Lemma joined_nonempty f l : joined (f :: l) <> ""%string.
Proof. cbn [joined]. by destruct f. Qed.

(** Splitting the joined elements, the last comma removed, gives them
    back. *)
Lemma split_joined l :
  l <> [] -> Forall (fun f => comma_free f = true) l ->
  split "," (remove_last (joined l)) = l.
Proof.
  induction l as [|f l IH]; [done|]. intros _ [Hf Hl]%Forall_cons.
  destruct l as [|g l].
  - cbn [joined]. rewrite append_empty_r, remove_last_snoc.
    by apply split_comma_free.
  - change (joined (f :: g :: l)) with (f +:+ String "," (joined (g :: l))).
    pose proof (joined_nonempty g l) as Hne.
    rewrite remove_last_app by done.
    rewrite remove_last_cons by done.
    change (String "," ?x) with ("," +:+ x).
    rewrite split_app_comma by done. f_equal. by apply IH.
Qed.

Section Facts.

Variable rt : runtime.
Variable exists_path : string -> bool.
Variable configTests : config.

(** The loops of lines 65-75 append the files of the selected pairs. *)
Lemma add_suites_joined platformArg platform (suites : platform_config) acc :
  add_suites rt platformArg platform suites acc =
  acc +:+ joined (map (file_of rt)
    (flat_map
       (fun '(suite, _) =>
          if negb (String.eqb suite "desiredCapabilities")
             && (falsy platformArg || bool_decide (platformArg = Some platform))
          then [(platform, suite)] else [])
       suites)).
Proof.
  unfold add_suites. revert acc.
  induction suites as [|[suite e] suites IH]; intros acc; simpl.
  - by rewrite append_empty_r.
  - destruct (negb (String.eqb suite "desiredCapabilities")); simpl;
      [|apply IH].
    destruct (falsy platformArg || bool_decide (platformArg = Some platform));
      simpl; [|apply IH].
    rewrite IH. unfold file_of. simpl.
    rewrite !append_assoc. done.
Qed.

Lemma joined_app l1 l2 : joined (l1 ++ l2) = joined l1 +:+ joined l2.
Proof.
  induction l1 as [|f l1 IH]; [done|]. simpl.
  by rewrite IH, !append_assoc.
Qed.

Lemma add_platforms_joined platformArg acc :
  add_platforms rt configTests platformArg acc =
  acc +:+ joined (map (file_of rt) (pairs configTests platformArg)).
Proof.
  unfold add_platforms, pairs. revert acc.
  induction configTests as [|[platform suites] cfg IH]; intros acc; simpl.
  - by rewrite append_empty_r.
  - rewrite IH, add_suites_joined, map_app, joined_app, append_assoc. done.
Qed.

(** The second half of C3 holds: with no suite requested and at least one
    pair selected, the files to resolve are those of the selected pairs of
    the configuration, in order (no name holding a comma). *)
Lemma suite_files_all suiteArg platformArg :
  falsy suiteArg = true ->
  pairs configTests platformArg <> [] ->
  Forall (fun p => comma_free (file_of rt p) = true)
    (pairs configTests platformArg) ->
  suite_files rt configTests suiteArg platformArg =
  map (file_of rt) (pairs configTests platformArg).
Proof.
  intros Hs Hne Hfree. unfold suite_files.
  rewrite Hs, add_platforms_joined, slice_remove_last.
  change ("" +:+ ?x) with x. apply split_joined.
  - by destruct (pairs configTests platformArg).
  - by apply Forall_fmap.
Qed.

Lemma add_suites_none platformArg platform (suites : platform_config) acc :
  flat_map
    (fun '(suite, _) =>
       if negb (String.eqb suite "desiredCapabilities")
          && (falsy platformArg || bool_decide (platformArg = Some platform))
       then [(platform, suite)] else [])
    suites = [] ->
  add_suites rt platformArg platform suites acc = acc.
Proof.
  unfold add_suites. revert acc.
  induction suites as [|[suite e] suites IH]; intros acc; simpl; [done|].
  destruct (negb (String.eqb suite "desiredCapabilities")); simpl.
  - destruct (falsy platformArg || bool_decide (platformArg = Some platform));
      simpl; [done|]. apply IH.
  - apply IH.
Qed.

Lemma add_platforms_none platformArg acc :
  pairs configTests platformArg = [] ->
  add_platforms rt configTests platformArg acc = acc.
Proof.
  unfold add_platforms, pairs. revert acc.
  induction configTests as [|[platform suites] cfg IH]; intros acc; simpl;
    [done|].
  intros [H1 H2]%app_eq_nil. rewrite add_suites_none by done. by apply IH.
Qed.

(** With nothing requested and nothing selected, [files] is [['']]. *)
Lemma suite_files_none suiteArg platformArg :
  falsy suiteArg = true ->
  pairs configTests platformArg = [] ->
  suite_files rt configTests suiteArg platformArg = [""%string].
Proof.
  intros Hs Hp. unfold suite_files. rewrite Hs, add_platforms_none by done.
  reflexivity.
Qed.

(** Then [transform] never returns: it exits with an error when the
    directory of the app is not found, and throws on [platformFile.length]
    when it is. *)
Lemma transform_none appArg suiteArg platformArg :
  falsy suiteArg = true ->
  pairs configTests platformArg = [] ->
  transform rt exists_path configTests appArg suiteArg platformArg =
  if exists_path (path_join rt [TEST_DIR; appArg; ""%string])
  then Throw (TypeError "Cannot read property 'length' of undefined")
  else Exit 1 "'' doesn't exist in 'ui-tests' directory.".
Proof.
  intros Hs Hp. unfold transform. rewrite suite_files_none by done.
  simpl. unfold resolve_file.
  destruct (exists_path _); simpl; [|done].
  by destruct (win32 rt).
Qed.

End Facts.

(** With no suite requested, the sample configuration resolves to its one
    target. *)
Example transform_sample :
  transform Posix.rt Sample.on_disk Sample.cfg "app" None None =
  Return [ {| abs := "/repo/ui-tests/app/login/android.js";
              name := "login"; platform := "android" |} ].
Proof. reflexivity. Qed.

(** C3 (the code departs from the claim).  With the suite [login/android.js]
    requested, the list to resolve is not the requested list: lines 65-75 run
    unconditionally and append the suites of the configuration to the
    request, so the only file is ['login/android.jslogin/android.js'], which
    is not on disk, and the resolution exits with an error. *)
Theorem transform_requested_not_verbatim :
  requested "login/android.js" = ["login/android.js"%string] /\
  suite_files Posix.rt Sample.cfg (Some "login/android.js"%string) None =
    ["login/android.jslogin/android.js"%string] /\
  transform Posix.rt Sample.on_disk Sample.cfg "app"
    (Some "login/android.js"%string) None =
    Exit 1 "'login/android.jslogin/android.js' doesn't exist in 'ui-tests' directory.".
Proof. repeat split. Qed.

(** C4 (the code departs from the claim).  The platform filter [ios] leaves no
    pair of the sample configuration and no suite is requested: [transform]
    does not return an empty list.  With the directory of the app on disk it
    throws a [TypeError]; without it, it logs an error and exits with code 1. *)
Theorem transform_empty_selection_fails :
  pairs Sample.cfg (Some "ios"%string) = [] /\
  transform Posix.rt Sample.on_disk Sample.cfg "app" None (Some "ios"%string) =
    Throw (TypeError "Cannot read property 'length' of undefined") /\
  transform Posix.rt (fun _ => false) Sample.cfg "app" None (Some "ios"%string) =
    Exit 1 "'' doesn't exist in 'ui-tests' directory.".
Proof. repeat split. Qed.

End ResolverFacts.

(** ** The suite resolver: what it returns *)

Module ResolverExtra.
Import Resolver ResolverSpec ResolverFacts.

Lemma split_nonempty c s : split c s <> [].
Proof.
  destruct s as [|x s]; [done|]. cbn [split].
  destruct (Ascii.eqb x c); [done|]. by destruct (split c s).
Qed.

Lemma lacks_comma_free s : lacks "," s = comma_free s.
Proof. induction s as [|x s IH]; [done|]. simpl. by rewrite IH. Qed.

Lemma split_lacks c s : lacks c s = true -> split c s = [s].
Proof.
  induction s as [|x s IH]; [done|]. cbn [lacks split].
  intros [Hx Hs]%andb_true_iff. apply negb_true_iff in Hx.
  by rewrite Hx, IH.
Qed.

Lemma split_app_sep c (s r : string) :
  lacks c s = true -> split c (s +:+ String c r) = s :: split c r.
Proof.
  induction s as [|x s IH]; cbn [lacks].
  - intros _. change ("" +:+ String c r) with (String c r).
    cbn [split]. by rewrite Ascii.eqb_refl.
  - intros [Hx Hs]%andb_true_iff. apply negb_true_iff in Hx.
    rewrite append_cons. cbn [split]. by rewrite Hx, IH.
Qed.

Lemma lacks_app c (a b : string) :
  lacks c (a +:+ b) = lacks c a && lacks c b.
Proof.
  induction a as [|x a IH]; [done|]. rewrite append_cons. cbn [lacks].
  by rewrite IH, andb_assoc.
Qed.

Section Returns.

Variable rt : runtime.
Variable exists_path : string -> bool.
Variable configTests : config.
Variable app : string.

Lemma resolve_file_resolves file t :
  resolve_file rt exists_path app file = Return t <->
  resolves rt exists_path app file t.
Proof.
  unfold resolve_file, resolves, supported.
  destruct (exists_path (path_join rt [TEST_DIR; app; file])); simpl.
  2:{ split; [done | by intros [? _]]. }
  destruct (split (sep_char rt) file) as [|n [|pf rest]] eqn:E; simpl.
  - by destruct (split_nonempty _ _ E).
  - split; [done|]. by intros (_ & (? & ? & ? & _) & _).
  - change (strlen ".js") with 3%Z.
    set (p := slice pf 0 (strlen pf - 3)).
    destruct (String.eqb p "ios") eqn:E1, (String.eqb p "android") eqn:E2,
      (String.eqb p "windows") eqn:E3; simpl;
      try (split;
           [ intros [= <-]; simpl; rewrite ?E1, ?E2, ?E3; by eauto 10
           | intros (_ & (pf' & rest' & [= -> -> ->] & Hp) & Hs & Ha);
             destruct t as [a n' p']; simpl in *; fold p in Hp; by subst ]).
    split; [done|].
    intros (_ & (pf' & rest' & [= -> -> ->] & Hp) & Hs & _).
    fold p in Hp. rewrite Hp, E1, E2, E3 in Hs. done.
Qed.

Lemma for_each_return files : forall acc ts,
  for_each rt exists_path app files acc = Return ts <->
  exists ts', ts = acc ++ ts' /\
              Forall2 (resolves rt exists_path app) files ts'.
Proof.
  induction files as [|f files IH]; intros acc ts; cbn [for_each].
  - split.
    + intros [= <-]. exists []. by rewrite app_nil_r.
    + intros (ts' & -> & ->%Forall2_nil_inv_l). by rewrite app_nil_r.
  - destruct (resolve_file rt exists_path app f) as [t| |] eqn:E.
    + apply resolve_file_resolves in E. rewrite IH. split.
      * intros (ts' & -> & H). exists (t :: ts'). rewrite <- app_assoc.
        split; [done | by constructor].
      * intros (ts' & -> & H).
        apply Forall2_cons_inv_l in H as (t' & ts'' & Ht & H & ->).
        assert (t' = t) as ->.
        { apply resolve_file_resolves in E, Ht. congruence. }
        exists ts''. by rewrite <- app_assoc.
    + split; [done|]. intros (ts' & -> & H).
      apply Forall2_cons_inv_l in H as (t' & ts'' & Ht & _ & _).
      apply resolve_file_resolves in Ht. congruence.
    + split; [done|]. intros (ts' & -> & H).
      apply Forall2_cons_inv_l in H as (t' & ts'' & Ht & _ & _).
      apply resolve_file_resolves in Ht. congruence.
Qed.

Lemma supported_cases p :
  supported p = true -> p = "ios"%string \/ p = "android"%string \/ p = "windows"%string.
Proof.
  unfold supported. intros [[H|H]%orb_true_iff|H]%orb_true_iff;
    apply String.eqb_eq in H; auto.
Qed.

Lemma path_sep_char (x : string) : path_sep rt +:+ x = String (sep_char rt) x.
Proof. unfold path_sep, sep_char. by destruct (win32 rt). Qed.

(** The file of a pair resolves to the target of the pair. *)
Lemma pair_resolves p :
  supported p.1 = true -> lacks (sep_char rt) p.2 = true ->
  exists_path (path_join rt [TEST_DIR; app; file_of rt p]) = true ->
  resolves rt exists_path app (file_of rt p) (target_of_pair rt app p).
Proof.
  intros Hs Hl He. split; [done|]. split; [|by split].
  exists (p.1 +:+ ".js"), []. cbn [name platform target_of_pair].
  unfold file_of. rewrite path_sep_char, split_app_sep by done.
  unfold sep_char.
  destruct (supported_cases _ Hs) as [->|[->| ->]]; by destruct (win32 rt).
Qed.

Lemma pair_comma_free p :
  supported p.1 = true -> lacks "," p.2 = true ->
  comma_free (file_of rt p) = true.
Proof.
  intros Hs Hl. rewrite <- lacks_comma_free. unfold file_of.
  rewrite path_sep_char. rewrite lacks_app, Hl. cbn [lacks andb].
  unfold sep_char.
  destruct (supported_cases _ Hs) as [->|[->| ->]]; by destruct (win32 rt).
Qed.

Lemma pairs_filter q p :
  q <> ""%string -> p ∈ pairs configTests (Some q) -> p.1 = q.
Proof.
  intros Hq. unfold pairs, falsy. apply String.eqb_neq in Hq. rewrite Hq.
  intros Hin%list_elem_of_In%in_flat_map.
  destruct Hin as ([pl suites] & _ & Hin%in_flat_map).
  destruct Hin as ([su e] & _ & Hin).
  destruct (negb (String.eqb su "desiredCapabilities")); [|done]. simpl in Hin.
  case_bool_decide as Hd; [|done]. injection Hd as ->.
  by destruct Hin as [<-|[]].
Qed.

End Returns.

(** X1.  [transform] returns a list exactly when every file of the list to
    resolve is on disk, has a suite segment and a platform segment, and the
    platform segment without its last three characters is [ios], [android]
    or [windows]; the list returned then has one target per file, in order,
    with that suite, that platform and the absolute path of the file.  It is
    never empty. *)
Theorem transform_returns (rt : runtime) (exists_path : string -> bool)
    (configTests : config) (app : string) (suiteArg platformArg : option string)
    (ts : list target) :
  (transform rt exists_path configTests app suiteArg platformArg = Return ts <->
   Forall2 (resolves rt exists_path app)
     (suite_files rt configTests suiteArg platformArg) ts) /\
  (transform rt exists_path configTests app suiteArg platformArg = Return ts ->
   ts <> [] /\
   length ts = length (suite_files rt configTests suiteArg platformArg) /\
   Forall (fun t => supported (platform t) = true) ts).
Proof.
  unfold transform. rewrite for_each_return. split.
  - split; [by intros (ts' & -> & H) | intros H; by exists ts].
  - intros (ts' & -> & H). simpl. split; [|split].
    + intros ->. apply Forall2_nil_inv_r in H.
      unfold suite_files in H. by apply split_nonempty in H.
    + symmetry. by eapply Forall2_length.
    + apply Forall_forall. intros t Ht.
      apply list_elem_of_lookup in Ht as [i Hi].
      destruct (Forall2_lookup_r _ _ _ _ _ H Hi) as (f & _ & _ & _ & Hs & _).
      done.
Qed.

(** On the sample configuration and disk. *)
Lemma transform_returns_witness :
  let ts := [ {| abs := "/repo/ui-tests/app/login/android.js";
                 name := "login"; platform := "android" |} ] in
  ts <> [] /\ Forall (fun t => supported (platform t) = true) ts.
Proof.
  intros ts.
  destruct (proj2 (transform_returns Posix.rt Sample.on_disk Sample.cfg "app"
                     None None ts) eq_refl) as (H1 & _ & H3).
  by split.
Defined.

(** X2.  With no suite requested and at least one pair of the configuration
    selected, every pair of a supported platform, with a suite name free of
    commas and separators and its file on disk: [transform] returns the
    targets of the selected pairs, in the order of the configuration; with a
    platform requested, every target returned is of that platform. *)
Theorem transform_all_pairs (rt : runtime) (exists_path : string -> bool)
    (configTests : config) (app : string) (suiteArg platformArg : option string) :
  falsy suiteArg = true ->
  pairs configTests platformArg <> [] ->
  Forall (fun p => supported p.1 = true /\
                   lacks "," p.2 = true /\ lacks (sep_char rt) p.2 = true /\
                   exists_path (path_join rt [TEST_DIR; app; file_of rt p]) = true)
    (pairs configTests platformArg) ->
  transform rt exists_path configTests app suiteArg platformArg =
    Return (map (target_of_pair rt app) (pairs configTests platformArg)) /\
  (forall q, platformArg = Some q -> q <> ""%string ->
     Forall (fun t => platform t = q)
       (map (target_of_pair rt app) (pairs configTests platformArg))).
Proof.
  intros Hs Hne Hall. split.
  - unfold transform. apply for_each_return. eexists. split; [done|].
    rewrite suite_files_all; [|done|done|].
    + apply Forall2_fmap, Forall_Forall2_diag.
      eapply Forall_impl; [exact Hall|].
      intros p (H1 & H2 & H3 & H4). by apply pair_resolves.
    + eapply Forall_impl; [exact Hall|].
      intros p (H1 & H2 & H3 & H4). by apply pair_comma_free.
  - intros q -> Hq. apply Forall_fmap, Forall_forall.
    intros p Hp. by apply (pairs_filter configTests q).
Qed.

Lemma transform_all_pairs_witness :
  transform Posix.rt Sample.on_disk Sample.cfg "app" None (Some "android"%string)
  = Return [ {| abs := "/repo/ui-tests/app/login/android.js";
                name := "login"; platform := "android" |} ].
Proof.
  apply (transform_all_pairs Posix.rt Sample.on_disk Sample.cfg "app" None
           (Some "android"%string)); [done | done |].
  repeat constructor.
Defined.

End ResolverExtra.

(** ** The build pipeline *)

Module PipelineFacts.
Import Regex Pipeline.

(** C2 (the code departs from the claim).  The memo [tiappMod] is keyed by the
    project name alone and is a plain object.  Three targets, two of which
    share the project [login/LoginApp] while the third has the project
    [settings/LoginApp] of the same name: the run completes with one patch,
    and the descriptor of the second project is left as it was.  Three
    targets, two of which share a project named [constructor]: that project
    is never patched, since [tiappMod['constructor']] is inherited and
    truthy; again one patch for two projects. *)
Theorem buildTestApps_patches_by_name :
  let r := buildTestApps Posix.rt SampleBuild.exit0 SampleBuild.cfg "app"
             "7.0.0.GA" SampleBuild.suites (start SampleBuild.disk) in
  let r' := buildTestApps Posix.rt SampleBuild.exit0 SampleBuild.cfg' "app"
              "7.0.0.GA" SampleBuild.suites (start SampleBuild.disk') in
  (completed r = true /\
   patches (trace (final r)) =
     [("LoginApp", "/repo/ui-tests/app/login/LoginApp/tiapp.xml")]%string /\
   files (final r) !! "/repo/ui-tests/app/login/LoginApp/tiapp.xml"%string =
     Some SampleBuild.patched_xml /\
   files (final r) !! "/repo/ui-tests/app/settings/LoginApp/tiapp.xml"%string =
     Some SampleBuild.tiapp_xml) /\
  (completed r' = true /\
   patches (trace (final r')) =
     [("SettingsApp", "/repo/ui-tests/app/settings/SettingsApp/tiapp.xml")]%string /\
   files (final r') !! "/repo/ui-tests/app/login/constructor/tiapp.xml"%string =
     Some SampleBuild.tiapp_xml).
Proof. vm_compute. repeat split. Qed.

(** *** The order of the steps *)

Lemma steps_app a b : steps (a ++ b) = steps a ++ steps b.
Proof. apply flat_map_app. Qed.

Lemma patches_app a b : patches (a ++ b) = patches a ++ patches b.
Proof. apply flat_map_app. Qed.

Lemma seq_state_app a b busy :
  seq_state busy (a ++ b) = seq_state busy a ≫= fun busy' => seq_state busy' b.
Proof.
  revert busy. induction a as [|[] a IH]; intros []; simpl; by rewrite ?IH.
Qed.

Section Order.

Variable rt : runtime.
Variable procs : nat -> option Z.
Variable configTests : config.
Variable app : string.
Variable tiSdk : string.

Lemma obeys_ret {A} (a : A) (Q : A -> Prop) : Q a -> obeys (ret a) [] Q.
Proof. intros HQ w Hw. simpl. by rewrite app_nil_r. Qed.

Lemma obeys_bind {A B} (m : M A) (k : A -> M B) p1 p2 Q R :
  obeys m p1 Q -> (forall a, Q a -> obeys (k a) p2 R) ->
  obeys (bind m k) (p1 ++ p2) R.
Proof.
  intros Hm Hk w Hw. unfold bind. specialize (Hm w Hw).
  destruct (m w) as [a w'|e w'|w'].
  - destruct Hm as (HQ & Hs & Hst). specialize (Hk a HQ w' Hs).
    destruct (k a w') as [b w''|e w''|w''].
    + destruct Hk as (HR & Hs' & Hst'). rewrite Hst', Hst, <- app_assoc. done.
    + destruct Hk as (Hs' & d & Hd & Hst'). split; [done|].
      exists (p1 ++ d). split; [by apply prefix_app|].
      by rewrite Hst', Hst, <- app_assoc.
    + destruct Hk as (Hs' & d & Hd & Hst'). split; [done|].
      exists (p1 ++ d). split; [by apply prefix_app|].
      by rewrite Hst', Hst, <- app_assoc.
  - destruct Hm as (Hs & d & Hd & Hst). split; [done|].
    exists d. split; [by apply prefix_app_r | done].
  - destruct Hm as (Hs & d & Hd & Hst). split; [done|].
    exists d. split; [by apply prefix_app_r | done].
Qed.

Lemma obeys_weaken {A} (m : M A) p (Q R : A -> Prop) :
  (forall a, Q a -> R a) -> obeys m p Q -> obeys m p R.
Proof.
  intros HQR Hm w Hw. specialize (Hm w Hw).
  destruct (m w); [|done..]. destruct Hm as (? & ? & ?). auto.
Qed.

Lemma obeys_emit e :
  (forall c a, e <> Spawned c a) -> (forall c, e <> Exited c) ->
  obeys (emit e) [] (fun _ => True).
Proof.
  intros H1 H2 w Hw. simpl. rewrite seq_state_app, Hw, steps_app. simpl.
  destruct e; try done; [by destruct (H1 cmd args) | by destruct (H2 code)].
Qed.

Lemma appc_command (s : step) w :
  appc rt procs
    (match s with
     | Select v => ["ti"; "sdk"; "select"; v]
     | Clean p d => ["ti"; "clean"; "--platforms"; p; "--project-dir"; d]
     | Build p d => ["run"; "--platform"; p; "--project-dir"; d; "--build-only"]
     end%string) w =
  let spawn := Spawned (command rt s).1 (command rt s).2 in
  match procs (spawned w) with
  | Some code =>
      Ok tt {| files := files w; spawned := S (spawned w);
               tiappMod := tiappMod w;
               trace := (trace w ++ [spawn]) ++ [Exited code] |}
  | None =>
      Pending {| files := files w; spawned := S (spawned w);
                 tiappMod := tiappMod w; trace := trace w ++ [spawn] |}
  end.
Proof.
  unfold appc, command, spawnConvert.
  destruct s, (win32 rt); simpl; by destruct (procs (spawned w)).
Qed.

Lemma obeys_appc (s : step) :
  obeys
    (appc rt procs
       (match s with
        | Select v => ["ti"; "sdk"; "select"; v]
        | Clean p d => ["ti"; "clean"; "--platforms"; p; "--project-dir"; d]
        | Build p d => ["run"; "--platform"; p; "--project-dir"; d; "--build-only"]
        end%string))
    [command rt s] (fun _ => True).
Proof.
  intros w Hw. rewrite appc_command. cbv zeta.
  destruct (procs (spawned w)) as [code|]; cbn [trace].
  - rewrite !seq_state_app, Hw, !steps_app. simpl.
    rewrite app_nil_r. by destruct (command rt s).
  - rewrite !seq_state_app, Hw, !steps_app. simpl. split; [done|].
    exists [command rt s]. split; [done|]. by destruct (command rt s).
Qed.

Lemma obeys_patch_step t :
  obeys (patch_step rt configTests app tiSdk t) []
    (fun dir => exists tiProj,
       project_of configTests t = Some tiProj /\
       dir = project_dir rt app t tiProj).
Proof.
  intros w Hw. unfold patch_step.
  destruct (project_of configTests t) as [tiProj|]; simpl.
  2:{ split; [done|]. exists []. by rewrite app_nil_r. }
  destruct (truthy_prop (tiappMod w) tiProj); simpl.
  2:{ unfold bind, mark, change. simpl.
      destruct (files w !! _) as [content|]; simpl.
      2:{ split; [done|]. exists []. by rewrite app_nil_r. }
      destruct (match_g sdkRe (trim content)); simpl.
      2:{ split; [done|]. exists []. by rewrite app_nil_r. }
      rewrite seq_state_app, Hw, steps_app, !app_nil_r. simpl. eauto. }
  unfold ret. rewrite app_nil_r. eauto.
Qed.

Lemma obeys_target_steps t :
  obeys (target_steps rt procs configTests app tiSdk t)
    (map (command rt) (target_plan rt configTests app t)) (fun _ => True).
Proof.
  unfold target_steps.
  change (map (command rt) (target_plan rt configTests app t))
    with ([] ++ map (command rt) (target_plan rt configTests app t)).
  eapply obeys_bind; [apply obeys_patch_step|].
  intros dir (tiProj & Hp & ->). unfold target_plan. rewrite Hp.
  change (map (command rt) [?a; ?b])
    with ([command rt a] ++ [command rt b]).
  eapply obeys_bind.
  - unfold clean_step.
    change [command rt ?a] with ([command rt a] ++ []).
    eapply obeys_bind;
      [apply (obeys_appc (Clean (platform t) (project_dir rt app t tiProj)))|].
    intros _ _.
    apply (obeys_ret _ (fun d => d = project_dir rt app t tiProj)). done.
  - intros ? ->.
    apply (obeys_appc (Build (platform t) (project_dir rt app t tiProj))).
Qed.

Lemma obeys_chain suites :
  obeys (chain rt procs configTests app tiSdk suites)
    (map (command rt) (flat_map (target_plan rt configTests app) suites)) (fun _ => True).
Proof.
  induction suites as [|t suites IH]; simpl.
  - by apply obeys_ret.
  - rewrite map_app. eapply obeys_bind; [apply obeys_target_steps|].
    intros _ _. apply IH.
Qed.

Lemma obeys_buildTestApps suites :
  tiSdk <> ""%string ->
  obeys (buildTestApps rt procs configTests app tiSdk suites)
    (map (command rt) (plan rt configTests app tiSdk suites)) (fun _ => True).
Proof.
  intros Hsdk. unfold buildTestApps.
  destruct (String.eqb_spec tiSdk ""); [done|].
  unfold plan. cbn [map].
  change (command rt (Select tiSdk) :: ?l)
    with ([command rt (Select tiSdk)] ++ l).
  eapply obeys_bind; [apply (obeys_appc (Select tiSdk))|]. intros _ _.
  rewrite <- (app_nil_r (map _ _)).
  eapply obeys_bind; [apply obeys_chain|]. intros _ _.
  by apply obeys_emit.
Qed.

(** *** A healthy run completes *)

Lemma appc_exits flags w :
  (forall k, is_Some (procs k)) ->
  exists w', appc rt procs flags w = Ok tt w' /\
             files w' = files w /\ tiappMod w' = tiappMod w.
Proof.
  intros Hp. unfold appc. destruct (spawnConvert _ _ _) as [cmd fl].
  destruct (Hp (spawned w)) as [code ->]. eauto.
Qed.

Lemma target_steps_ok t w tiProj :
  (forall k, is_Some (procs k)) ->
  project_of configTests t = Some tiProj ->
  (truthy_prop (tiappMod w) tiProj = false ->
   exists content,
     files w !! descriptor rt app t tiProj = Some content /\
     is_Some (match_g sdkRe (trim content))) ->
  exists w',
    target_steps rt procs configTests app tiSdk t w = Ok tt w' /\
    ((truthy_prop (tiappMod w) tiProj = true /\
      files w' = files w /\ tiappMod w' = tiappMod w) \/
     (truthy_prop (tiappMod w) tiProj = false /\
      (exists xml, files w' = <[descriptor rt app t tiProj := xml]> (files w)) /\
      tiappMod w' = {[tiProj]} ∪ tiappMod w)).
Proof.
  intros Hprocs Hp Hxml.
  unfold target_steps, clean_step, build_step, patch_step, bind at 1 2.
  rewrite Hp. destruct (truthy_prop (tiappMod w) tiProj) eqn:Ht; simpl.
  - unfold ret, bind.
    destruct (appc_exits
      ["ti"; "clean"; "--platforms"; platform t; "--project-dir";
       getAbsolutePath rt app (path_join rt [name t; tiProj])]%string
      w Hprocs) as (w1 & -> & Hf1 & Hm1).
    destruct (appc_exits
      ["run"; "--platform"; platform t; "--project-dir";
       getAbsolutePath rt app (path_join rt [name t; tiProj]);
       "--build-only"]%string
      w1 Hprocs) as (w2 & -> & Hf2 & Hm2).
    exists w2. split; [done|]. left. by rewrite Hf2, Hm2, Hf1, Hm1.
  - destruct (Hxml eq_refl) as (content & Hc & [ms Hms]).
    unfold bind, mark, change, ret. cbn [files tiappMod].
    unfold descriptor, project_dir in Hc. rewrite Hc, Hms.
    match goal with
    | |- context [appc rt procs ?fl ?w0] =>
        destruct (appc_exits fl w0 Hprocs) as (w1 & -> & Hf1 & Hm1)
    end.
    match goal with
    | |- context [appc rt procs ?fl w1] =>
        destruct (appc_exits fl w1 Hprocs) as (w2 & -> & Hf2 & Hm2)
    end.
    exists w2. split; [done|]. right. split; [done|].
    rewrite Hf2, Hm2, Hf1, Hm1. simpl. eauto.
Qed.

Lemma truthy_prop_mono own k k' :
  truthy_prop ({[k']} ∪ own) k = false ->
  truthy_prop own k = false /\ k <> k'.
Proof.
  unfold truthy_prop. intros [H1 H2]%orb_false_iff.
  apply bool_decide_eq_false in H1. rewrite H2, orb_false_r.
  split; [apply bool_decide_eq_false|]; set_solver.
Qed.

Lemma chain_completes fs suites0 :
  healthy rt procs configTests app fs suites0 ->
  forall suites w,
    (forall t, t ∈ suites -> t ∈ suites0) ->
    (forall t tiProj, t ∈ suites ->
       project_of configTests t = Some tiProj ->
       truthy_prop (tiappMod w) tiProj = false ->
       files w !! descriptor rt app t tiProj =
       fs !! descriptor rt app t tiProj) ->
    exists w', chain rt procs configTests app tiSdk suites w = Ok tt w'.
Proof.
  intros (Hprocs & Hxml & Hdist).
  induction suites as [|t suites IH]; intros w Hsub Hinv; simpl.
  - by exists w.
  - destruct (Hxml t) as (tiProj & content & Hp & Hc & Hm);
      [apply Hsub; by left|].
    destruct (target_steps_ok t w tiProj Hprocs Hp) as (w1 & E & Hw1).
    { intros Ht. exists content. split; [|done].
      rewrite Hinv; [done | by left | done | done]. }
    unfold bind. rewrite E. apply IH; [intros; apply Hsub; by right|].
    intros t' p' Ht' Hp' Htr.
    destruct Hw1 as [(_ & -> & Hmod)|(_ & (xml & ->) & Hmod)];
      rewrite Hmod in Htr.
    + apply Hinv; [by right | done | done].
    + apply truthy_prop_mono in Htr as [Htr Hne].
      rewrite lookup_insert_ne.
      * apply Hinv; [by right | done | done].
      * intros Hd. apply Hne. symmetry.
        apply (Hdist t t' tiProj p'); [apply Hsub; by left
          | apply Hsub; by right | done | done | done].
Qed.

Lemma buildTestApps_completes fs suites :
  healthy rt procs configTests app fs suites ->
  completed (buildTestApps rt procs configTests app tiSdk suites (start fs))
  = true.
Proof.
  intros Hh. unfold buildTestApps.
  destruct (String.eqb tiSdk ""); [done|].
  unfold bind at 1.
  destruct (appc_exits ["ti"; "sdk"; "select"; tiSdk]%string (start fs)
              (proj1 Hh)) as (w1 & -> & Hf & Hm).
  unfold bind.
  destruct (chain_completes fs suites Hh suites w1) as (w2 & ->);
    [done | by intros; rewrite Hf | done].
Qed.

(** *** A project name is patched at most once *)

Lemma preserves_bind {A B} (m : M A) (k : A -> M B) :
  preserves m -> (forall a, preserves (k a)) -> preserves (bind m k).
Proof.
  intros Hm Hk w Hw. unfold bind. specialize (Hm w Hw).
  destruct (m w) as [a w'|e w'|w']; [by apply Hk | done | done].
Qed.

Lemma preserves_ret {A} (a : A) : preserves (ret a).
Proof. by intros w Hw. Qed.

Lemma preserves_appc flags : preserves (appc rt procs flags).
Proof.
  intros w Hw. unfold appc. destruct (spawnConvert _ _ _) as [cmd fl].
  destruct (procs (spawned w)); unfold memo_inv, patched_names in *; simpl;
    rewrite !patches_app; simpl; by rewrite !app_nil_r.
Qed.

Lemma preserves_patch_step t :
  preserves (patch_step rt configTests app tiSdk t).
Proof.
  intros w [Hnd Hin]. unfold patch_step.
  destruct (project_of configTests t) as [tiProj|]; [|done].
  destruct (truthy_prop (tiappMod w) tiProj) eqn:Ht; [done|].
  assert (forall p, p ∈ patched_names w ->
            truthy_prop ({[tiProj]} ∪ tiappMod w) p = true) as Hin'.
  { intros p Hp%Hin. unfold truthy_prop in *.
    apply orb_true_iff in Hp as [Hp%bool_decide_eq_true|Hp].
    - apply orb_true_iff. left. apply bool_decide_eq_true. set_solver.
    - by rewrite Hp, orb_true_r. }
  cbn [negb]. unfold bind, mark, change, ret. cbn [files tiappMod].
  destruct (files w !! _) as [content|]; [|done].
  destruct (match_g sdkRe (trim content)); [|done].
  unfold memo_inv, patched_names in *. simpl.
  rewrite patches_app, fmap_app. simpl. split.
  - apply NoDup_app. split; [done|]. split; [|apply NoDup_singleton].
    intros p Hp ->%list_elem_of_singleton. apply Hin in Hp. congruence.
  - intros p [Hp| ->%list_elem_of_singleton]%elem_of_app; [by apply Hin'|].
    unfold truthy_prop. apply orb_true_iff. left.
    apply bool_decide_eq_true. set_solver.
Qed.

Lemma preserves_chain suites :
  preserves (chain rt procs configTests app tiSdk suites).
Proof.
  induction suites as [|t suites IH]; simpl; [apply preserves_ret|].
  apply preserves_bind; [|done].
  unfold target_steps, clean_step, build_step.
  apply preserves_bind; [apply preserves_patch_step|]. intros dir.
  apply preserves_bind; [|intros; apply preserves_appc].
  apply preserves_bind; [apply preserves_appc | intros; apply preserves_ret].
Qed.

(** The first half of C2 holds: in every run, no project name is patched
    twice. *)
Lemma buildTestApps_patch_once fs suites :
  NoDup (patched_names
           (final (buildTestApps rt procs configTests app tiSdk suites
                     (start fs)))).
Proof.
  assert (memo_inv (start fs)) as H0.
  { split; [apply NoDup_nil_2 | by intros p Hp%elem_of_nil]. }
  unfold buildTestApps. destruct (String.eqb tiSdk "").
  - simpl. apply NoDup_nil_2.
  - eapply (preserves_bind _ _ (preserves_appc _)); [|exact H0].
    intros _. apply preserves_bind; [apply preserves_chain|].
    intros _ w [Hnd Hin]. unfold memo_inv, patched_names in *. simpl.
    rewrite patches_app. simpl. by rewrite app_nil_r.
Qed.

End Order.

(** C6.  With a toolchain version given, the external steps of a run are, in
    this order, the selection of the toolchain and then, for each target in the
    order of the list, its clean step followed by its build step.  The run is
    strictly sequential: while a process runs nothing else happens, the next
    event is its exit.  A run that is rejected or left pending has run a first
    part of that sequence; a run that completes has run all of it, every
    process has exited; and a healthy run completes. *)
Theorem buildTestApps_sequence (rt : runtime) (procs : nat -> option Z)
    (configTests : config) (app tiSdk : string) (suites : list target)
    (fs : gmap string text) :
  tiSdk <> ""%string ->
  let r := buildTestApps rt procs configTests app tiSdk suites (start fs) in
  let expected := map (command rt) (plan rt configTests app tiSdk suites) in
  is_Some (seq_state false (trace (final r))) /\
  steps (trace (final r)) `prefix_of` expected /\
  (completed r = true ->
   steps (trace (final r)) = expected /\
   seq_state false (trace (final r)) = Some false) /\
  (healthy rt procs configTests app fs suites -> completed r = true).
Proof.
  intros Hsdk r expected.
  pose proof (buildTestApps_completes rt procs configTests app tiSdk fs suites)
    as H4.
  pose proof (obeys_buildTestApps rt procs configTests app tiSdk suites Hsdk
                (start fs) eq_refl) as H.
  fold r in H4. fold r expected in H. clearbody r expected.
  destruct r as [[] w|e w|w]; simpl in *.
  - destruct H as (_ & Hs & ->). rewrite Hs.
    split; [by eexists|]. by repeat split.
  - destruct H as (Hs & d & Hd & ->). rewrite Hs.
    split; [by eexists|]. by repeat split.
  - destruct H as (Hs & d & Hd & ->). rewrite Hs.
    split; [by eexists|]. by repeat split.
Qed.

Lemma sample_healthy :
  healthy Posix.rt SampleBuild.exit0 SampleBuild.cfg "app" SampleBuild.disk
    SampleBuild.suites.
Proof.
  split; [by eexists|]. split.
  - intros t Ht. unfold SampleBuild.suites in Ht.
    repeat (apply elem_of_cons in Ht as [->|Ht]);
      [..|by apply elem_of_nil in Ht];
      exists "LoginApp"%string, SampleBuild.tiapp_xml;
      (split; [by vm_compute|]); (split; [by vm_compute|]);
      vm_compute; by eexists.
  - intros t1 t2 p1 p2 H1 H2. unfold SampleBuild.suites in H1, H2.
    repeat (apply elem_of_cons in H1 as [->|H1]);
      [..|by apply elem_of_nil in H1];
      (repeat (apply elem_of_cons in H2 as [->|H2]);
       [..|by apply elem_of_nil in H2]);
      intros Hp1 Hp2 _; vm_compute in Hp1, Hp2;
      injection Hp1 as <-; injection Hp2 as <-; reflexivity.
Qed.

(** The sample run: select, then clean and build of [login] on Android, of
    [login] on iOS and of [settings] on Android. *)
Lemma buildTestApps_sequence_witness :
  let r := buildTestApps Posix.rt SampleBuild.exit0 SampleBuild.cfg "app"
             "7.0.0.GA" SampleBuild.suites (start SampleBuild.disk) in
  completed r = true /\
  steps (trace (final r)) =
  map (command Posix.rt)
    [ Select "7.0.0.GA";
      Clean "android" "/repo/ui-tests/app/login/LoginApp";
      Build "android" "/repo/ui-tests/app/login/LoginApp";
      Clean "ios" "/repo/ui-tests/app/login/LoginApp";
      Build "ios" "/repo/ui-tests/app/login/LoginApp";
      Clean "android" "/repo/ui-tests/app/settings/LoginApp";
      Build "android" "/repo/ui-tests/app/settings/LoginApp" ]%string.
Proof.
  intros r.
  pose proof (buildTestApps_sequence Posix.rt SampleBuild.exit0
                SampleBuild.cfg "app" "7.0.0.GA" SampleBuild.suites
                SampleBuild.disk ltac:(discriminate)) as (_ & _ & H3 & H4).
  specialize (H4 sample_healthy). split; [exact H4|].
  exact (proj1 (H3 H4)).
Defined.

(** *** Exit codes *)

Section ExitCodes.

Variable rt : runtime.
Variable procs1 procs2 : nat -> option Z.
Variable configTests : config.
Variable app : string.
Variable tiSdk : string.

Hypothesis same_exits : forall k, is_Some (procs1 k) <-> is_Some (procs2 k).

Lemma erase_eq w1 w2 :
  erase w1 = erase w2 <->
  files w1 = files w2 /\ spawned w1 = spawned w2 /\
  tiappMod w1 = tiappMod w2 /\
  map erase_event (trace w1) = map erase_event (trace w2).
Proof.
  unfold erase. split.
  - by intros [= -> -> -> ->].
  - by intros (-> & -> & -> & ->).
Qed.

Lemma Ok_inj {A} (a a' : A) w w' : Ok a w = Ok a' w' -> a = a' /\ w = w'.
Proof. by intros [= -> ->]. Qed.

Lemma Rejected_inj {A} e e' w w' :
  @Rejected A e w = Rejected e' w' -> e = e' /\ w = w'.
Proof. by intros [= -> ->]. Qed.

Lemma Pending_inj {A} w w' : @Pending A w = Pending w' -> w = w'.
Proof. by intros [= ->]. Qed.

Lemma agree_ret {A} (a : A) : agree (ret a) (ret a).
Proof. intros w1 w2 H. simpl. by rewrite H. Qed.

Lemma agree_bind {A B} (m1 m2 : M A) (k1 k2 : A -> M B) :
  agree m1 m2 -> (forall a, agree (k1 a) (k2 a)) ->
  agree (bind m1 k1) (bind m2 k2).
Proof.
  intros Hm Hk w1 w2 H. unfold bind. specialize (Hm w1 w2 H).
  destruct (m1 w1) as [a w1'|e w1'|w1'], (m2 w2) as [a' w2'|e' w2'|w2'];
    simpl in Hm; try discriminate Hm.
  - apply Ok_inj in Hm as [-> Hm]. by apply Hk.
  - apply Rejected_inj in Hm as [-> Hm]. simpl. by rewrite Hm.
  - apply Pending_inj in Hm. simpl. by rewrite Hm.
Qed.

Lemma agree_emit e : agree (emit e) (emit e).
Proof.
  intros w1 w2 (Hf & Hs & Hm & Ht)%erase_eq. simpl. f_equal.
  apply erase_eq. simpl. by rewrite !map_app, Ht, Hf, Hs, Hm.
Qed.

Lemma agree_appc flags : agree (appc rt procs1 flags) (appc rt procs2 flags).
Proof.
  intros w1 w2 (Hf & Hs & Hm & Ht)%erase_eq. unfold appc.
  destruct (spawnConvert _ _ _) as [cmd fl]. rewrite Hs.
  pose proof (same_exits (spawned w2)) as He.
  destruct (procs1 (spawned w2)) as [c1|], (procs2 (spawned w2)) as [c2|];
    simpl.
  - f_equal. apply erase_eq. simpl. by rewrite !map_app, Ht, Hf, Hm.
  - destruct He as [He _]. by destruct He.
  - destruct He as [_ He]. by destruct He.
  - f_equal. apply erase_eq. simpl. by rewrite !map_app, Ht, Hf, Hm.
Qed.

Lemma agree_patch_step t :
  agree (patch_step rt configTests app tiSdk t)
        (patch_step rt configTests app tiSdk t).
Proof.
  intros w1 w2 H. pose proof H as (Hf & Hs & Hm & Ht)%erase_eq.
  unfold patch_step. destruct (project_of configTests t) as [tiProj|];
    [|exact (f_equal (Rejected _) H)].
  rewrite Hm. destruct (truthy_prop (tiappMod w2) tiProj); cbn [negb];
    [exact (f_equal (Ok _) H)|].
  unfold bind, mark, change, ret. cbn [files tiappMod]. rewrite Hf.
  destruct (files w2 !! _) as [content|]; simpl.
  2:{ f_equal. apply erase_eq. simpl. by rewrite Hm. }
  destruct (match_g sdkRe (trim content)); simpl.
  2:{ f_equal. apply erase_eq. simpl. by rewrite Hm. }
  f_equal. apply erase_eq. simpl. by rewrite !map_app, Ht, Hm, Hs.
Qed.

Lemma agree_chain suites :
  agree (chain rt procs1 configTests app tiSdk suites)
        (chain rt procs2 configTests app tiSdk suites).
Proof.
  induction suites as [|t suites IH]; simpl; [apply agree_ret|].
  apply agree_bind; [|done].
  unfold target_steps, clean_step, build_step.
  apply agree_bind; [apply agree_patch_step|]. intros dir.
  apply agree_bind; [|intros; apply agree_appc].
  apply agree_bind; [apply agree_appc | intros; apply agree_ret].
Qed.

Lemma agree_buildTestApps suites :
  agree (buildTestApps rt procs1 configTests app tiSdk suites)
        (buildTestApps rt procs2 configTests app tiSdk suites).
Proof.
  unfold buildTestApps. destruct (String.eqb tiSdk ""); [apply agree_emit|].
  apply agree_bind; [apply agree_appc|]. intros _.
  apply agree_bind; [apply agree_chain|]. intros _. apply agree_emit.
Qed.

End ExitCodes.

(** C7.  A step advances on the [exit] event of its process whatever the
    code: [appc] returns normally for every code, and two runs of the
    pipeline whose processes exit with different codes do the same steps, the
    same patches and end alike; a non-zero code does not fail the run. *)
Theorem appc_ignores_exit_code (rt : runtime) (procs1 procs2 : nat -> option Z)
    (configTests : config) (app tiSdk : string) (suites : list target)
    (fs : gmap string text) :
  (forall k, is_Some (procs1 k) <-> is_Some (procs2 k)) ->
  (forall flags w code,
     procs1 (spawned w) = Some code ->
     completed (appc rt procs1 flags w) = true /\
     last (trace (final (appc rt procs1 flags w))) = Some (Exited code)) /\
  erase_result (buildTestApps rt procs1 configTests app tiSdk suites (start fs))
  = erase_result
      (buildTestApps rt procs2 configTests app tiSdk suites (start fs)).
Proof.
  intros Hsame. split.
  - intros flags w code Hc. unfold appc.
    destruct (spawnConvert _ _ _) as [cmd fl]. rewrite Hc. simpl.
    split; [done | apply last_snoc].
  - by apply agree_buildTestApps.
Qed.

(** Every process of the sample run exiting with code 1 instead of 0. *)
Lemma appc_ignores_exit_code_witness :
  erase_result
    (buildTestApps Posix.rt SampleBuild.exit0 SampleBuild.cfg "app" "7.0.0.GA"
       SampleBuild.suites (start SampleBuild.disk)) =
  erase_result
    (buildTestApps Posix.rt (fun _ => Some 1%Z) SampleBuild.cfg "app"
       "7.0.0.GA" SampleBuild.suites (start SampleBuild.disk)).
Proof.
  apply (appc_ignores_exit_code Posix.rt SampleBuild.exit0
           (fun _ => Some 1%Z)).
  intros k. split; intros _; by eexists.
Defined.

End PipelineFacts.

(** ** The build pipeline: completion, failures and writes *)

Module PipelineExtra.
Import Regex RegexLang RegexFacts Pipeline PipelineSpec PipelineFacts.

Lemma keeps_ret {A} J (a : A) : keeps J (ret a).
Proof. by intros w Hw. Qed.

Lemma keeps_bind {A B} J (m : M A) (k : A -> M B) :
  keeps J m -> (forall a, keeps J (k a)) -> keeps J (bind m k).
Proof.
  intros Hm Hk w Hw. unfold bind. specialize (Hm w Hw).
  destruct (m w) as [a w'|e w'|w']; [by apply Hk | done | done].
Qed.

Section Runs.

Variable rt : runtime.
Variable procs : nat -> option Z.
Variable configTests : config.
Variable app : string.
Variable tiSdk : string.

(** *** [done] *)

Lemma keeps_no_done_appc flags : keeps no_done (appc rt procs flags).
Proof.
  intros w Hw. unfold appc, no_done in *.
  destruct (spawnConvert _ _ _) as [cmd fl].
  destruct (procs (spawned w)); simpl; rewrite ?elem_of_app;
    rewrite ?list_elem_of_singleton; naive_solver.
Qed.

Lemma keeps_no_done_patch t :
  keeps no_done (patch_step rt configTests app tiSdk t).
Proof.
  intros w Hw. unfold patch_step, no_done in *.
  destruct (project_of configTests t) as [tiProj|]; [|done].
  destruct (truthy_prop (tiappMod w) tiProj); [done|].
  cbn [negb]. unfold bind, mark, change, ret. cbn [files tiappMod trace].
  destruct (files w !! _) as [content|]; [|done].
  destruct (match_g sdkRe (trim content)); [|done]. simpl.
  rewrite elem_of_app, list_elem_of_singleton. naive_solver.
Qed.

Lemma keeps_no_done_chain suites :
  keeps no_done (chain rt procs configTests app tiSdk suites).
Proof.
  induction suites as [|t suites IH]; simpl; [apply keeps_ret|].
  apply keeps_bind; [|done].
  unfold target_steps, clean_step, build_step.
  apply keeps_bind; [apply keeps_no_done_patch|]. intros dir.
  apply keeps_bind; [|intros; apply keeps_no_done_appc].
  apply keeps_bind; [apply keeps_no_done_appc | intros; apply keeps_ret].
Qed.

End Runs.

(** X3.  [done] is called exactly when the run completes, once, and as the
    last thing the pipeline does; a rejected or pending run never calls it.
    With no toolchain version the run is [done] and nothing else: no
    process, no patch. *)
Theorem buildTestApps_done (rt : runtime) (procs : nat -> option Z)
    (configTests : config) (app tiSdk : string) (suites : list target)
    (fs : gmap string text) :
  let r := buildTestApps rt procs configTests app tiSdk suites (start fs) in
  (completed r = true <-> Done ∈ trace (final r)) /\
  (completed r = true ->
   exists tr, trace (final r) = tr ++ [Done] /\ Done ∉ tr) /\
  (tiSdk = ""%string ->
   r = Ok tt {| files := fs; spawned := 0; tiappMod := ∅; trace := [Done] |}).
Proof.
  intros r. subst r. unfold buildTestApps.
  destruct (String.eqb_spec tiSdk "") as [->|Hne].
  - simpl. split; [|split; [|done]].
    + split; [intros _; by left | done].
    + intros _. exists []. split; [done | by intros ?%elem_of_nil].
  - assert (no_done (start fs)) as H0 by (by intros ?%elem_of_nil).
    pose proof (keeps_bind no_done _ _
      (keeps_no_done_appc rt procs ["ti"; "sdk"; "select"; tiSdk]%string)
      (fun _ => keeps_no_done_chain rt procs configTests app tiSdk suites)
      (start fs) H0) as H.
    unfold bind in *.
    destruct (appc rt procs _ (start fs)) as [[] w1|e w1|w1]; simpl in *.
    + destruct (chain rt procs configTests app tiSdk suites w1)
        as [[] w2|e w2|w2]; simpl in *.
      * split; [|split; [|done]].
        -- split; [intros _|done]. apply elem_of_app. right. by left.
        -- intros _. by exists (trace w2).
      * split; [|split; done]. split; [done|]. intros Hd. by destruct H.
      * split; [|split; done]. split; [done|]. intros Hd. by destruct H.
    + split; [|split; done]. split; [done|]. intros Hd. by destruct H.
    + split; [|split; done]. split; [done|]. intros Hd. by destruct H.
Qed.

Lemma buildTestApps_done_witness :
  let r := buildTestApps Posix.rt SampleBuild.exit0 SampleBuild.cfg "app"
             "7.0.0.GA" SampleBuild.suites (start SampleBuild.disk) in
  exists tr, trace (final r) = tr ++ [Done] /\ Done ∉ tr.
Proof.
  intros r.
  apply (proj1 (proj2 (buildTestApps_done Posix.rt SampleBuild.exit0
                 SampleBuild.cfg "app" "7.0.0.GA" SampleBuild.suites
                 SampleBuild.disk))).
  by vm_compute.
Defined.

(** *** Rejections *)

Section Failures.

Variable rt : runtime.
Variable procs : nat -> option Z.
Variable configTests : config.
Variable app : string.
Variable tiSdk : string.

Lemma appc_not_rejected flags w e w' :
  appc rt procs flags w <> Rejected e w'.
Proof.
  unfold appc. destruct (spawnConvert _ _ _) as [cmd fl].
  by destruct (procs (spawned w)).
Qed.

Lemma project_error_cause t w :
  project_of configTests t = None ->
  cause rt configTests app t w (project_error configTests t).
Proof.
  unfold project_of, project_error.
  destruct (get configTests (platform t)) as [pc|] eqn:Hpc;
    [|intros _; by apply no_platform].
  cbn [mbind option_bind].
  destruct (get pc (name t)) as [[l|d]|] eqn:He; cbn [mbind option_bind].
  - intros _. by eapply no_project.
  - done.
  - intros _. by eapply no_suite.
Qed.

(** A target is rejected in its patch step, before its clean step. *)
Lemma target_steps_rejected t w e w' :
  target_steps rt procs configTests app tiSdk t w = Rejected e w' ->
  trace w' = trace w /\ cause rt configTests app t w' e.
Proof.
  unfold target_steps, clean_step, build_step, patch_step, bind at 1 2.
  destruct (project_of configTests t) as [tiProj|] eqn:Hp.
  2:{ intros [= <- <-]. split; [done | by apply project_error_cause]. }
  destruct (truthy_prop (tiappMod w) tiProj); cbn [negb].
  - unfold ret, bind.
    destruct (appc rt procs _ w) as [[] w1|e1 w1|w1] eqn:E1;
      [|by apply appc_not_rejected in E1|done].
    intros E2. by apply appc_not_rejected in E2.
  - unfold bind at 1 2 3. unfold mark, change, ret. cbn [files tiappMod trace].
    destruct (files w !! _) as [content|] eqn:Hf.
    2:{ intros [= <- <-]. split; [done|]. by apply no_descriptor. }
    destruct (match_g sdkRe (trim content)) eqn:Hm.
    2:{ intros [= <- <-]. split; [done|]. by eapply no_sdk_element. }
    unfold bind.
    match goal with
    | |- context [appc rt procs ?fl ?w0] =>
        destruct (appc rt procs fl w0) as [[] w1|e1 w1|w1] eqn:E1;
          [|by apply appc_not_rejected in E1|done]
    end.
    intros E2. by apply appc_not_rejected in E2.
Qed.

Lemma chain_rejected suites : forall w e w',
  seq_state false (trace w) = Some false ->
  chain rt procs configTests app tiSdk suites w = Rejected e w' ->
  exists n t,
    suites !! n = Some t /\
    cause rt configTests app t w' e /\
    seq_state false (trace w') = Some false /\
    steps (trace w') =
      steps (trace w) ++
      map (command rt) (flat_map (target_plan rt configTests app) (take n suites)).
Proof.
  induction suites as [|t suites IH]; intros w e w' Hw; [done|].
  cbn [chain]. unfold bind.
  pose proof (obeys_target_steps rt procs configTests app tiSdk t w Hw) as Ht.
  destruct (target_steps rt procs configTests app tiSdk t w)
    as [[] w1|e1 w1|w1] eqn:E; [| |done].
  - destruct Ht as (_ & Hs1 & Hst1). intros H.
    destruct (IH _ _ _ Hs1 H) as (n & t' & Hn & Hc & Hs & Hst).
    exists (S n), t'. split; [done|]. split; [done|]. split; [done|].
    rewrite Hst, Hst1. cbn [take flat_map]. by rewrite map_app, app_assoc.
  - intros [= <- <-]. apply target_steps_rejected in E as [Htr Hc].
    exists 0, t. split; [done|]. split; [done|]. rewrite Htr.
    split; [done|]. simpl. by rewrite app_nil_r.
Qed.

End Failures.

(** X4.  Where the run is rejected, and with what.  The model lets the
    file system fail only on a descriptor that does not exist, and lets
    every process be spawned; the descriptors on disk are in ASCII, and no
    target is named like an inherited property.  Then a run is rejected
    only in the patch step of a target, for one of these causes: the
    configuration has no such platform ([TypeError] on the name of the
    suite), no such suite ([TypeError] on [proj]), an entry without project
    ([path.join] refuses [undefined]), the descriptor is not on disk
    ([ENOENT]), or it has no [<sdk-version>] element ([TypeError] on [0]).
    The steps run until then are the selection and the clean and build
    steps of the targets before that one, all of them exited: no target is
    left cleaned but not built, and the target of the failure is not
    cleaned. *)
Theorem buildTestApps_rejected (rt : runtime) (procs : nat -> option Z)
    (configTests : config) (app tiSdk : string) (suites : list target)
    (fs : gmap string text) (e : error) (w : world) :
  plain_disk fs ->
  Forall own_keys suites ->
  buildTestApps rt procs configTests app tiSdk suites (start fs)
    = Rejected e w ->
  exists n t,
    suites !! n = Some t /\
    cause rt configTests app t w e /\
    seq_state false (trace w) = Some false /\
    steps (trace w) =
      map (command rt) (plan rt configTests app tiSdk (take n suites)).
Proof.
  intros _ _.
  unfold buildTestApps. destruct (String.eqb tiSdk ""); [done|].
  unfold bind at 1.
  pose proof (obeys_appc rt procs (Select tiSdk) (start fs) eq_refl) as Hs.
  destruct (appc rt procs _ (start fs)) as [[] w1|e1 w1|w1] eqn:E1;
    [|by apply appc_not_rejected in E1|done].
  destruct Hs as (_ & Hs1 & Hst1). unfold bind.
  destruct (chain rt procs configTests app tiSdk suites w1)
    as [[] w2|e2 w2|w2] eqn:E2; [done| |done].
  intros [= <- <-].
  destruct (chain_rejected rt procs configTests app tiSdk suites _ _ _ Hs1 E2)
    as (n & t & Hn & Hc & Hs & Hst).
  exists n, t. split; [done|]. split; [done|]. split; [done|].
  rewrite Hst, Hst1. done.
Qed.

(** The suite [login] asked for Android and for iOS, with a configuration
    that has no iOS: rejected at the second target with the error on
    [login], after the first target was cleaned and built. *)
Lemma buildTestApps_rejected_witness :
  let fs : gmap string text :=
    {[ "/repo/ui-tests/app/login/LoginApp/tiapp.xml"%string
         := SampleBuild.tiapp_xml ]} in
  let cfg : config :=
    [ ("android"%string,
       [ ("login"%string, Suite (SampleBuild.suite_of "LoginApp")) ]) ] in
  let suites := [SampleBuild.tgt "login" "android";
                 SampleBuild.tgt "login" "ios"] in
  exists w,
    buildTestApps Posix.rt SampleBuild.exit0 cfg "app" "7.0.0.GA" suites
      (start fs) =
      Rejected (TypeError "Cannot read property 'login' of undefined") w /\
    steps (trace w) =
      map (command Posix.rt)
        [ Select "7.0.0.GA";
          Clean "android" "/repo/ui-tests/app/login/LoginApp";
          Build "android" "/repo/ui-tests/app/login/LoginApp" ]%string.
Proof.
  intros fs cfg suites.
  set (r := buildTestApps Posix.rt SampleBuild.exit0 cfg "app" "7.0.0.GA"
              suites (start fs)).
  assert (match r with
          | Rejected (TypeError msg) w =>
              String.eqb msg "Cannot read property 'login' of undefined" &&
              bool_decide (length (steps (trace w)) = 3)
          | _ => false
          end = true) as Hr by (vm_compute; reflexivity).
  destruct r as [[] w|[msg| |] w|w] eqn:E; try done.
  apply andb_true_iff in Hr as [He%String.eqb_eq Hr%bool_decide_eq_true].
  subst msg. exists w. split; [done|].
  assert (plain_disk fs) as Hfs.
  { apply map_Forall_singleton. vm_compute. reflexivity. }
  assert (Forall own_keys suites) as Hown.
  { repeat constructor; apply (bool_decide_unpack _); by vm_compute. }
  destruct (buildTestApps_rejected _ _ _ _ _ _ _ _ _ Hfs Hown E)
    as (n & t & Hn & Hc & _ & Hst).
  rewrite Hst in Hr |- *.
  destruct n as [|[|n]]; [by vm_compute in Hr | done | by destruct n].
Defined.

(** *** Writes *)

Section Writes.

Variable rt : runtime.
Variable procs : nat -> option Z.
Variable configTests : config.
Variable app : string.
Variable tiSdk : string.
Variable fs : gmap string text.
Variable suites0 : list target.

#[local] Abbreviation J := (writes_inv rt configTests app fs suites0).

Lemma keeps_writes_appc flags : keeps J (appc rt procs flags).
Proof.
  intros w Hw. unfold appc. destruct (spawnConvert _ _ _) as [cmd fl].
  destruct (procs (spawned w)); unfold writes_inv in *; simpl;
    rewrite !patches_app; simpl; by rewrite !app_nil_r.
Qed.

Lemma keeps_writes_patch t :
  t ∈ suites0 -> keeps J (patch_step rt configTests app tiSdk t).
Proof.
  intros Ht w [H1 H2]. unfold patch_step.
  destruct (project_of configTests t) as [tiProj|] eqn:Hp; [|done].
  destruct (truthy_prop (tiappMod w) tiProj); [done|].
  cbn [negb]. unfold bind, mark, change, ret. cbn [files tiappMod trace].
  destruct (files w !! _) as [content|]; [|done].
  destruct (match_g sdkRe (trim content)); [|done].
  unfold writes_inv. simpl. rewrite patches_app. simpl. split.
  - intros path Hpath.
    destruct (decide (path =
      path_join rt
        [getAbsolutePath rt app (path_join rt [name t; tiProj]); "tiapp.xml"%string]))
      as [->|Hne].
    + exists tiProj. apply elem_of_app. right. by left.
    + rewrite lookup_insert_ne in Hpath by done.
      destruct (H1 _ Hpath) as (p & Hin). exists p.
      apply elem_of_app. by left.
  - intros p path [Hin|Hin%list_elem_of_singleton]%elem_of_app; [by apply H2|].
    injection Hin as -> ->. by exists t.
Qed.

Lemma keeps_writes_chain suites :
  (forall t, t ∈ suites -> t ∈ suites0) ->
  keeps J (chain rt procs configTests app tiSdk suites).
Proof.
  induction suites as [|t suites IH]; intros Hsub; simpl; [apply keeps_ret|].
  apply keeps_bind; [|intros; apply IH; intros; apply Hsub; by right].
  unfold target_steps, clean_step, build_step.
  apply keeps_bind; [apply keeps_writes_patch, Hsub; by left|]. intros dir.
  apply keeps_bind; [|intros; apply keeps_writes_appc].
  apply keeps_bind; [apply keeps_writes_appc | intros; apply keeps_ret].
Qed.

End Writes.

(** X5.  What the helper itself writes.  However a run ends, every
    [fs.writeFileSync] of the run is on the [tiapp.xml] of the project that
    the configuration gives for one of the targets, in the directory of the
    suite of that target, and no project name is written twice.  (What the
    spawned processes write is no part of this.) *)
Theorem buildTestApps_writes (rt : runtime) (procs : nat -> option Z)
    (configTests : config) (app tiSdk : string) (suites : list target)
    (fs : gmap string text) :
  let w := final (buildTestApps rt procs configTests app tiSdk suites
                    (start fs)) in
  NoDup (patches (trace w)).*1 /\
  forall tiProj path,
    (tiProj, path) ∈ patches (trace w) ->
    exists t,
      t ∈ suites /\ project_of configTests t = Some tiProj /\
      path = descriptor rt app t tiProj.
Proof.
  intros w. split.
  { apply (PipelineFacts.buildTestApps_patch_once
             rt procs configTests app tiSdk fs suites). }
  assert (writes_inv rt configTests app fs suites w) as [_ H2]; [|exact H2].
  assert (writes_inv rt configTests app fs suites (start fs)) as H0.
  { split; [done | by intros ? ? ?%elem_of_nil]. }
  subst w. unfold buildTestApps. destruct (String.eqb tiSdk "").
  - simpl. split; [done | by intros ? ? ?%elem_of_nil].
  - eapply (keeps_bind _ _ _ (keeps_writes_appc _ _ _ _ _ _ _)); [|exact H0].
    intros _. apply keeps_bind; [by apply keeps_writes_chain|].
    intros _ w' [H1 H2]. unfold writes_inv. simpl.
    rewrite patches_app. simpl. by rewrite app_nil_r.
Qed.

(** The sample run writes the descriptor of [login], which is the one of a
    target. *)
Lemma buildTestApps_writes_witness :
  let w := final (buildTestApps Posix.rt SampleBuild.exit0 SampleBuild.cfg
                    "app" "7.0.0.GA" SampleBuild.suites
                    (start SampleBuild.disk)) in
  patches (trace w) =
    [("LoginApp", "/repo/ui-tests/app/login/LoginApp/tiapp.xml")]%string /\
  exists t,
    t ∈ SampleBuild.suites /\
    project_of SampleBuild.cfg t = Some "LoginApp"%string /\
    "/repo/ui-tests/app/login/LoginApp/tiapp.xml"%string =
      descriptor Posix.rt "app" t "LoginApp".
Proof.
  intros w.
  assert (patches (trace w) =
          [("LoginApp", "/repo/ui-tests/app/login/LoginApp/tiapp.xml")]%string)
    as Hp by (vm_compute; reflexivity).
  split; [exact Hp|].
  apply (proj2 (buildTestApps_writes Posix.rt SampleBuild.exit0
                  SampleBuild.cfg "app" "7.0.0.GA" SampleBuild.suites
                  SampleBuild.disk)).
  fold w. rewrite Hp. by left.
Defined.

(** *** The patch of a descriptor *)

Lemma scan_infix r : forall s k l,
  l ∈ scan r k s -> exists a b, s = a ++ l ++ b.
Proof.
  induction s as [|x s IH]; intros k l; simpl.
  - destruct k; [|by intros ?%elem_of_nil].
    destruct (match_here r []); [|by intros ?%elem_of_nil].
    intros ->%list_elem_of_singleton. by exists [], [].
  - destruct k as [|k].
    2:{ intros (a & b & ->)%IH. by exists (x :: a), b. }
    destruct (match_here r (x :: s)) as [t|] eqn:E.
    2:{ intros (a & b & ->)%IH. by exists (x :: a), b. }
    intros [->|H]%elem_of_cons.
    + exists [], (drop (length (x :: s) - length t) (x :: s)).
      by rewrite app_nil_l, take_drop.
    + apply IH in H as (a & b & ->). by exists (x :: a), b.
Qed.

Lemma starts_with_app pat r : starts_with pat (pat ++ r) = true.
Proof.
  induction pat as [|p pat IH]; [done|]. simpl.
  by rewrite Ascii.eqb_refl, IH.
Qed.

Lemma starts_with_drop pat : forall s,
  starts_with pat s = true -> s = pat ++ drop (length pat) s.
Proof.
  induction pat as [|p pat IH]; intros s; [done|].
  destruct s as [|c s]; [done|]. simpl.
  intros [->%Ascii.eqb_eq Hs]%andb_true_iff. f_equal. by apply IH.
Qed.

(** [find_first] finds a text that occurs. *)
Lemma find_first_infix pat a b :
  exists before after,
    find_first pat (a ++ pat ++ b) = Some (before, after) /\
    a ++ pat ++ b = before ++ pat ++ after.
Proof.
  induction a as [|x a (before & after & E & Hs)].
  - exists [], b. cbn [app].
    destruct (pat ++ b) eqn:Epb.
    + simpl. destruct pat; [|done]. simpl in *. by subst.
    + rewrite <- Epb. unfold find_first. rewrite Epb. fold find_first.
      rewrite <- Epb, starts_with_app. rewrite drop_app_length. done.
  - cbn [app find_first].
    destruct (starts_with pat (x :: a ++ pat ++ b)) eqn:Est.
    + exists [], (drop (length pat) (x :: a ++ pat ++ b)).
      split; [done|]. by apply starts_with_drop.
    + rewrite E. exists (x :: before), after. split; [done|].
      cbn [app]. by rewrite Hs.
Qed.

(** A replacement text without [$] stands for itself. *)
Lemma substitution_plain repl matched before after :
  "$"%char ∉ repl -> substitution repl matched before after = repl.
Proof.
  induction repl as [|c repl IH]; [done|].
  intros [Hc Hr]%not_elem_of_cons. cbn [substitution].
  destruct (Ascii.eqb c "$") eqn:E.
  - apply Ascii.eqb_eq in E. congruence.
  - f_equal. by apply IH.
Qed.

Lemma sdk_word old :
  Matches sdkRe old ->
  exists inner, old = sdk_element inner /\ inner <> [] /\
                forallb is_dot inner = true.
Proof.
  unfold sdkRe. intros H.
  apply Matches_app in H as (? & m1 & -> & ->%Matches_lit & H1).
  apply Matches_app in H1 as (inner & ? & -> & [? ?]%Matches_many1
                              & ->%Matches_lit).
  by exists inner.
Qed.

(** X6.  A patch that succeeds writes the trimmed content of the descriptor
    with one [<sdk-version>] element (an opening tag, some text without line
    break, a closing tag) replaced by the element of the requested version;
    the text before and after the element is kept.  (For a descriptor in
    ASCII, whose bytes are the characters that the code reads and trims, and
    for a version without [$], which [String.prototype.replace] would
    expand.) *)
Theorem change_replaces (tiSdk tiProj tiappXml : string) (w w' : world)
    (content : text) :
  "$"%char ∉ txt tiSdk ->
  files w !! tiappXml = Some content ->
  plain content ->
  change tiSdk tiProj tiappXml w = Ok tt w' ->
  exists before inner after,
    trim content = before ++ sdk_element inner ++ after /\
    inner <> [] /\ forallb is_dot inner = true /\
    files w' =
      <[tiappXml := before ++ sdk_element (txt tiSdk) ++ after]> (files w) /\
    trace w' = trace w ++ [Patched tiProj tiappXml].
Proof.
  intros Hsdk Hf _.
  assert ("$"%char ∉ txt "<sdk-version>" ++ txt tiSdk ++ txt "</sdk-version>")
    as Hplain.
  { rewrite !elem_of_app. intros [H|[H|H]]; [|done|];
      apply list_elem_of_In in H; vm_compute in H; intuition discriminate. }
  unfold change. rewrite Hf.
  destruct (match_g sdkRe (trim content)) as [ms|] eqn:Hm; [|done].
  apply GenyFacts.match_g_Some in Hm as [-> Hne].
  destruct (match_all sdkRe (trim content)) as [|old ms] eqn:Hms; [done|].
  assert (old ∈ scan sdkRe 0 (trim content)) as Hin
    by (unfold match_all in Hms; rewrite Hms; by left).
  pose proof (scan_sound _ _ _ _ Hin) as Hw.
  apply sdk_word in Hw as (inner & -> & Hinner & Hdots).
  apply scan_infix in Hin as (a & b & Hab).
  destruct (find_first_infix (sdk_element inner) a b)
    as (before & after & Hfind & Hsplit).
  intros [= <-]. exists before, inner, after.
  split; [by rewrite Hab|]. split; [done|]. split; [done|].
  simpl. split; [|done]. f_equal. unfold replace. rewrite Hab, Hfind.
  by rewrite substitution_plain.
Qed.

(** The descriptor of the sample, patched for 7.0.0.GA. *)
Lemma change_replaces_witness :
  exists w' before after,
    change "7.0.0.GA" "LoginApp" "/repo/ui-tests/app/login/LoginApp/tiapp.xml"
      (start SampleBuild.disk) = Ok tt w' /\
    files w' !! "/repo/ui-tests/app/login/LoginApp/tiapp.xml"%string =
      Some SampleBuild.patched_xml /\
    files w' =
      <["/repo/ui-tests/app/login/LoginApp/tiapp.xml"%string :=
          before ++ sdk_element (txt "7.0.0.GA") ++ after]> SampleBuild.disk.
Proof.
  set (r := change "7.0.0.GA" "LoginApp"
              "/repo/ui-tests/app/login/LoginApp/tiapp.xml"
              (start SampleBuild.disk)).
  assert (match r with
          | Ok _ w' =>
              bool_decide
                (files w' !! "/repo/ui-tests/app/login/LoginApp/tiapp.xml"%string
                 = Some SampleBuild.patched_xml)
          | _ => false
          end = true) as Hr by (vm_compute; reflexivity).
  destruct r as [[] w'|e w'|w'] eqn:E; [|done..].
  apply bool_decide_eq_true in Hr.
  destruct (change_replaces "7.0.0.GA" "LoginApp"
              "/repo/ui-tests/app/login/LoginApp/tiapp.xml"
              (start SampleBuild.disk) w' SampleBuild.tiapp_xml)
    as (before & inner & after & _ & _ & _ & Hfiles & _).
  - apply (bool_decide_unpack _). by vm_compute.
  - reflexivity.
  - vm_compute. reflexivity.
  - exact E.
  - by exists w', before, after.
Defined.

End PipelineExtra.

(** ** The capability matrix builder *)

Module MatrixFacts.
Import Matrix.

Lemma dom_set_prop l k v (σ : store) : dom (set_prop l k v σ) = {[l]} ∪ dom σ.
Proof. unfold set_prop. apply dom_insert_L. Qed.

Lemma lookup_set_prop_ne l l' k v (σ : store) :
  l <> l' -> set_prop l k v σ !! l' = σ !! l'.
Proof. intros H. unfold set_prop. by rewrite lookup_insert_ne. Qed.

Lemma lookup_set_prop l k v (σ : store) :
  set_prop l k v σ !! l = Some (<[k := v]> (default ∅ (σ !! l))).
Proof. unfold set_prop. by rewrite lookup_insert_eq. Qed.

Lemma prop_set_prop_ne l l' k k' v (σ : store) :
  l' ∈ dom σ -> k <> k' -> prop (set_prop l k v σ) l' k' = prop σ l' k'.
Proof.
  intros Hl Hk. unfold prop. destruct (decide (l = l')) as [->|Hne].
  - rewrite lookup_set_prop. apply elem_of_dom in Hl as [o ->]. simpl.
    by rewrite lookup_insert_ne.
  - by rewrite lookup_set_prop_ne.
Qed.

Section Facts.

Variable rt : runtime.
Variable configTests : config.
Variable app : string.

(** What [enrich] leaves alone. *)
Lemma enrich_frame t d l (σ : store) :
  dom σ ⊆ dom (enrich rt app t d l σ) /\
  (forall l', l' <> l -> enrich rt app t d l σ !! l' = σ !! l') /\
  (forall l' k, l' ∈ dom σ -> k ∉ platform_keys ->
     prop (enrich rt app t d l σ) l' k = prop σ l' k).
Proof.
  unfold enrich.
  repeat match goal with
         | |- context [if ?b then _ else _] => destruct b
         end;
    (split; [rewrite ?dom_set_prop; set_solver|]);
    (split; [intros l' Hl'; by rewrite ?lookup_set_prop_ne by done|]);
    intros l' k Hl' Hk; unfold platform_keys in Hk;
    repeat (rewrite prop_set_prop_ne;
            [| rewrite ?dom_set_prop; set_solver | set_solver]);
    done.
Qed.

(** What one device adds. *)
Lemma add_device_spec t dc d out (σ : store) :
  exists p σ',
    add_device t dc d (out, σ) = (out ++ [p], σ') /\
    (cap p ∉ dom σ) /\ dom σ' = {[cap p]} ∪ dom σ /\
    (forall l, l ∈ dom σ -> σ' !! l = σ !! l) /\
    pair_of σ' t d p.
Proof.
  unfold add_device.
  set (l := fresh (dom σ)).
  assert (l ∉ dom σ) as Hl by apply is_fresh.
  eexists {| suite := abs t; cap := l |}, _. split; [reflexivity|].
  simpl. split; [done|]. split; [|split].
  - rewrite !dom_set_prop, dom_insert_L. set_solver.
  - intros l' Hl'. assert (l <> l') by (intros ->; done).
    by rewrite !lookup_set_prop_ne, lookup_insert_ne.
  - split; [done|]. eexists. split; [apply lookup_set_prop|].
    rewrite lookup_set_prop. simpl. split.
    + rewrite lookup_insert_ne by done. apply lookup_insert_eq.
    + apply lookup_insert_eq.
Qed.

Lemma pair_of_stable (σ σ' : store) t d p :
  pair_of σ t d p -> σ' !! cap p = σ !! cap p -> pair_of σ' t d p.
Proof. intros (Hs & o & Ho & Hd & Hv) E. split; [done|]. exists o. by rewrite E. Qed.

Lemma pair_of_dom (σ : store) t d p : pair_of σ t d p -> cap p ∈ dom σ.
Proof. intros (_ & o & Ho & _). apply elem_of_dom. eauto. Qed.

(** What the devices of one target add. *)
Lemma devices_spec t dc devs : forall out (σ : store),
  exists block σ',
    fold_left (fun st d => add_device t dc d st) devs (out, σ)
      = (out ++ block, σ') /\
    Forall2 (fun d p => pair_of σ' t d p /\ (cap p ∉ dom σ)) devs block /\
    NoDup (cap <$> block) /\
    dom σ ⊆ dom σ' /\
    (forall l, l ∈ dom σ -> σ' !! l = σ !! l).
Proof.
  induction devs as [|d devs IH]; intros out σ; cbn [fold_left].
  - exists [], σ. rewrite app_nil_r. repeat split; try done.
    apply NoDup_nil_2.
  - destruct (add_device_spec t dc d out σ)
      as (p & σ1 & -> & Hp & Hdom & Hold & Hpair).
    destruct (IH (out ++ [p]) σ1)
      as (block & σ' & -> & Hall & Hnd & Hsub & Hold').
    exists (p :: block), σ'. rewrite <- app_assoc. split; [done|].
    assert (cap p ∈ dom σ1) as Hp1 by (rewrite Hdom; set_solver).
    split; [|split; [|split]].
    + constructor.
      * split; [|done]. apply pair_of_stable with σ1; [done|]. by apply Hold'.
      * eapply Forall2_impl; [exact Hall|]. intros d' q [Hq Hfr].
        split; [done|]. rewrite Hdom in Hfr. set_solver.
    + simpl. apply NoDup_cons. split; [|done].
      intros (q & Hq & Hin)%list_elem_of_fmap.
      apply list_elem_of_lookup in Hin as [i Hi].
      destruct (Forall2_lookup_r _ _ _ _ _ Hall Hi) as (d' & _ & _ & Hfr).
      by rewrite <- Hq in Hfr.
    + rewrite Hdom in Hsub. set_solver.
    + intros l Hl. rewrite Hold' by (rewrite Hdom; set_solver). by apply Hold.
Qed.

Lemma desired_of_base p tests (σ : store) l :
  get configTests p = Some tests -> desired_of tests σ = Some l ->
  is_base configTests l /\ l ∈ dom σ.
Proof.
  unfold desired_of. intros Hp.
  destruct (get tests "desiredCapabilities") as [[l'|]|] eqn:E; [|done..].
  case_bool_decide; [|done]. intros [= ->]. split; [|done].
  by exists p, tests, "desiredCapabilities"%string.
Qed.

(** What one target adds, and what it leaves alone. *)
Lemma add_target_spec t out (σ : store) out' σ' :
  add_target rt configTests app t (out, σ) = Return (out', σ') ->
  exists devs block,
    devices_of configTests t = Some devs /\
    out' = out ++ block /\
    Forall2 (fun d p => pair_of σ' t d p /\ (cap p ∉ dom σ)) devs block /\
    NoDup (cap <$> block) /\
    dom σ ⊆ dom σ' /\
    (forall l, l ∈ dom σ -> ~ is_base configTests l -> σ' !! l = σ !! l) /\
    (forall l k, l ∈ dom σ -> k ∉ platform_keys -> prop σ' l k = prop σ l k).
Proof.
  unfold add_target, devices_of.
  destruct (get configTests (platform t)) as [tests|] eqn:Ht; [|done]. simpl.
  destruct (suite_of tests (name t)) as [d|] eqn:Hd; [|done]. simpl.
  destruct (desired_of tests σ) as [l|] eqn:Hl.
  - destruct (desired_of_base _ _ _ _ Ht Hl) as [Hbase Hdom].
    destruct (enrich_frame t d l σ) as (Hsub & Hother & Hprop).
    destruct (devices_spec t (Some l) (testDevices d) out
                (enrich rt app t d l σ))
      as (block & σ2 & E & Hall & Hnd & Hsub2 & Hold).
    rewrite E. intros [= <- <-]. exists (testDevices d), block.
    split; [done|]. split; [done|]. split; [|split; [done|split; [|split]]].
    + eapply Forall2_impl; [exact Hall|]. intros d' q [Hq Hfr].
      split; [done|]. set_solver.
    + set_solver.
    + intros l' Hl' Hnb. rewrite Hold by set_solver. apply Hother.
      by intros ->.
    + intros l' k Hl' Hk. unfold prop at 1. rewrite Hold by set_solver.
      by apply Hprop.
  - destruct (is_known_platform (platform t)); [done|].
    destruct (devices_spec t None (testDevices d) out σ)
      as (block & σ2 & E & Hall & Hnd & Hsub2 & Hold).
    rewrite E. intros [= <- <-]. exists (testDevices d), block.
    split; [done|]. split; [done|]. split; [done|].
    split; [done|]. split; [done|]. split.
    + intros l' Hl' _. by apply Hold.
    + intros l' k Hl' _. unfold prop. by rewrite Hold.
Qed.

Lemma for_each_inv t suites st st' :
  for_each rt configTests app (t :: suites) st = Return st' ->
  exists st1, add_target rt configTests app t st = Return st1 /\
              for_each rt configTests app suites st1 = Return st'.
Proof.
  simpl. destruct (add_target rt configTests app t st) as [st1| |]; [|done..].
  eauto.
Qed.

Lemma bases_allocated_mono (σ σ' : store) :
  dom σ ⊆ dom σ' -> bases_allocated configTests σ ->
  bases_allocated configTests σ'.
Proof. intros Hsub H p tests k l Hp Hk. apply Hsub. eauto. Qed.

(** The whole loop. *)
Lemma for_each_spec suites : forall out (σ : store) out' σ',
  for_each rt configTests app suites (out, σ) = Return (out', σ') ->
  dom σ ⊆ dom σ' /\
  (forall l, l ∈ dom σ -> ~ is_base configTests l -> σ' !! l = σ !! l) /\
  (forall l k, l ∈ dom σ -> k ∉ platform_keys -> prop σ' l k = prop σ l k) /\
  exists blocks,
    out' = out ++ concat blocks /\
    Forall2 (fun t block => exists devs,
               devices_of configTests t = Some devs /\
               Forall2 (fun d p => (cap p ∉ dom σ) /\
                          (bases_allocated configTests σ -> pair_of σ' t d p))
                 devs block)
      suites blocks /\
    (bases_allocated configTests σ -> NoDup (cap <$> concat blocks)).
Proof.
  induction suites as [|t suites IH]; intros out σ out' σ' H.
  - injection H as <- <-. repeat split; try done.
    exists []. rewrite app_nil_r. repeat split; [constructor|].
    intros _. apply NoDup_nil_2.
  - apply for_each_inv in H as ([out1 σ1] & H1 & H2).
    apply add_target_spec in H1
      as (devs & block & Hdevs & -> & Hall & Hnd & Hsub & Hold & Hprop).
    apply IH in H2 as (Hsub' & Hold' & Hprop' & blocks & -> & Hblocks & Hnd').
    split; [set_solver|]. split; [|split].
    + intros l Hl Hnb. rewrite Hold' by set_solver. by apply Hold.
    + intros l k Hl Hk. rewrite Hprop' by set_solver. by apply Hprop.
    + exists (block :: blocks). rewrite <- app_assoc. split; [done|].
      assert (forall d p, pair_of σ1 t d p -> cap p ∉ dom σ ->
                bases_allocated configTests σ -> pair_of σ' t d p) as Hkeep.
      { intros d p Hp Hfr Hb. apply pair_of_stable with σ1; [done|].
        apply Hold'; [by eapply pair_of_dom|].
        intros (pl & tests & k & Hg1 & Hg2). apply Hfr. eauto. }
      split; [|].
      * constructor.
        -- exists devs. split; [done|].
           eapply Forall2_impl; [exact Hall|]. intros d p [Hp Hfr]. eauto.
        -- eapply Forall2_impl; [exact Hblocks|].
           intros t' b (devs' & Hd' & Hb'). exists devs'. split; [done|].
           eapply Forall2_impl; [exact Hb'|]. intros d p [Hfr Hp].
           split; [set_solver|]. intros Hb. apply Hp.
           by apply bases_allocated_mono with σ.
      * intros Hb. simpl. rewrite fmap_app. apply NoDup_app.
        split; [done|]. split.
        -- intros c (p & -> & Hp)%list_elem_of_fmap
                    (q & Hq & Hin)%list_elem_of_fmap.
           apply list_elem_of_lookup in Hp as [i Hi].
           destruct (Forall2_lookup_r _ _ _ _ _ Hall Hi) as (d & _ & Hpair & _).
           apply pair_of_dom in Hpair.
           apply list_elem_of_In, in_concat in Hin as (b & Hb' & Hqb).
           apply list_elem_of_In in Hb', Hqb.
           apply list_elem_of_lookup in Hb' as [j Hj].
           destruct (Forall2_lookup_r _ _ _ _ _ Hblocks Hj)
             as (t' & _ & devs' & _ & Hb'').
           apply list_elem_of_lookup in Hqb as [n Hn].
           destruct (Forall2_lookup_r _ _ _ _ _ Hb'' Hn) as (d' & _ & Hfr & _).
           rewrite <- Hq in Hfr. done.
        -- apply Hnd'. by apply bases_allocated_mono with σ.
Qed.

Lemma for_each_total suites (σ0 : store) :
  (forall t, t ∈ suites -> resolvable configTests σ0 t) ->
  forall out (σ : store), dom σ0 ⊆ dom σ ->
    exists st, for_each rt configTests app suites (out, σ) = Return st.
Proof.
  induction suites as [|t suites IH]; intros Hres out σ Hsub;
    cbn [for_each]; [eauto|].
  destruct (Hres t) as (tests & l & d & Ht & Hc & Hl & Hd); [by left|].
  destruct (add_target rt configTests app t (out, σ)) as [[out1 σ1]| |] eqn:E.
  - apply add_target_spec in E as (_ & _ & _ & _ & _ & _ & Hsub1 & _).
    apply IH; [intros; apply Hres; by right | set_solver].
  - exfalso. revert E. unfold add_target. rewrite Ht, Hd. unfold desired_of.
    rewrite Hc. rewrite bool_decide_eq_true_2 by set_solver. done.
  - exfalso. revert E. unfold add_target. rewrite Ht, Hd. unfold desired_of.
    rewrite Hc. rewrite bool_decide_eq_true_2 by set_solver. done.
Qed.

End Facts.

(** C8, as the claim states it, fails: after [createTests] on the sample
    configuration the base object of Android holds [platformName],
    [appPackage], [appActivity] and [app], which it did not hold before. *)
Lemma createTests_mutates_base :
  exists out σ',
    createTests Posix.rt Sample.cfg "app" SampleMatrix.targets SampleMatrix.σ0
      = Return (out, σ') /\
    prop SampleMatrix.σ0 0 "platformName" = None /\
    prop σ' 0 "platformName" = Some (VStr "Android") /\
    σ' !! 0 <> SampleMatrix.σ0 !! 0.
Proof.
  set (r := createTests Posix.rt Sample.cfg "app" SampleMatrix.targets
              SampleMatrix.σ0).
  assert (match r with
          | Return (_, σ') =>
              bool_decide (prop σ' 0 "platformName" = Some (VStr "Android"))
          | _ => false
          end = true) as Hafter by (vm_compute; reflexivity).
  assert (prop SampleMatrix.σ0 0 "platformName" = None) as Hbefore
    by (vm_compute; reflexivity).
  destruct r as [[out σ']| |]; [|discriminate Hafter..].
  apply bool_decide_eq_true in Hafter.
  exists out, σ'. split; [done|]. split; [done|]. split; [done|].
  intros H. unfold prop in Hafter, Hbefore. rewrite H, Hbefore in Hafter.
  discriminate Hafter.
Qed.

(** C8, amended.  [createTests] writes to the objects that exist before the
    call, the base objects among them, under the keys [platformName], [app],
    [appPackage] and [appActivity] only: every other entry of every such
    object, [deviceName] and [platformVersion] included, is after the call
    what it was before; an object that is not a base object is not written
    at all; and the capability object of every output pair is a new object,
    none of those that existed before. *)
Theorem createTests_base_frame (rt : runtime) (configTests : config)
    (app : string) (suites : list target) (σ : store)
    (out : list test) (σ' : store) :
  createTests rt configTests app suites σ = Return (out, σ') ->
  (forall l k, l ∈ dom σ -> k ∉ platform_keys -> prop σ' l k = prop σ l k) /\
  (forall l, l ∈ dom σ -> ~ is_base configTests l -> σ' !! l = σ !! l) /\
  (forall p, p ∈ out -> cap p ∉ dom σ).
Proof.
  intros H. apply for_each_spec in H
    as (_ & Hold & Hprop & blocks & -> & Hblocks & _).
  split; [done|]. split; [done|]. simpl.
  intros p (b & Hb & Hp)%list_elem_of_In%in_concat.
  apply list_elem_of_In, list_elem_of_lookup in Hb as [i Hi].
  apply list_elem_of_In, list_elem_of_lookup in Hp as [j Hj].
  destruct (Forall2_lookup_r _ _ _ _ _ Hblocks Hi) as (t & _ & devs & _ & Hb).
  by destruct (Forall2_lookup_r _ _ _ _ _ Hb Hj) as (d & _ & Hfr & _).
Qed.

(** On the sample configuration: the entry [automationName] of the base
    object is kept, and no pair has the base object as its capabilities. *)
Lemma createTests_base_frame_witness :
  exists out σ',
    createTests Posix.rt Sample.cfg "app" SampleMatrix.targets SampleMatrix.σ0
      = Return (out, σ') /\
    prop σ' 0 "automationName" = Some (VStr "Appium") /\
    (forall p, p ∈ out -> cap p <> 0).
Proof.
  set (r := createTests Posix.rt Sample.cfg "app" SampleMatrix.targets
              SampleMatrix.σ0).
  assert (returns r = true) as Hr by (vm_compute; reflexivity).
  destruct r as [[out σ']| |] eqn:E; [|discriminate Hr..].
  exists out, σ'. split; [done|].
  destruct (createTests_base_frame _ _ _ _ _ _ _ E) as (Hprop & _ & Hfresh).
  assert (0 ∈ dom SampleMatrix.σ0) as H0
    by (apply elem_of_dom; by eexists).
  split.
  - rewrite Hprop; [by vm_compute | done |].
    unfold platform_keys. rewrite !not_elem_of_cons.
    repeat split; try discriminate. apply not_elem_of_nil.
  - intros p Hp Hc. apply Hfresh in Hp. by rewrite Hc in Hp.
Defined.

(** C9.  When the base objects of the configuration exist: [createTests]
    returns whenever the configuration has every target; and the list it
    returns is, target after target in the order of [suites], one pair per
    declared device of the target in the order of its devices, the pair
    holding the path of the suite and a capability object whose [deviceName]
    and [platformVersion] are those of the device.  No two pairs share their
    capability object, so a write to the object of one pair leaves the object
    of any other pair as it is. *)
Theorem createTests_matrix (rt : runtime) (configTests : config)
    (app : string) (suites : list target) (σ : store) :
  bases_allocated configTests σ ->
  ((forall t, t ∈ suites -> resolvable configTests σ t) ->
   exists out σ', createTests rt configTests app suites σ = Return (out, σ')) /\
  (forall out σ',
     createTests rt configTests app suites σ = Return (out, σ') ->
     (exists blocks,
        out = concat blocks /\
        Forall2 (fun t block => exists devs,
                   devices_of configTests t = Some devs /\
                   Forall2 (pair_of σ' t) devs block)
          suites blocks) /\
     NoDup (cap <$> out) /\
     (forall i j p q k v,
        out !! i = Some p -> out !! j = Some q -> i <> j ->
        cap p <> cap q /\
        set_prop (cap p) k v σ' !! cap q = σ' !! cap q)).
Proof.
  intros Hbases. split.
  - intros Hres.
    destruct (for_each_total rt configTests app suites σ Hres [] σ)
      as ([out σ'] & E); [done|]. by exists out, σ'.
  - intros out σ' H. apply for_each_spec in H
      as (_ & _ & _ & blocks & -> & Hblocks & Hnd).
    simpl. specialize (Hnd Hbases). split; [|split; [done|]].
    + exists blocks. split; [done|].
      eapply Forall2_impl; [exact Hblocks|].
      intros t b (devs & Hd & Hb). exists devs. split; [done|].
      eapply Forall2_impl; [exact Hb|]. intros d p [_ Hp]. by apply Hp.
    + intros i j p q k v Hi Hj Hij.
      assert (cap p <> cap q) as Hne.
      { intros Heq. apply Hij.
        apply (NoDup_lookup _ i j (cap p) Hnd);
          rewrite list_lookup_fmap; [by rewrite Hi | by rewrite Hj, Heq]. }
      split; [done|]. by apply lookup_set_prop_ne.
Qed.

Lemma sample_bases : bases_allocated Sample.cfg SampleMatrix.σ0.
Proof.
  intros p tests k l Hp Hk.
  cbv beta iota zeta delta [get Sample.cfg] in Hp.
  destruct (String.eqb "android" p); [|done]. injection Hp as <-.
  cbv beta iota zeta delta [get] in Hk.
  destruct (String.eqb "desiredCapabilities" k).
  - injection Hk as <-. apply elem_of_dom. by eexists.
  - by destruct (String.eqb "login" k).
Qed.

(** The sample target has two devices: two pairs, with two objects. *)
Lemma createTests_matrix_witness :
  exists out σ',
    createTests Posix.rt Sample.cfg "app" SampleMatrix.targets SampleMatrix.σ0
      = Return (out, σ') /\
    NoDup (cap <$> out).
Proof.
  destruct (createTests_matrix Posix.rt Sample.cfg "app" SampleMatrix.targets
              SampleMatrix.σ0 sample_bases) as (Htotal & Hspec).
  destruct Htotal as (out & σ' & E).
  - intros t ->%list_elem_of_singleton.
    exists (default [] (get Sample.cfg "android")), 0, Sample.login.
    split; [done|]. split; [done|]. split; [|done].
    apply elem_of_dom. by eexists.
  - exists out, σ'. split; [done|]. by destruct (Hspec out σ' E) as (_ & ? & _).
Defined.

End MatrixFacts.

(** ** The capability matrix builder: what a pair holds *)

Module MatrixExtra.
Import Matrix MatrixSpec MatrixFacts.

Lemma prop_set_prop l k v (σ : store) : prop (set_prop l k v σ) l k = Some v.
Proof. unfold prop. rewrite lookup_set_prop. simpl. apply lookup_insert_eq. Qed.

Lemma prop_set_prop_other l k k' v (σ : store) :
  k <> k' -> l ∈ dom σ -> prop (set_prop l k v σ) l k' = prop σ l k'.
Proof. intros Hk Hl. by apply prop_set_prop_ne. Qed.

Lemma dom_set_prop_in l l' k v (σ : store) :
  l' ∈ dom σ -> l' ∈ dom (set_prop l k v σ).
Proof. rewrite dom_set_prop. set_solver. Qed.

Section Facts.

Variable rt : runtime.
Variable configTests : config.
Variable app : string.

Lemma prop_set_prop_eqb l k k' v (σ : store) :
  l ∈ dom σ ->
  prop (set_prop l k v σ) l k' = if String.eqb k k' then Some v else prop σ l k'.
Proof.
  intros Hl. destruct (String.eqb_spec k k') as [->|Hne].
  - apply prop_set_prop.
  - by apply prop_set_prop_ne.
Qed.

(** What [enrich] leaves under every key of every object. *)
Lemma enrich_written t d l (σ : store) l' k :
  l ∈ dom σ -> l' ∈ dom σ ->
  prop (enrich rt app t d l σ) l' k =
  if bool_decide (l = l') then
    match get (platform_caps rt app t d) k with
    | Some x => Some x
    | None => prop σ l k
    end
  else prop σ l' k.
Proof.
  intros Hl Hl'. case_bool_decide as Heq.
  - subst l'. unfold platform_caps, enrich.
    destruct (String.eqb (platform t) "ios");
      [|destruct (String.eqb (platform t) "android");
        [|destruct (String.eqb (platform t) "windows")]];
      cbn [get];
      repeat (rewrite prop_set_prop_eqb by (by repeat apply dom_set_prop_in));
      repeat match goal with
             | |- context [String.eqb ?a k] =>
                 destruct (String.eqb_spec a k) as [<-|?]
             end; done.
  - destruct (enrich_frame rt app t d l σ) as (_ & Hother & _).
    unfold prop. by rewrite Hother by done.
Qed.

(** A device copies the base object and sets its two keys. *)
Lemma add_device_copy t l d out (σ : store) :
  l ∈ dom σ ->
  exists p σ',
    add_device t (Some l) d (out, σ) = (out ++ [p], σ') /\
    (forall k, k ∉ device_keys -> prop σ' (cap p) k = prop σ l k).
Proof.
  intros Hl. unfold add_device. eexists _, _. split; [reflexivity|].
  intros k Hk. unfold device_keys in Hk.
  apply not_elem_of_cons in Hk as [Hk1 Hk].
  apply not_elem_of_cons in Hk as [Hk2 _].
  cbn [cap]. set (l' := fresh (dom σ)).
  rewrite !prop_set_prop_ne.
  - unfold prop. rewrite lookup_insert_eq. simpl.
    apply elem_of_dom in Hl as [o Ho]. by rewrite Ho.
  - rewrite dom_insert_L. set_solver.
  - done.
  - rewrite dom_set_prop, dom_insert_L. set_solver.
  - done.
Qed.

Lemma devices_copy t l devs : forall out (σ : store),
  l ∈ dom σ ->
  exists block σ',
    fold_left (fun st d => add_device t (Some l) d st) devs (out, σ)
      = (out ++ block, σ') /\
    Forall (fun p => forall k, k ∉ device_keys ->
                       prop σ' (cap p) k = prop σ l k) block.
Proof.
  induction devs as [|d devs IH]; intros out σ Hl; cbn [fold_left].
  - exists [], σ. by rewrite app_nil_r.
  - destruct (add_device_copy t l d out σ Hl) as (p & σ1 & E & Hcopy).
    destruct (add_device_spec t (Some l) d out σ)
      as (p' & σ1' & E' & Hp & Hdom & Hold & Hpair).
    rewrite E in E'. injection E' as Hp' <-.
    apply app_inv_head in Hp'. injection Hp' as <-.
    rewrite E.
    assert (l ∈ dom σ1) as Hl1 by (rewrite Hdom; set_solver).
    destruct (IH (out ++ [p]) σ1 Hl1) as (block & σ' & E2 & Hall).
    destruct (devices_spec t (Some l) devs (out ++ [p]) σ1)
      as (block' & σ'' & E2' & _ & _ & _ & Hold').
    rewrite E2 in E2'. injection E2' as Hb <-.
    exists (p :: block), σ'. rewrite E2, <- app_assoc. split; [done|].
    assert (forall k, prop σ1 l k = prop σ l k) as Hbase
      by (intros k; unfold prop; by rewrite Hold).
    constructor.
    + intros k Hk. rewrite <- Hcopy by done. unfold prop.
      rewrite Hold'; [done|]. rewrite Hdom. set_solver.
    + eapply Forall_impl; [exact Hall|]. intros q Hq k Hk.
      by rewrite Hq, Hbase.
Qed.

(** The pairs of the devices of one target: all their entries. *)
Lemma devices_values t l devs out (σ : store) :
  l ∈ dom σ ->
  exists block σ',
    fold_left (fun st d => add_device t (Some l) d st) devs (out, σ)
      = (out ++ block, σ') /\
    Forall2 (fun dev p =>
               suite p = abs t /\ (cap p ∉ dom σ) /\
               forall k, prop σ' (cap p) k = pair_value dev k (prop σ l k))
      devs block /\
    dom σ ⊆ dom σ' /\
    (forall l', l' ∈ dom σ -> σ' !! l' = σ !! l').
Proof.
  intros Hl.
  destruct (devices_spec t (Some l) devs out σ)
    as (block & σ' & E & Hall & _ & Hsub & Hold).
  destruct (devices_copy t l devs out σ Hl) as (block' & σ'' & E' & Hcopy).
  rewrite E in E'. injection E' as Hb <-. apply app_inv_head in Hb as <-.
  exists block, σ'. split; [done|]. split; [|done].
  apply Forall2_same_length_lookup. split; [by eapply Forall2_length|].
  intros i dev p Hdev Hp.
  destruct (Forall2_lookup_lr _ _ _ _ _ _ Hall Hdev Hp)
    as [(Hs & o & Ho & Hn & Hv) Hfresh].
  split; [done|]. split; [done|]. intros k. unfold pair_value.
  destruct (String.eqb_spec k "deviceName") as [->|Hk1].
  { unfold prop. by rewrite Ho. }
  destruct (String.eqb_spec k "platformVersion") as [->|Hk2].
  { unfold prop. by rewrite Ho. }
  rewrite Forall_lookup in Hcopy. apply (Hcopy i p Hp).
  unfold device_keys. rewrite !not_elem_of_cons.
  split; [done|]. split; [done|]. apply not_elem_of_nil.
Qed.

Lemma base_of_inv t l d :
  base_of configTests t = Some (l, d) ->
  exists tests,
    get configTests (platform t) = Some tests /\
    get tests "desiredCapabilities" = Some (Caps l) /\
    suite_of tests (name t) = Some d.
Proof.
  unfold base_of.
  destruct (get configTests (platform t)) as [tests|]; [|done].
  cbn [mbind option_bind].
  destruct (get tests "desiredCapabilities") as [[l'|]|] eqn:Hc; [|done..].
  destruct (suite_of tests (name t)) as [d'|] eqn:Hd; [|done].
  intros [= -> ->]. by exists tests.
Qed.

(** The pairs of one target. *)
Lemma add_target_values t out (σ : store) out' σ' l d :
  bases_allocated configTests σ ->
  add_target rt configTests app t (out, σ) = Return (out', σ') ->
  base_of configTests t = Some (l, d) ->
  exists block,
    out' = out ++ block /\
    Forall2 (fun dev p =>
               suite p = abs t /\ (cap p ∉ dom σ) /\
               forall k, prop σ' (cap p) k =
                         pair_value dev k
                           (written rt configTests app t l k (prop σ l k)))
      (testDevices d) block.
Proof.
  intros Hb H Hbase. unfold written. rewrite Hbase.
  rewrite bool_decide_eq_true_2 by done.
  apply base_of_inv in Hbase as (tests & Ht & Hc & Hd).
  assert (l ∈ dom σ) as Hl by eauto.
  unfold add_target in H. rewrite Ht, Hd in H.
  unfold desired_of in H. rewrite Hc in H.
  rewrite bool_decide_eq_true_2 in H by done.
  destruct (enrich_frame rt app t d l σ) as (Hsub & _ & _).
  destruct (devices_values t l (testDevices d) out (enrich rt app t d l σ))
    as (block & σ2 & E & Hall & _ & _); [by apply Hsub|].
  rewrite E in H. injection H as <- <-.
  exists block. split; [done|].
  eapply Forall2_impl; [exact Hall|]. intros dev p (Hs & Hfr & Hv).
  split; [done|]. split; [set_solver|]. intros k.
  rewrite Hv, (enrich_written t d l σ l k Hl Hl).
  by rewrite bool_decide_eq_true_2.
Qed.

(** The base objects after one target. *)
Lemma add_target_bases t out (σ : store) out' σ' l k :
  bases_allocated configTests σ ->
  add_target rt configTests app t (out, σ) = Return (out', σ') ->
  l ∈ dom σ ->
  prop σ' l k = written rt configTests app t l k (prop σ l k).
Proof.
  intros Hb H Hl. unfold written, base_of, add_target in *.
  destruct (get configTests (platform t)) as [tests|] eqn:Ht; [|done].
  cbn [mbind option_bind].
  destruct (suite_of tests (name t)) as [d|] eqn:Hd; [|done].
  unfold desired_of in H.
  destruct (get tests "desiredCapabilities") as [[l0|d0]|] eqn:Hc.
  - assert (l0 ∈ dom σ) as Hl0 by eauto.
    rewrite bool_decide_eq_true_2 in H by done.
    destruct (enrich_frame rt app t d l0 σ) as (Hsub & _ & _).
    destruct (devices_spec t (Some l0) (testDevices d) out
                (enrich rt app t d l0 σ))
      as (block & σ2 & E & _ & _ & _ & Hold).
    rewrite E in H. injection H as <- <-.
    unfold prop at 1. rewrite Hold by (by apply Hsub).
    fold (prop (enrich rt app t d l0 σ) l k).
    rewrite (enrich_written t d l0 σ l k Hl0 Hl).
    by case_bool_decide; subst.
  - destruct (is_known_platform (platform t)); [done|].
    destruct (devices_spec t None (testDevices d) out σ)
      as (block & σ2 & E & _ & _ & _ & Hold).
    rewrite E in H. injection H as <- <-.
    unfold prop. by rewrite Hold.
  - destruct (is_known_platform (platform t)); [done|].
    destruct (devices_spec t None (testDevices d) out σ)
      as (block & σ2 & E & _ & _ & _ & Hold).
    rewrite E in H. injection H as <- <-.
    unfold prop. by rewrite Hold.
Qed.

Lemma for_each_values suites : forall out (σ : store) out' σ',
  bases_allocated configTests σ ->
  for_each rt configTests app suites (out, σ) = Return (out', σ') ->
  exists blocks,
    out' = out ++ concat blocks /\
    length blocks = length suites /\
    forall i t block l d,
      suites !! i = Some t -> blocks !! i = Some block ->
      base_of configTests t = Some (l, d) ->
      Forall2 (fun dev p =>
                 suite p = abs t /\
                 forall k, prop σ' (cap p) k =
                           pair_value dev k
                             (base_value rt configTests app
                                (take (S i) suites) l k (prop σ l k)))
        (testDevices d) block.
Proof.
  induction suites as [|t suites IH]; intros out σ out' σ' Hb H.
  - injection H as <- <-. exists []. rewrite app_nil_r.
    split; [done|]. split; [done|]. by intros [|i].
  - apply for_each_inv in H as ([out1 σ1] & H1 & H2).
    pose proof (add_target_spec _ _ _ _ _ _ _ _ H1)
      as (_ & block & _ & -> & _ & _ & Hsub & _ & _).
    pose proof (for_each_spec _ _ _ _ _ _ _ _ H2) as (_ & Hold' & _ & _).
    destruct (IH _ _ _ _ (bases_allocated_mono _ _ _ Hsub Hb) H2)
      as (blocks & -> & Hlen & Hblocks).
    exists (block :: blocks). rewrite <- app_assoc.
    split; [done|]. split; [by rewrite !length_cons, Hlen|].
    intros [|i] t' block' l d Ht' Hblock' Hbase.
    + injection Ht' as <-. injection Hblock' as <-.
      destruct (add_target_values _ _ _ _ _ _ _ Hb H1 Hbase)
        as (block' & Hblock & Hall).
      apply app_inv_head in Hblock as <-.
      eapply Forall2_impl; [exact Hall|]. intros dev p (Hs & Hfr & Hv).
      split; [done|]. intros k. rewrite <- Hv. unfold prop.
      rewrite Hold'; [done| |].
      * apply elem_of_dom. specialize (Hv "deviceName"%string).
        unfold pair_value in Hv. simpl in Hv. unfold prop in Hv.
        destruct (σ1 !! cap p); [by eexists|done].
      * intros (pl & tests & k' & Hg1 & Hg2). apply Hfr. eauto.
    + cbn [lookup list_lookup] in Ht', Hblock'.
      specialize (Hblocks i t' block' l d Ht' Hblock' Hbase).
      eapply Forall2_impl; [exact Hblocks|]. intros dev p [Hs Hv].
      split; [done|]. intros k. rewrite Hv. f_equal.
      change (take (S (S i)) (t :: suites)) with (t :: take (S i) suites).
      cbn [base_value fold_left]. unfold base_value. f_equal.
      apply base_of_inv in Hbase as (tests & Hg1 & Hg2 & _).
      eapply add_target_bases; [exact Hb | exact H1 | eauto].
Qed.

End Facts.

(** X7.  When the base objects of the configuration exist and [createTests]
    returns, every target with a base object yields one pair per device of
    its suite, in order, and the capability object of the pair holds, under
    every key: under [deviceName] and [platformVersion] the name and the
    version of the device; under any other key the entry of the base object
    at that moment, which is the capability that this target, or else the
    latest earlier target with the same base object whose platform sets the
    key, has written ([platformName], the path of the built app for iOS and
    Android, the package and activity of the suite for Android), and
    otherwise the entry that the base object had before the call. *)
Theorem createTests_merges (rt : runtime) (configTests : config)
    (app : string) (suites : list target) (σ : store)
    (out : list test) (σ' : store) :
  bases_allocated configTests σ ->
  createTests rt configTests app suites σ = Return (out, σ') ->
  exists blocks,
    out = concat blocks /\
    length blocks = length suites /\
    forall i t block l d,
      suites !! i = Some t -> blocks !! i = Some block ->
      base_of configTests t = Some (l, d) ->
      Forall2 (fun dev p =>
                 suite p = abs t /\
                 forall k, prop σ' (cap p) k =
                           pair_value dev k
                             (base_value rt configTests app
                                (take (S i) suites) l k (prop σ l k)))
        (testDevices d) block.
Proof.
  intros Hb H. by apply for_each_values in H.
Qed.

Lemma shared_bases : bases_allocated SampleShared.cfg SampleMatrix.σ0.
Proof.
  intros p tests k l Hp Hk.
  assert (l = 0) as ->; [|apply elem_of_dom; by eexists].
  cbv beta iota zeta delta [get SampleShared.cfg] in Hp.
  destruct (String.eqb "android" p).
  - injection Hp as <-. cbv beta iota zeta delta [get] in Hk.
    destruct (String.eqb "desiredCapabilities" k); [by injection Hk|].
    by destruct (String.eqb "login" k).
  - destruct (String.eqb "ios" p); [|done].
    injection Hp as <-. cbv beta iota zeta delta [get] in Hk.
    destruct (String.eqb "desiredCapabilities" k); [by injection Hk|].
    by destruct (String.eqb "login" k).
Qed.

(** Android and iOS share their base object: the pair of iOS, the third
    one, is for the iPhone, with the platform name of iOS, the automation
    name of the base object, and the package that the Android target wrote
    before. *)
Lemma createTests_merges_witness :
  exists out σ' p,
    createTests Posix.rt SampleShared.cfg "app" SampleShared.targets
      SampleMatrix.σ0 = Return (out, σ') /\
    out !! 2 = Some p /\
    suite p = "/repo/ui-tests/app/login/ios.js"%string /\
    prop σ' (cap p) "deviceName" = Some (VStr "iPhone 7") /\
    prop σ' (cap p) "platformName" = Some (VStr "iOS") /\
    prop σ' (cap p) "automationName" = Some (VStr "Appium") /\
    prop σ' (cap p) "appPackage" = Some (VStr "com.example.login").
Proof.
  set (r := createTests Posix.rt SampleShared.cfg "app" SampleShared.targets
              SampleMatrix.σ0).
  assert (returns r = true) as Hr by (vm_compute; reflexivity).
  destruct r as [[out σ']| |] eqn:E; [|discriminate Hr..].
  destruct (createTests_merges _ _ _ _ _ _ _ shared_bases E)
    as (blocks & -> & Hlen & Hblocks).
  destruct blocks as [|b0 [|b1 [|b2 blocks]]]; try discriminate Hlen.
  pose proof (Hblocks 0 _ b0 0 Sample.login eq_refl eq_refl eq_refl) as H0.
  pose proof (Hblocks 1 _ b1 0 SampleShared.ios_login eq_refl eq_refl eq_refl)
    as H1.
  apply Forall2_length in H0.
  apply Forall2_cons_inv_l in H1
    as (p & ? & [Hs Hv] & ->%Forall2_nil_inv_l & ->).
  destruct b0 as [|q0 [|q1 [|q2 b0]]]; try discriminate H0.
  eexists _, σ', p. split; [reflexivity|]. split; [done|].
  split; [done|]. rewrite !Hv. by vm_compute.
Defined.

End MatrixExtra.

(** ** The server handle *)

Module AppiumFacts.
Import Appium.

(** Only [runAppium] writes the handle. *)
Lemma handle_kept rt cs : forall m,
  Forall (fun c => is_run c = false) cs ->
  appiumProc (fold_left (after_call rt) cs m) = appiumProc m.
Proof.
  induction cs as [|c cs IH]; intros m Hcs; [done|].
  apply Forall_cons in Hcs as [Hc Hcs]. cbn [fold_left].
  rewrite IH by done. by destruct c.
Qed.

(** C10.  [killAppium] throws a [TypeError] exactly when the handle is
    [null]: it throws in the initial state and after any calls none of which
    is [runAppium], on Windows (after logging) as elsewhere, and spawns or
    kills nothing then; after [runAppium] it returns. *)
Theorem killAppium_needs_runAppium (rt : runtime) :
  (forall m, throws (killAppium rt m).2 = true <-> appiumProc m = None) /\
  (forall cs,
     Forall (fun c => is_run c = false) cs ->
     throws (killAppium rt (after_calls rt cs)).2 = true /\
     Forall (fun e => exists msg, e = Log msg)
       (killAppium rt (after_calls rt cs)).1) /\
  (forall cs p,
     (killAppium rt (after_calls rt (cs ++ [RunAppium p]))).2 = Return tt).
Proof.
  split; [|split].
  - intros m. unfold killAppium.
    destruct (win32 rt), (appiumProc m); simpl; split; done.
  - intros cs Hcs.
    assert (appiumProc (after_calls rt cs) = None) as Hnull.
    { unfold after_calls. by rewrite handle_kept. }
    unfold killAppium. rewrite Hnull.
    destruct (win32 rt); simpl; split; try done.
    repeat constructor. by eexists.
  - intros cs p. unfold after_calls. rewrite fold_left_app. simpl.
    unfold killAppium, runAppium. destruct (spawnConvert _ _ _) as [cmd fl].
    simpl. by destruct (win32 rt).
Qed.

(** [killAppium] first, then after [launchGeny] alone, on Windows and on
    POSIX. *)
Lemma killAppium_needs_runAppium_witness :
  let windows := {| win32 := true; path_join := Posix.join;
                    dirname := "C:\repo\lib" |} in
  killAppium Posix.rt (after_calls Posix.rt [LaunchGeny 4242; OtherCall]) =
    ([], Throw (TypeError "Cannot read property 'kill' of null")) /\
  throws (killAppium windows (after_calls windows [])).2 = true.
Proof.
  intros windows. split.
  - reflexivity.
  - apply (proj1 (proj2 (killAppium_needs_runAppium windows)) []).
    constructor.
Defined.

End AppiumFacts.

(** ** Which process [killAppium] kills *)

Module AppiumExtra.
Import Appium.

(** X8.  [killAppium] kills the process of the latest [runAppium], whatever
    came before it: the handle of an earlier [runAppium] is overwritten, so
    that server is never killed, and calls other than [runAppium] (a
    [killAppium] among them) leave the handle as it is, so a second
    [killAppium] signals the same pid again.  On Windows the kill is a
    [taskkill] after a log line, elsewhere [kill()]. *)
Theorem killAppium_kills_latest (rt : runtime) (cs cs' : list call)
    (p : child) :
  Forall (fun c => is_run c = false) cs' ->
  killAppium rt (after_calls rt (cs ++ RunAppium p :: cs')) =
  (if win32 rt
   then [Log "Appium server shutting down ..."; Taskkill (pid p)]
   else [Kill (pid p)],
   Return tt).
Proof.
  intros Hcs'. unfold after_calls. rewrite fold_left_app. cbn [fold_left].
  assert (appiumProc
            (fold_left (after_call rt) cs'
               (after_call rt (fold_left (after_call rt) cs init)
                  (RunAppium p))) = Some p) as E.
  { rewrite AppiumFacts.handle_kept by done.
    unfold after_call, runAppium. by destruct (spawnConvert _ _ _). }
  unfold killAppium. rewrite E. by destruct (win32 rt).
Qed.

(** Two servers started, the first one killed by nobody. *)
Lemma killAppium_kills_latest_witness :
  killAppium Posix.rt
    (after_calls Posix.rt
       ([RunAppium {| pid := 100 |}] ++
        RunAppium {| pid := 200 |} :: [KillAppium; LaunchGeny 7])) =
  ([Kill 200], Return tt).
Proof.
  apply (killAppium_kills_latest Posix.rt [RunAppium {| pid := 100 |}]
           [KillAppium; LaunchGeny 7] {| pid := 200 |}).
  by repeat constructor.
Defined.

End AppiumExtra.

(** ** Readiness of the server and presence of the emulator *)

Module ServiceFacts.
Import Pattern Service.

Lemma match_items_word p : forall u r,
  match_items p u = Some r <-> exists m, u = m ++ r /\ word p m.
Proof.
  induction p as [|i p IH]; intros u r; simpl.
  - split.
    + intros [= ->]. exists []. split; [done|constructor].
    + intros (m & -> & H). by apply Forall2_nil_inv_l in H as ->.
  - destruct u as [|c u].
    + split; [done|]. intros (m & E & H).
      apply Forall2_cons_inv_l in H as (c & m' & _ & _ & ->). done.
    + destruct (accepts i c) eqn:Ea.
      * rewrite IH. split.
        -- intros (m & -> & H). exists (c :: m). split; [done|].
           by constructor.
        -- intros (m & E & H).
           apply Forall2_cons_inv_l in H as (c' & m' & Hc & Hm & ->).
           simpl in E. injection E as -> ->. eauto.
      * split; [done|]. intros (m & E & H).
        apply Forall2_cons_inv_l in H as (c' & m' & Hc & Hm & ->).
        simpl in E. injection E as -> ->. congruence.
Qed.

Lemma word_chars w : forall m, word (chars w) m <-> m = w.
Proof.
  unfold word, chars. induction w as [|c w IH]; intros m; simpl.
  - split; [apply Forall2_nil_inv_l|intros ->; constructor].
  - split.
    + intros H. apply Forall2_cons_inv_l in H as (c' & m' & Hc & Hm & ->).
      simpl in Hc. apply Ascii.eqb_eq in Hc as ->. f_equal. by apply IH.
    + intros ->. constructor; [apply Ascii.eqb_refl|by apply IH].
Qed.

Lemma word_app p q m :
  word (p ++ q) m <-> exists m1 m2, m = m1 ++ m2 /\ word p m1 /\ word q m2.
Proof.
  unfold word. split.
  - intros H. apply Forall2_app_inv_l in H as (m1 & m2 & ? & ? & ->). eauto.
  - intros (m1 & m2 & -> & ? & ?). by apply Forall2_app.
Qed.

Lemma anywhere_spec f s :
  anywhere f s = true <-> exists pre u, s = pre ++ u /\ f u = true.
Proof.
  induction s as [|a s IH]; simpl.
  - rewrite orb_false_r. split.
    + by exists [], [].
    + intros (pre & u & E & H). symmetry in E.
      apply app_eq_nil in E as [-> ->]. done.
  - rewrite orb_true_iff, IH. split.
    + intros [H|(pre & u & -> & H)].
      * by exists [], (a :: s).
      * by exists (a :: pre), u.
    + intros (pre & u & E & H). destruct pre as [|c pre]; simpl in E.
      * subst. by left.
      * injection E as -> ->. right. eauto.
Qed.

Lemma at_line_start_spec f s : forall b,
  at_line_start f b s = true <->
  exists pre u, s = pre ++ u /\ f u = true /\
    (pre = [] /\ b = true \/
     exists pre' c, pre = pre' ++ [c] /\ is_line_terminator c = true).
Proof.
  induction s as [|a s IH]; intros b; simpl.
  - rewrite orb_false_r, andb_true_iff. split.
    + intros [-> H]. exists [], []. eauto.
    + intros (pre & u & E & H & Hs). symmetry in E.
      apply app_eq_nil in E as [-> ->].
      destruct Hs as [[_ ->]|(pre' & c & E & _)]; [done|].
      by destruct pre'.
  - rewrite orb_true_iff, andb_true_iff, IH. split.
    + intros [[-> H]|(pre & u & -> & H & Hs)].
      * exists [], (a :: s). eauto.
      * exists (a :: pre), u. split; [done|]. split; [done|]. right.
        destruct Hs as [[-> Ha]|(pre' & c & -> & Hc)].
        -- by exists [], a.
        -- by exists (a :: pre'), c.
    + intros (pre & u & E & H & Hs). destruct pre as [|c0 pre0]; simpl in E.
      * subst u. destruct Hs as [[_ ->]|(pre' & c & E & _)]; [by left|].
        by destruct pre'.
      * injection E as -> ->. right. exists pre0, u. split; [done|].
        split; [done|].
        destruct Hs as [[E _]|(pre' & c & E & Hc)]; [done|].
        destruct pre' as [|c1 pre'']; simpl in E; injection E as -> ->.
        -- by left.
        -- right. eauto.
Qed.

(** The spliced string is a word of its own pattern. *)
Lemma of_source_self s : forall p, of_source s = Some p -> word p s.
Proof.
  induction s as [|c s IH]; intros p; simpl.
  - intros [= <-]. constructor.
  - destruct (Ascii.eqb c ".") eqn:Ec.
    + apply Ascii.eqb_eq in Ec as ->.
      destruct (of_source s); [|done]. intros [= <-].
      constructor; [done|by apply IH].
    + destruct (bool_decide _); [done|].
      destruct (of_source s); [|done]. intros [= <-].
      constructor; [apply Ascii.eqb_refl|by apply IH].
Qed.

(** Without a syntax character the pattern is the string itself. *)
Lemma of_source_plain s :
  Forall (fun c => c ∉ syntax_chars) s -> of_source s = Some (chars s).
Proof.
  induction 1 as [|c s Hc Hs IH]; [done|]. simpl.
  destruct (Ascii.eqb c ".") eqn:Ec.
  - apply Ascii.eqb_eq in Ec as ->. exfalso. apply Hc.
    apply (bool_decide_unpack _). by vm_compute.
  - rewrite bool_decide_eq_false_2 by done. by rewrite IH.
Qed.

Lemma ends_spec p t u :
  bool_decide (match_items (p ++ chars t) u = Some []) = true <->
  exists addr, u = addr ++ t /\ word p addr.
Proof.
  rewrite bool_decide_eq_true, match_items_word. split.
  - intros (m & -> & H). rewrite app_nil_r.
    apply word_app in H as (m1 & m2 & -> & H1 & H2).
    apply word_chars in H2 as ->. eauto.
  - intros (addr & -> & H). exists (addr ++ t). rewrite app_nil_r.
    split; [done|]. apply word_app. exists addr, t.
    split; [done|]. split; [done|]. by apply word_chars.
Qed.

Lemma isRunning_spec s hp line :
  of_source (txt (host s)) = Some hp ->
  exists b, isRunning s line = Some b /\
    (b = true <->
     exists pre addr,
       line = pre ++ txt "started on " ++ addr ++ txt ":" ++ port_text s /\
       (addr = txt "0.0.0.0" \/ word hp addr)).
Proof.
  intros Hhp. unfold isRunning. rewrite Hhp. cbn [mbind option_bind].
  eexists. split; [done|]. rewrite anywhere_spec. cbv zeta.
  replace (chars (txt ":") ++ chars (port_text s))
    with (chars (txt ":" ++ port_text s)) by apply map_app.
  split.
  - intros (pre & u & -> & H). exists pre.
    destruct (match_items _ u) as [u'|] eqn:Eu; [|done].
    apply match_items_word in Eu as (m & -> & Hm).
    apply word_chars in Hm as ->.
    apply orb_true_iff in H as [H|H]; apply ends_spec in H as (addr & -> & H);
      exists addr; (split; [done|]).
    + left. by apply word_chars.
    + by right.
  - intros (pre & addr & -> & H).
    exists pre, (txt "started on " ++ addr ++ txt ":" ++ port_text s).
    split; [done|].
    assert (match_items (chars (txt "started on "))
              (txt "started on " ++ addr ++ txt ":" ++ port_text s)
            = Some (addr ++ txt ":" ++ port_text s)) as ->.
    { apply match_items_word. eexists. split; [done|]. by apply word_chars. }
    apply orb_true_iff.
    destruct H as [->|H]; [left|right]; apply ends_spec; eexists;
      (split; [done|]); [by apply word_chars|done].
Qed.

(** X9.  The [stdout] listener of [runAppium] calls [done] exactly when the
    trimmed chunk ends with [started on <addr>:<port>], where [<addr>] is
    [0.0.0.0] or a text that the host, read as a pattern, accepts: every dot
    of the host stands for any character but a line terminator.  The host
    itself is always accepted, and a host without syntax characters accepts
    nothing else. *)
Theorem runAppium_ready (s : server) (hp : list pitem) (output : text) :
  of_source (txt (host s)) = Some hp ->
  word hp (txt (host s)) /\
  (Forall (fun c => c ∉ syntax_chars) (txt (host s)) ->
   forall addr, word hp addr <-> addr = txt (host s)) /\
  exists rs, on_stdout s output = Some rs /\
    (CallDone ∈ rs <->
     exists pre addr,
       trim output =
         pre ++ txt "started on " ++ addr ++ txt ":" ++ port_text s /\
       (addr = txt "0.0.0.0" \/ word hp addr)).
Proof.
  intros Hhp. split; [by apply of_source_self|]. split.
  - intros Hplain addr. apply of_source_plain in Hplain.
    rewrite Hhp in Hplain. injection Hplain as ->. apply word_chars.
  - destruct (isRunning_spec s hp (trim output) Hhp) as (b & Hb & Hiff).
    unfold on_stdout. rewrite Hb. cbn [mbind option_bind].
    eexists. split; [done|]. rewrite <- Hiff.
    rewrite elem_of_app. destruct b; split.
    + done.
    + intros _. left. by right; left.
    + intros [H|H]; [by apply elem_of_nil in H|].
      destruct (bool_decide _); [|by apply elem_of_nil in H].
      apply list_elem_of_singleton in H. done.
    + done.
Qed.

(** The line that Appium prints for a host given by name, and one that only
    looks like the numeric host. *)
Lemma runAppium_ready_witness :
  (exists rs,
     on_stdout {| host := "localhost"; port := 4723 |}
       (txt "[Appium] Appium REST http interface listener started on 0.0.0.0:4723 ")
     = Some rs /\ CallDone ∈ rs) /\
  (exists rs,
     on_stdout {| host := "127.0.0.1"; port := 4723 |}
       (txt "started on 127x0y0z1:4723") = Some rs /\ CallDone ∈ rs).
Proof.
  split.
  - destruct (runAppium_ready {| host := "localhost"; port := 4723 |}
                (chars (txt "localhost"))
                (txt "[Appium] Appium REST http interface listener started on 0.0.0.0:4723 ")
                eq_refl) as (_ & _ & rs & Hrs & Hiff).
    exists rs. split; [done|]. apply Hiff.
    exists (txt "[Appium] Appium REST http interface listener "),
      (txt "0.0.0.0").
    split; [by vm_compute|by left].
  - destruct (runAppium_ready {| host := "127.0.0.1"; port := 4723 |}
                _ (txt "started on 127x0y0z1:4723") eq_refl)
      as (_ & _ & rs & Hrs & Hiff).
    exists rs. split; [done|]. apply Hiff.
    exists [], (txt "127x0y0z1").
    split; [by vm_compute|right]. by repeat constructor.
Defined.

(** X10.  [launchGeny] finds the device exactly when the trimmed output of
    [VBoxManage list vms] has, at its start or at the start of a line, a
    double quote, a text that the device name, read as a pattern, accepts,
    and a double quote; what follows on the line is not looked at.  Then the
    player is spawned with [--vm-name] and the name, and its pid stored in
    [playerPid]; otherwise nothing is spawned, the module variables stay as
    they are, and [stop] receives the error that names the device.  The
    name itself is always accepted. *)
Theorem launchGeny_device (rt : runtime) (genyDevice : string)
    (dp : list pitem) (output : text) (pid : Z) (m : Appium.module_state) :
  of_source (txt genyDevice) = Some dp ->
  word dp (txt genyDevice) /\
  exists found, deviceExist genyDevice output = Some found /\
    (found = true <->
     exists pre name rest,
       trim output = pre ++ quote :: name ++ quote :: rest /\
       word dp name /\ line_start pre) /\
    launchGeny_player rt genyDevice output pid m =
    Some (if found
          then ({| Appium.playerPid := pid;
                   Appium.appiumProc := Appium.appiumProc m |},
                PlayerSpawned
                  (if win32 rt
                   then "C:\Program Files\Genymobile\Genymotion\player.exe"
                   else "/Applications/Genymotion.app/Contents/MacOS/player.app/Contents/MacOS/player")
                  ["--vm-name"%string; genyDevice])
          else (m, Stopped (String quote (genyDevice +:+ String quote
                  " doesn't exist; make sure to add it in genymotion.")))).
Proof.
  intros Hdp. split; [by apply of_source_self|].
  unfold launchGeny_player, deviceExist. rewrite Hdp.
  cbn [mbind option_bind]. eexists. split; [done|]. split.
  - rewrite at_line_start_spec. split.
    + intros (pre & u & E & H & Hs). exists pre.
      apply bool_decide_eq_true in H as [r Hr].
      apply (match_items_word (PChr quote :: dp ++ [PChr quote])) in Hr
        as (w & -> & Hw).
      apply Forall2_cons_inv_l in Hw as (q & w' & Hq & Hw & ->).
      apply Ascii.eqb_eq in Hq as ->.
      apply word_app in Hw as (name & q & -> & Hn & Hq).
      apply (word_chars [quote]) in Hq as ->.
      exists name, r. split.
      { rewrite E. simpl. by rewrite <- app_assoc. }
      split; [done|]. destruct Hs as [[-> _]|Hs]; [by left|by right].
    + intros (pre & name & rest & E & Hn & Hs).
      exists pre, (quote :: name ++ quote :: rest). split; [done|]. split.
      * apply bool_decide_eq_true. exists rest.
        apply (match_items_word (PChr quote :: dp ++ [PChr quote])).
        exists (quote :: name ++ [quote]). split.
        { simpl. by rewrite <- app_assoc. }
        constructor; [done|]. apply word_app. exists name, [quote].
        split; [done|]. split; [done|]. by apply (word_chars [quote]).
      * destruct Hs as [->|Hs]; [by left|by right].
  - by destruct (at_line_start _ _ _).
Qed.

(** Two machines listed, the second one asked for; and a name that is only
    the start of a listed one. *)
Lemma launchGeny_device_witness :
  let vms :=
    quote :: txt "Custom Phone" ++ quote :: txt " {6f1c}" ++
    Geny.newline :: quote :: txt "Google Nexus 5 - 6.0.0" ++ quote ::
    txt " {a2b7}" ++ [Geny.newline] in
  launchGeny_player Posix.rt "Google Nexus 5 - 6.0.0" vms 4242 Appium.init =
    Some ({| Appium.playerPid := 4242; Appium.appiumProc := None |},
          PlayerSpawned
            "/Applications/Genymotion.app/Contents/MacOS/player.app/Contents/MacOS/player"
            ["--vm-name"; "Google Nexus 5 - 6.0.0"]%string) /\
  fst <$> launchGeny_player Posix.rt "Google Nexus" vms 4242 Appium.init =
    Some Appium.init.
Proof.
  intros vms. split.
  - destruct (launchGeny_device Posix.rt "Google Nexus 5 - 6.0.0" _ vms 4242
                Appium.init eq_refl) as (_ & found & _ & Hiff & ->).
    replace found with true; [done|]. symmetry. apply Hiff.
    exists (quote :: txt "Custom Phone" ++ quote :: txt " {6f1c}" ++
            [Geny.newline]),
      (txt "Google Nexus 5 - 6.0.0"), (txt " {a2b7}").
    split; [by vm_compute|]. split; [by repeat constructor|].
    right. by exists (quote :: txt "Custom Phone" ++ quote :: txt " {6f1c}"),
      Geny.newline.
  - destruct (launchGeny_device Posix.rt "Google Nexus" _ vms 4242
                Appium.init eq_refl) as (_ & found & Hf & _ & ->).
    vm_compute in Hf. injection Hf as <-. done.
Defined.

End ServiceFacts.

(** ** Which player [quitGeny] closes *)

Module QuitFacts.
Import Appium Quit.

(** Only [launchGeny] writes [playerPid]. *)
Lemma player_kept rt cs : forall m,
  Forall (fun c => is_launch c = false) cs ->
  playerPid (fold_left (after_call rt) cs m) = playerPid m.
Proof.
  induction cs as [|c cs IH]; intros m Hcs; [done|].
  apply Forall_cons in Hcs as [Hc Hcs]. cbn [fold_left].
  rewrite IH by done. destruct c; try done.
  unfold after_call, runAppium. by destruct (spawnConvert _ _ _).
Qed.

(** X12.  On Windows [quitGeny] writes [kill_geny.vbs] next to the module
    and runs it through [cmd.exe /c]; the script activates the window of
    the process whose pid the latest [launchGeny] stored, whatever was
    launched before and whatever [runAppium] or [killAppium] did since, and
    the pid [-1] when no [launchGeny] ran.  Elsewhere it asks the
    application [player] to quit and reads no pid. *)
Theorem quitGeny_activates (rt : runtime) :
  let vbFile := path_join rt [dirname rt; "kill_geny.vbs"%string] in
  let run pid :=
    [WriteFile vbFile (vbScript pid); Spawn "cmd.exe" ["/c"%string; vbFile]] in
  (win32 rt = true ->
   (forall cs cs' p,
      Forall (fun c => is_launch c = false) cs' ->
      quitGeny rt (after_calls rt (cs ++ LaunchGeny p :: cs')) = run p) /\
   (forall cs,
      Forall (fun c => is_launch c = false) cs ->
      quitGeny rt (after_calls rt cs) = run (-1)%Z)) /\
  (win32 rt = false ->
   forall m,
     quitGeny rt m =
     [Spawn "osascript" ["-e"%string; "quit app " +:+ q +:+ "player" +:+ q]]).
Proof.
  intros vbFile run. split.
  - intros Hw. split.
    + intros cs cs' p Hcs'. unfold quitGeny, spawnConvert, after_calls.
      rewrite Hw, fold_left_app. cbn [fold_left].
      by rewrite player_kept.
    + intros cs Hcs. unfold quitGeny, spawnConvert, after_calls.
      by rewrite Hw, player_kept.
  - intros Hw m. unfold quitGeny. by rewrite Hw.
Qed.

(** Two players launched and a server started since. *)
Lemma quitGeny_activates_witness :
  let windows := {| win32 := true; path_join := Posix.join;
                    dirname := "C:\repo\lib" |} in
  exists script,
    quitGeny windows
      (after_calls windows
         ([LaunchGeny 31] ++ LaunchGeny 4242 :: [RunAppium {| pid := 9 |}])) =
    [WriteFile "C:\repo\lib/kill_geny.vbs" script;
     Spawn "cmd.exe" ["/c"; "C:\repo\lib/kill_geny.vbs"]%string] /\
    Regex.test (Regex.lit "WshShell.AppActivate 4242") (txt script) = true.
Proof.
  intros windows. exists (vbScript 4242%Z). split.
  - apply (proj1 (proj1 (quitGeny_activates windows) eq_refl)
             [LaunchGeny 31] [RunAppium {| pid := 9 |}] 4242%Z).
    by repeat constructor.
  - by vm_compute.
Defined.

End QuitFacts.
